(** * heif2png: tile assembly pipeline of [main.go]

    A shallow embedding of the command's pipeline: the metadata resolver
    ([heifGetInfo] with its [splitInt] closure), the job queue and the
    worker pool of [main], tile placement through [draw.Draw], the
    rotation step and the choice of encoder from the destination's
    extension.

    Conventions.
    - Go's [int] is a 64-bit two's-complement integer (amd64 build); it is
      modelled as [Z], with the wrap-around of [*], [+] and unary [-]
      written out by [GoInt.wrap].  [%] and [/] are Go's truncated
      remainder and quotient ([Z.rem], [Z.quot]) and panic on a zero
      divisor.
    - [[]byte] is [list byte]; Go [string]s are [string].
    - Functions of Go's standard library that [main.go] calls
      ([bytes.IndexByte], [bytes.TrimSpace], [strconv.ParseInt],
      [bufio.Reader.ReadBytes], [filepath.Ext], [strings.ToLower],
      [image.Rect], [image.NewRGBA], [draw.Draw]) are modelled after their
      documented behaviour; external processes, the file system, the
      rotation primitive and the two encoders are fields of a [World]. *)

From Stdlib Require Import ZArith Lia List Permutation.
From Stdlib Require Import Strings.Byte Strings.String Strings.Ascii.
From stdpp Require Import base list.

Import ListNotations.
Local Open Scope Z_scope.

(** ** Go's machine integers *)

Module GoInt.

Definition minInt : Z := - 2 ^ 63.
Definition maxInt : Z := 2 ^ 63 - 1.

(** Two's-complement reduction of a mathematical result to [int]. *)
Definition wrap (z : Z) : Z := (z + 2 ^ 63) mod 2 ^ 64 - 2 ^ 63.

Definition mul (a b : Z) : Z := wrap (a * b).
Definition add (a b : Z) : Z := wrap (a + b).
Definition neg (a : Z) : Z := wrap (- a).

(** [a % b] and [a / b]: [None] is the run-time panic
    "integer divide by zero". *)
Definition rem (a b : Z) : option Z :=
  if b =? 0 then None else Some (wrap (Z.rem a b)).
Definition quo (a b : Z) : option Z :=
  if b =? 0 then None else Some (wrap (Z.quot a b)).

End GoInt.

(** ** Byte slices: package [bytes] and [bufio] *)

Module GoBytes.

Definition nl : byte := "010"%byte.
Definition eqsign : byte := "="%byte.

(** [bytes.IndexByte]: position of the first [c], [None] for [-1]. *)
Fixpoint IndexByte (s : list byte) (c : byte) : option nat :=
  match s with
  | [] => None
  | b :: rest =>
      if Byte.eqb b c then Some O
      else match IndexByte rest c with
           | Some i => Some (S i)
           | None => None
           end
  end.

(** [bytes.Equal]. *)
Fixpoint Equal (a b : list byte) : bool :=
  match a, b with
  | [], [] => true
  | x :: a', y :: b' => Byte.eqb x y && Equal a' b'
  | _, _ => false
  end.

(** White space as [unicode.IsSpace] sees it, on UTF-8 encoded bytes:
    the six ASCII characters, U+0085 and U+00A0 (two bytes), and the
    three-byte encodings of U+1680, U+2000..U+200A, U+2028, U+2029,
    U+202F, U+205F and U+3000.  [spaceAtFront s] is the width of the
    white-space rune that [s] starts with, [O] when there is none. *)
Definition asciiSpace (b : byte) : bool :=
  let n := Byte.to_N b in
  ((9 <=? n) && (n <=? 13) || (n =? 32))%N.

Definition spaceAtFront (s : list byte) : nat :=
  match map Byte.to_N s with
  | (b0 :: rest)%list =>
      if ((9 <=? b0) && (b0 <=? 13) || (b0 =? 32))%N then 1%nat
      else match b0, rest with
           | 0xC2%N, (b1 :: _)%list =>
               if ((b1 =? 0x85) || (b1 =? 0xA0))%N then 2%nat else O
           | 0xE1%N, (0x9A :: 0x80 :: _)%N%list => 3%nat
           | 0xE2%N, (0x80 :: b2 :: _)%N%list =>
               if ((0x80 <=? b2) && (b2 <=? 0x8A) || (b2 =? 0xA8)
                   || (b2 =? 0xA9) || (b2 =? 0xAF))%N then 3%nat else O
           | 0xE2%N, (0x81 :: 0x9F :: _)%N%list => 3%nat
           | 0xE3%N, (0x80 :: 0x80 :: _)%N%list => 3%nat
           | _, _ => O
           end
  | []%list => O
  end.

(** The same for the rune that [s] ends with ([utf8.DecodeLastRune]):
    [r] is [s] reversed. *)
Definition spaceAtBack (r : list byte) : nat :=
  match r with
  | b0 :: rest =>
      if asciiSpace b0 then 1%nat
      else match rest with
           | b1 :: rest' =>
               if (spaceAtFront [b1; b0] =? 2)%nat then 2%nat
               else match rest' with
                    | b2 :: _ =>
                        if (spaceAtFront [b2; b1; b0] =? 3)%nat then 3%nat
                        else O
                    | [] => O
                    end
           | [] => O
           end
  | [] => O
  end.

Fixpoint trimWith (width : list byte -> nat) (fuel : nat) (s : list byte)
  : list byte :=
  match fuel with
  | O => s
  | S k =>
      match width s with
      | O => s
      | w => trimWith width k (drop w s)
      end
  end.

Definition TrimLeft (s : list byte) : list byte :=
  trimWith spaceAtFront (length s) s.
Definition TrimRight (s : list byte) : list byte :=
  rev (trimWith spaceAtBack (length s) (rev s)).

(** [bytes.TrimSpace]: leading, then trailing white space removed. *)
Definition TrimSpace (s : list byte) : list byte := TrimRight (TrimLeft s).

(** The lines that successive [rd.ReadBytes('\n')] calls return without
    an error, each with its delimiter.  Bytes after the last delimiter
    come back together with [io.EOF]; [cur] holds the bytes of the line
    being read. *)
Fixpoint readLinesFrom (cur rd : list byte) : list (list byte) :=
  match rd with
  | [] => []
  | b :: rest =>
      if Byte.eqb b nl then (cur ++ [b]) :: readLinesFrom [] rest
      else readLinesFrom (cur ++ [b]) rest
  end.

Definition readLines (rd : list byte) : list (list byte) :=
  readLinesFrom [] rd.

End GoBytes.

(** ** [strconv.ParseInt(s, 10, 32)] *)

Module Strconv.

Definition isDigit (b : byte) : bool :=
  let n := Byte.to_N b in ((48 <=? n) && (n <=? 57))%N.

Definition digitVal (b : byte) : Z := Z.of_N (Byte.to_N b) - 48.

(** Decimal digits only; [None] is the syntax error (empty input, any
    other character).  The accumulator is unbounded: the range check is
    made on the result. *)
Fixpoint digitsFrom (acc : Z) (s : list byte) : option Z :=
  match s with
  | [] => Some acc
  | b :: rest =>
      if isDigit b then digitsFrom (acc * 10 + digitVal b) rest else None
  end.

Definition ParseUint10 (s : list byte) : option Z :=
  match s with
  | [] => None
  | _ => digitsFrom 0 s
  end.

(** One optional sign, then digits; [None] for a syntax error and for a
    value outside [-2^31, 2^31). *)
Definition ParseInt32 (s : list byte) : option Z :=
  match s with
  | [] => None
  | b :: rest =>
      let '(neg, body) :=
        if Byte.eqb b "+"%byte then (false, rest)
        else if Byte.eqb b "-"%byte then (true, rest)
        else (false, s) in
      match ParseUint10 body with
      | None => None
      | Some un =>
          let cutoff := 2 ^ 31 in
          if negb neg && (cutoff <=? un) then None
          else if neg && (cutoff <? un) then None
          else Some (if neg then - un else un)
      end
  end.

End Strconv.

(** ** The metadata resolver: [heifGetInfo] *)

Record HeifInfo : Type := mkHeifInfo {
  Width : Z;
  Height : Z;
  Rotation : Z;
  Tiles : Z;
  Rows : Z;
  Cols : Z
}.

(** The zero value of the named result [info]. *)
Definition zeroInfo : HeifInfo := mkHeifInfo 0 0 0 0 0 0.

Definition B (s : string) : list byte := list_byte_of_string s.

(** The closure [splitInt].  [None] is the pair [(nil, 0)]; a line that
    starts with [=] gives the empty, non-nil name [line[:0]]. *)
Definition splitInt (line : list byte) : option (list byte * Z) :=
  match GoBytes.IndexByte line GoBytes.eqsign with
  | None => None
  | Some pos =>
      match Strconv.ParseInt32 (GoBytes.TrimSpace (drop (S pos) line)) with
      | None => None
      | Some val => Some (take pos line, val)
      end
  end.

(** One turn of the [for] loop after a successful [ReadBytes]. *)
Definition processLine (info : HeifInfo) (line : list byte) : HeifInfo :=
  match splitInt line with
  | None => info
  | Some (name, val) =>
      if GoBytes.Equal name (B "width") then
        mkHeifInfo val (Height info) (Rotation info) (Tiles info) (Rows info) (Cols info)
      else if GoBytes.Equal name (B "height") then
        mkHeifInfo (Width info) val (Rotation info) (Tiles info) (Rows info) (Cols info)
      else if GoBytes.Equal name (B "rotation") then
        mkHeifInfo (Width info) (Height info) val (Tiles info) (Rows info) (Cols info)
      else if GoBytes.Equal name (B "tiles") then
        mkHeifInfo (Width info) (Height info) (Rotation info) val (Rows info) (Cols info)
      else if GoBytes.Equal name (B "rows") then
        mkHeifInfo (Width info) (Height info) (Rotation info) (Tiles info) val (Cols info)
      else if GoBytes.Equal name (B "cols") then
        mkHeifInfo (Width info) (Height info) (Rotation info) (Tiles info) (Rows info) val
      else info
  end.

(** The loop over the tool's standard output. *)
Definition parseInfo (stdout : list byte) : HeifInfo :=
  fold_left processLine (GoBytes.readLines stdout) zeroInfo.

(** What running [heif2hevc -info] gave: its standard output, or a failed
    [cmd.Run] with the standard error text. *)
Inductive ToolRun : Type :=
| RunOK (stdout : list byte)
| RunFailed (stderr : list byte).

Inductive Error : Type :=
| ExecInfoFail
| ExecExtractFail
| FfmpegFail (file : string)
| PngDecodeFail (file : string).

Definition heifGetInfo (run : ToolRun) : HeifInfo + Error :=
  match run with
  | RunFailed _ => inr ExecInfoFail
  | RunOK stdout => inl (parseInfo stdout)
  end.

(** ** Package [image]: points, rectangles, images *)

Module Image.

Record Point : Type := mkPoint { X : Z; Y : Z }.

Record Rectangle : Type := mkRectangle { Min : Point; Max : Point }.

(** The zero rectangle [image.ZR]. *)
Definition ZR : Rectangle := mkRectangle (mkPoint 0 0) (mkPoint 0 0).

(** [image.Rect]: the returned rectangle has its coordinates swapped
    where needed, so that it is well formed. *)
Definition Rect (x0 y0 x1 y1 : Z) : Rectangle :=
  let '(x0, x1) := if x1 <? x0 then (x1, x0) else (x0, x1) in
  let '(y0, y1) := if y1 <? y0 then (y1, y0) else (y0, y1) in
  mkRectangle (mkPoint x0 y0) (mkPoint x1 y1).

Definition Dx (r : Rectangle) : Z := X (Max r) - X (Min r).
Definition Dy (r : Rectangle) : Z := Y (Max r) - Y (Min r).

Definition Empty (r : Rectangle) : bool :=
  (X (Max r) <=? X (Min r)) || (Y (Max r) <=? Y (Min r)).

(** [Point.In]. *)
Definition PtIn (x y : Z) (r : Rectangle) : bool :=
  (X (Min r) <=? x) && (x <? X (Max r)) &&
  (Y (Min r) <=? y) && (y <? Y (Max r)).

Definition Intersect (r s : Rectangle) : Rectangle :=
  let r' := mkRectangle
              (mkPoint (Z.max (X (Min r)) (X (Min s)))
                       (Z.max (Y (Min r)) (Y (Min s))))
              (mkPoint (Z.min (X (Max r)) (X (Max s)))
                       (Z.min (Y (Max r)) (Y (Max s)))) in
  if Empty r' then ZR else r'.

(** [Rectangle.Add]: translation by a point. *)
Definition Add (r : Rectangle) (p : Point) : Rectangle :=
  mkRectangle (mkPoint (X (Min r) + X p) (Y (Min r) + Y p))
              (mkPoint (X (Max r) + X p) (Y (Max r) + Y p)).

(** One pixel: red, green, blue, alpha, eight bits each. *)
Record Color : Type := mkColor { cR : byte; cG : byte; cB : byte; cA : byte }.

Definition transparent : Color := mkColor x00 x00 x00 x00.

(** The interface [image.Image] as the record of its methods.  [At]
    gives the colour of a pixel as the destination's colour model
    converts it, which is what a [draw.Src] copy stores. *)
Record Image : Type := mkImage {
  Bounds : Rectangle;
  At : Z -> Z -> Color
}.

(** [image.RGBA].  [Pix] has one entry for each pixel (Go keeps the four
    bytes of a pixel next to each other) and [Stride] counts pixels. *)
Record RGBA : Type := mkRGBA {
  Pix : list Color;
  Stride : Z;
  RGBARect : Rectangle
}.

(** [image.NewRGBA].  Go panics when the length of the buffer,
    [4 * Dx r * Dy r], does not fit an [int]; here the buffer exists for
    every rectangle, so what is said of a canvas is said of the runs in
    which it could be allocated. *)
Definition NewRGBA (r : Rectangle) : RGBA :=
  mkRGBA (replicate (Z.to_nat (Dx r * Dy r)) transparent) (Dx r) r.

Definition PixOffset (img : RGBA) (x y : Z) : Z :=
  (y - Y (Min (RGBARect img))) * Stride img + (x - X (Min (RGBARect img))).

Definition RGBAAt (img : RGBA) (x y : Z) : Color :=
  if PtIn x y (RGBARect img) then
    default transparent (Pix img !! Z.to_nat (PixOffset img x y))
  else transparent.

Definition RGBASet (img : RGBA) (x y : Z) (c : Color) : RGBA :=
  if PtIn x y (RGBARect img) then
    mkRGBA (<[Z.to_nat (PixOffset img x y) := c]> (Pix img))
           (Stride img) (RGBARect img)
  else img.

(** The integers [lo], [lo+1], ..., [hi-1]. *)
Definition span (lo hi : Z) : list Z :=
  map (fun k => lo + Z.of_nat k) (seq 0 (Z.to_nat (hi - lo))).

(** The clipping that [draw.Draw] does first: [r] is cut down to the
    destination's bounds and to the part of the source that [sp] and
    [r.Min] align with it; [sp] moves along with [r.Min]. *)
Definition clip (dstBounds r srcBounds : Rectangle) (sp : Point)
  : Rectangle * Point :=
  let orig := Min r in
  let r1 := Intersect r dstBounds in
  let r2 := Intersect r1
              (Add srcBounds (mkPoint (X orig - X sp) (Y orig - Y sp))) in
  let dx := X (Min r2) - X orig in
  let dy := Y (Min r2) - Y orig in
  (r2, mkPoint (X sp + dx) (Y sp + dy)).

(** [draw.Draw(dst, r, src, sp, draw.Src)]: every pixel of the clipped
    rectangle is replaced by the source pixel aligned with it. *)
Definition Draw (dst : RGBA) (r : Rectangle) (src : Image) (sp : Point)
  : RGBA :=
  let '(r', sp') := clip (RGBARect dst) r (Bounds src) sp in
  if Empty r' then dst
  else
    fold_left
      (fun d y =>
         fold_left
           (fun d x =>
              RGBASet d x y (At src (X sp' + (x - X (Min r')))
                                (Y sp' + (y - Y (Min r')))))
           (span (X (Min r')) (X (Max r'))) d)
      (span (Y (Min r')) (Y (Max r'))) dst.

End Image.

(** ** [filepath.Ext] and [strings.ToLower] *)

Module Filepath.

Definition slash : ascii := "/"%char.
Definition dot : ascii := "."%char.

(** The loop of [filepath.Ext], from the last byte towards the first:
    [rpath] is what is left to scan (reversed), [suffix] what has been
    passed. *)
Fixpoint extScan (rpath suffix : list ascii) : string :=
  match rpath with
  | [] => EmptyString
  | c :: more =>
      if Ascii.eqb c slash then EmptyString
      else if Ascii.eqb c dot then string_of_list_ascii (c :: suffix)
      else extScan more (c :: suffix)
  end.

Definition Ext (path : string) : string :=
  extScan (rev (list_ascii_of_string path)) [].

Definition lowerAscii (c : ascii) : ascii :=
  let n := N_of_ascii c in
  if ((65 <=? n) && (n <=? 90))%N then ascii_of_N (n + 32) else c.

(** [strings.ToLower] on the ASCII letters.  Go also maps letters
    outside ASCII, none of which becomes one of the letters of [.png],
    [.jpg] or [.jpeg]. *)
Fixpoint ToLower (s : string) : string :=
  match s with
  | EmptyString => EmptyString
  | String c rest => String (lowerAscii c) (ToLower rest)
  end.

End Filepath.

Export Image.

(** ** The tile decoder: [hevc2Image] *)

(** Lines on the standard error of a run that does not panic. *)
Inductive Msg : Type :=
| MsgFfmpegFail (file : string)
| MsgCannotCreate
| MsgCannotWrite
| MsgUnsupportedExt.

(** [ffmpeg] is the run of the external decoder on a tile file and
    [pngDecode] is [png.Decode] on what it wrote to its standard output.
    The result is the pair [(img, err)] of the Go function, [inr] when
    [err] is not [nil]. *)
Definition hevc2Image (ffmpeg : string -> ToolRun)
    (pngDecode : list byte -> option Image) (srcFile : string)
  : Image + Error :=
  match ffmpeg srcFile with
  | RunFailed _ => inr (FfmpegFail srcFile)
  | RunOK stdout =>
      match pngDecode stdout with
      | Some img => inl img
      | None => inr (PngDecodeFail srcFile)
      end
  end.

(** ** The job queue *)

Module QueueItem.
Record t : Type := mk { hevcFile : string; x : Z; y : Z }.
End QueueItem.

(** The loop that fills the channel: [i] is the index of the first of
    [files].  [None] is the panic of [i % info.Cols]. *)
Fixpoint enqueue (cols : Z) (i : Z) (files : list string)
  : option (list QueueItem.t) :=
  match files with
  | [] => Some []
  | f :: rest =>
      match GoInt.rem i cols, GoInt.quo i cols with
      | Some x, Some y =>
          match enqueue cols (i + 1) rest with
          | Some q => Some (QueueItem.mk f x y :: q)
          | None => None
          end
      | _, _ => None
      end
  end.

Definition buildQueue (info : HeifInfo) (hevcFiles : list string)
  : option (list QueueItem.t) :=
  enqueue (Cols info) 0 hevcFiles.

(** ** The worker pool *)

(** The rectangle a worker computes from the bounds of the decoded
    tile. *)
Definition tileRect (f : QueueItem.t) (img : Image) : Rectangle :=
  let rect := Bounds img in
  let minX := GoInt.mul (QueueItem.x f) (X (Max rect)) in
  let minY := GoInt.mul (QueueItem.y f) (Y (Max rect)) in
  mkRectangle (mkPoint minX minY)
              (mkPoint (GoInt.add (X (Max rect)) minX)
                       (GoInt.add (Y (Max rect)) minY)).

(** A goroutine of the pool is about to receive from the channel, holds
    the item it received, or has left its loop and called [wg.Done]. *)
Inductive Worker : Type :=
| Receiving
| Holding (f : QueueItem.t)
| Exited.

Record Pool : Type := mkPool {
  queue : list QueueItem.t;
  workers : list Worker;
  dstImg : RGBA;
  processError : option Error;
  calls : list QueueItem.t   (* the calls of [hevc2Image], oldest first *)
}.

Section WorkerPool.

Variable decode : string -> Image + Error.

(** The body of the [for f := range queue] loop for one item. *)
Definition processItem (f : QueueItem.t) (dst : RGBA) (perr : option Error)
  : RGBA * option Error :=
  match decode (QueueItem.hevcFile f) with
  | inr err => (dst, Some err)
  | inl img => (Draw dst (tileRect f img) img (mkPoint 0 0), perr)
  end.

(** Worker [w] takes its next step: a receive, or the loop body for the
    item it holds.  The channel is buffered, filled and closed before the
    workers start: a receive takes the oldest item and a receive from the
    empty channel ends the loop.  The goroutines are interleaved step by
    step; the loop body (the call of [hevc2Image], then the store to
    [processError] or the draw) is one step, and the store to
    [processError] is taken as a whole. *)
Definition step (p : Pool) (w : nat) : Pool :=
  match workers p !! w with
  | Some Receiving =>
      match queue p with
      | [] => mkPool [] (<[w := Exited]> (workers p))
                     (dstImg p) (processError p) (calls p)
      | f :: q => mkPool q (<[w := Holding f]> (workers p))
                         (dstImg p) (processError p) (calls p)
      end
  | Some (Holding f) =>
      let '(dst, perr) := processItem f (dstImg p) (processError p) in
      mkPool (queue p) (<[w := Receiving]> (workers p))
             dst perr (calls p ++ [f])
  | Some Exited | None => p
  end.

Definition startPool (threads : Z) (q : list QueueItem.t) (dst : RGBA)
  : Pool :=
  mkPool q (replicate (Z.to_nat threads) Receiving) dst None [].

(** The pool after the goroutines have run in the order [sched]. *)
Definition runPool (sched : list nat) (p : Pool) : Pool :=
  fold_left step sched p.

Definition isExited (w : Worker) : bool :=
  match w with Exited => true | _ => false end.

(** [wg.Wait] returns. *)
Definition allDone (p : Pool) : bool := forallb isExited (workers p).

(** A schedule that lets each worker in turn run until it leaves
    ([jobs] is the length of the queue at the start). *)
Definition oneByOne (threads jobs : nat) : list nat :=
  flat_map (fun w => repeat w (2 * jobs + 1)) (seq 0 threads).

End WorkerPool.

(** ** [main] *)

Record Argv : Type := mkArgv {
  help : bool;
  version : bool;
  pngCompression : Z;
  jpegQuality : Z;
  threads : Z
}.

(** Everything outside the program that a run depends on. *)
Record World : Type := mkWorld {
  argv : Argv;
  args : list string;                         (* [flag.Args()] *)
  runInfo : string -> ToolRun;                (* [heif2hevc -info src] *)
  runExtract : string -> string -> bool;      (* [heif2hevc src tmp] succeeded *)
  globTmp : string -> list string;            (* [filepath.Glob(tmp + "*")] *)
  ffmpeg : string -> ToolRun;
  pngDecode : list byte -> option Image;
  schedule : list nat;                        (* the order the goroutines run in *)
  Rotate : RGBA -> Z -> RGBA;                 (* [imaging.Rotate], angle in degrees *)
  osCreate : string -> bool;                  (* [os.Create] succeeded *)
  pngEncode : Z -> RGBA -> list byte * bool;  (* bytes written, no error *)
  jpegEncode : Z -> RGBA -> list byte * bool
}.

(** [heif2hevc]: the pair [(dstFiles, err)].  The deferred function sets
    [dstFiles] to what [filepath.Glob] finds, also when the tool has
    failed. *)
Definition heif2hevc (w : World) (srcFile dstFile : string)
  : list string * option Error :=
  (globTmp w dstFile,
   if runExtract w srcFile dstFile then None else Some ExecExtractFail).

(** The fix-up of [info] after [heifGetInfo]. *)
Definition fixup (info : HeifInfo) : HeifInfo :=
  if Tiles info =? 1 then
    mkHeifInfo (Width info) (Height info) (Rotation info) (Tiles info) 1 1
  else info.

(** The rotation step. *)
Definition postprocess (rotate : RGBA -> Z -> RGBA) (info : HeifInfo)
    (dst : RGBA) : RGBA :=
  if negb (Rotation info =? 0) then rotate dst (Rotation info) else dst.

Inductive Format : Type := FormatPNG | FormatJPEG | FormatUnsupported.

(** The [switch ext]. *)
Definition formatOf (dstFile : string) : Format :=
  let ext := Filepath.ToLower (Filepath.Ext dstFile) in
  if String.eqb ext ".png" then FormatPNG
  else if String.eqb ext ".jpg" || String.eqb ext ".jpeg" then FormatJPEG
  else FormatUnsupported.

(** The destination file after the run: [None] when [os.Create] failed
    (the run did not touch it), otherwise the bytes written to the newly
    created or truncated file. *)
Definition encodeStep (w : World) (pngLevel : Z) (dstFile : string)
    (img : RGBA) : list Msg * option (list byte) :=
  if osCreate w dstFile then
    match formatOf dstFile with
    | FormatPNG =>
        let '(out, ok) := pngEncode w pngLevel img in
        (if ok then [] else [MsgCannotWrite], Some out)
    | FormatJPEG =>
        let '(out, ok) := jpegEncode w (jpegQuality (argv w)) img in
        (if ok then [] else [MsgCannotWrite], Some out)
    | FormatUnsupported => ([MsgUnsupportedExt], Some [])
    end
  else ([MsgCannotCreate], None).

Inductive PanicValue : Type :=
| PanicError (e : Error)
| PanicDivideByZero.

Record Final : Type := mkFinal {
  stderr : list Msg;
  dstFileBytes : option (list byte);
  removed : list string           (* the deferred [os.Remove] calls *)
}.

Inductive Outcome : Type :=
| PrintedVersion
| PrintedUsage
| Panicked (v : PanicValue) (removedFiles : list string)
| Waiting                        (* [wg.Wait] has not returned *)
| Returned (f : Final).

(** What [hevc2Image] printed for the calls that failed. *)
Definition decodeMsgs (decode : string -> Image + Error)
    (cs : list QueueItem.t) : list Msg :=
  flat_map (fun f => match decode (QueueItem.hevcFile f) with
                     | inr _ => [MsgFfmpegFail (QueueItem.hevcFile f)]
                     | inl _ => []
                     end) cs.

Definition main (w : World) : Outcome :=
  let a := argv w in
  if version a then PrintedVersion
  else if help a then PrintedUsage
  else if (pngCompression a <? 0) || (3 <? pngCompression a)
          || (jpegQuality a <? 0) || (100 <? jpegQuality a) then PrintedUsage
  else
    match args w with
    | srcFile :: dstFile :: _ =>
        let pngLevel := GoInt.neg (pngCompression a) in
        match heifGetInfo (runInfo w srcFile) with
        | inr e => Panicked (PanicError e) []
        | inl info0 =>
            let info := fixup info0 in
            let '(hevcFiles, err) := heif2hevc w srcFile dstFile in
            match err with
            | Some e => Panicked (PanicError e) hevcFiles
            | None =>
                match buildQueue info hevcFiles with
                | None => Panicked PanicDivideByZero hevcFiles
                | Some q =>
                    let decode := hevc2Image (ffmpeg w) (pngDecode w) in
                    let canvas :=
                      NewRGBA (Rect 0 0 (Width info) (Height info)) in
                    let p := runPool decode (schedule w)
                               (startPool (threads a) q canvas) in
                    if allDone p then
                      let img := postprocess (Rotate w) info (dstImg p) in
                      let '(msgs, out) := encodeStep w pngLevel dstFile img in
                      Returned (mkFinal (decodeMsgs decode (calls p) ++ msgs)
                                        out hevcFiles)
                    else Waiting
                end
            end
        end
    | _ => PrintedUsage
    end.

(** ** Predicates used in the statements *)

(** An [RGBA] as [NewRGBA] makes it: the stride is the width and [Pix]
    holds one entry for each pixel of the rectangle. *)
Definition wfRGBA (img : RGBA) : Prop :=
  Stride img = Dx (RGBARect img) /\
  0 <= Dx (RGBARect img) /\ 0 <= Dy (RGBARect img) /\
  length (Pix img) = Z.to_nat (Dx (RGBARect img) * Dy (RGBARect img)).

(** The items that the workers hold. *)
Definition held (ws : list Worker) : list QueueItem.t :=
  flat_map (fun w => match w with Holding f => [f] | _ => [] end) ws.

(** The loop body run for the items [cs] one after the other. *)
Definition processAll (decode : string -> Image + Error)
    (cs : list QueueItem.t) (st : RGBA * option Error) : RGBA * option Error :=
  fold_left (fun st f => processItem decode f (fst st) (snd st)) cs st.

(** The pixel [(px, py)] lies in the part of the canvas bounds [cb] that
    drawing the tile [img] of item [f] writes. *)
Definition covers (f : QueueItem.t) (img : Image) (cb : Rectangle)
    (px py : Z) : bool :=
  PtIn px py (tileRect f img) && PtIn px py cb
  && PtIn px py (Add (Bounds img) (Min (tileRect f img))).

(** The tile pixel that lands on [(px, py)]. *)
Definition tilePixel (f : QueueItem.t) (img : Image) (px py : Z) : Color :=
  At img (px - X (Min (tileRect f img))) (py - Y (Min (tileRect f img))).

(** What holds of the pool at every moment of a run that started from
    the queue [q0] and the canvas [dst0]: each item is in the queue, with
    a worker, or among the calls made; the canvas and the error slot are
    what the loop body gives for the calls made, in their order; and once
    a worker has left, the queue is empty. *)
Definition PoolInv (decode : string -> Image + Error)
    (q0 : list QueueItem.t) (dst0 : RGBA) (p : Pool) : Prop :=
  Permutation (calls p ++ held (workers p) ++ queue p) q0 /\
  (dstImg p, processError p) = processAll decode (calls p) (dst0, None) /\
  (In Exited (workers p) -> queue p = []).

(** Inside the canvas bounds [cb], no pixel is written by the tiles of
    two different items of [q]. *)
Definition DisjointTiles (decode : string -> Image + Error)
    (q : list QueueItem.t) (cb : Rectangle) : Prop :=
  forall f f' img img' px py,
    In f q -> In f' q ->
    decode (QueueItem.hevcFile f) = inl img ->
    decode (QueueItem.hevcFile f') = inl img' ->
    covers f img cb px py = true -> covers f' img' cb px py = true ->
    f = f'.

(** Every file decodes to a tile of [w] by [h] pixels with its origin at
    [(0, 0)], as [png.Decode] gives it. *)
Definition UniformTiles (decode : string -> Image + Error)
    (files : list string) (w h : Z) : Prop :=
  forall f, In f files ->
    exists img, decode f = inl img /\
                Bounds img = mkRectangle (mkPoint 0 0) (mkPoint w h).

(** The queue as the specification describes it: the item at index [i]
    has column [i mod cols] and row [i div cols]. *)
Definition specJobs (cols : Z) (files : list string) : list QueueItem.t :=
  imap (fun i f => QueueItem.mk f (Z.of_nat i mod cols) (Z.of_nat i / cols))
       files.

(** ** Sample runs *)

Definition red : Color := mkColor xff x00 x00 xff.
Definition blue : Color := mkColor x00 x00 xff xff.
Definition green : Color := mkColor x00 xff x00 xff.

(** A tile of one colour, [w] by [h] pixels. *)
Definition solid (w h : Z) (c : Color) : Image :=
  mkImage (mkRectangle (mkPoint 0 0) (mkPoint w h)) (fun _ _ => c).

(** A tile of [w] by [h] pixels whose pixels differ from each other and
    from those of the tiles with another [tag]. *)
Definition numbered (w h : Z) (tag : byte) : Image :=
  mkImage (mkRectangle (mkPoint 0 0) (mkPoint w h))
          (fun x y => mkColor tag
                        (default x00 (Byte.of_N (Z.to_N x)))
                        (default x00 (Byte.of_N (Z.to_N y))) xff).

Definition rawBytes (img : RGBA) : list byte :=
  flat_map (fun c => [cR c; cG c; cB c; cA c]) (Pix img).

Fixpoint findTile (tiles : list (string * option Image)) (name : string)
  : option Image :=
  match tiles with
  | [] => None
  | (n, t) :: rest => if String.eqb n name then t else findTile rest name
  end.

(** A world in which the info tool prints [infoText], the extraction
    leaves the files named in [tiles], each decoding to the tile next to
    its name ([None]: the decoder fails on it), the destination can be
    created and both encoders write the raw pixels. *)
Definition sampleWorld (infoText : string)
    (tiles : list (string * option Image)) (dstFile : string)
    (nthreads : Z) (sched : list nat) : World :=
  mkWorld (mkArgv false false 0 90 nthreads)
          ["src.heic"%string; dstFile]
          (fun _ => RunOK (B infoText))
          (fun _ _ => true)
          (fun _ => map fst tiles)
          (fun f => RunOK (B f))
          (fun out => findTile tiles (string_of_list_byte out))
          sched
          (fun img _ => img)
          (fun _ => true)
          (fun _ img => (rawBytes img, true))
          (fun _ img => (rawBytes img, true)).

Definition sampleDecode (tiles : list (string * option Image))
  : string -> Image + Error :=
  hevc2Image (fun f => RunOK (B f))
             (fun out => findTile tiles (string_of_list_byte out)).

(** Four workers that all receive, then run the loop body in the
    opposite order, [rounds] times over. *)
Definition crossed (rounds : nat) : list nat :=
  concat (repeat [0; 1; 2; 3; 3; 2; 1; 0]%nat rounds).

Definition twoByOne : list (string * option Image) :=
  [("t0"%string, Some (solid 2 2 red)); ("t1"%string, Some (solid 2 2 blue))].

Definition threeByThree : list (string * option Image) :=
  [("t0"%string, Some (numbered 2 2 x00)); ("t1"%string, Some (numbered 2 2 x01));
   ("t2"%string, Some (numbered 2 2 x02)); ("t3"%string, Some (numbered 2 2 x03));
   ("t4"%string, Some (numbered 2 2 x04)); ("t5"%string, Some (numbered 2 2 x05));
   ("t6"%string, Some (numbered 2 2 x06)); ("t7"%string, Some (numbered 2 2 x07));
   ("t8"%string, Some (numbered 2 2 x08))].

Definition info3x3 : HeifInfo := mkHeifInfo 6 6 0 9 3 3.

Definition files2x1 : list string := ["t0"%string; "t1"%string].
Definition info2x1 : HeifInfo := mkHeifInfo 4 2 0 2 1 2.

(** Two tiles of different sizes in a grid of two columns: the second
    lands on the right half of the first. *)
Definition clashTiles : list (string * option Image) :=
  [("t0"%string, Some (solid 2 1 red)); ("t1"%string, Some (solid 1 1 blue))].
Definition clashInfo : HeifInfo := mkHeifInfo 2 1 0 2 1 2.
Definition clashQueue : list QueueItem.t :=
  [QueueItem.mk "t0" 0 0; QueueItem.mk "t1" 1 0].
Definition clashCanvas : RGBA := NewRGBA (Rect 0 0 2 1).

(** Three tiles, the decoder fails on the second. *)
Definition brokenTiles : list (string * option Image) :=
  [("t0"%string, Some (solid 1 1 red)); ("t1"%string, None);
   ("t2"%string, Some (solid 1 1 green))].
Definition brokenQueue : list QueueItem.t :=
  [QueueItem.mk "t0" 0 0; QueueItem.mk "t1" 1 0; QueueItem.mk "t2" 2 0].

(** A sample world with another rotation primitive. *)
Definition withRotate (rot : RGBA -> Z -> RGBA) (w : World) : World :=
  mkWorld (argv w) (args w) (runInfo w) (runExtract w) (globTmp w)
          (ffmpeg w) (pngDecode w) (schedule w) rot (osCreate w)
          (pngEncode w) (jpegEncode w).

(** No byte of [s] is a dot or a slash. *)
Fixpoint noSep (s : string) : bool :=
  match s with
  | EmptyString => true
  | String c rest =>
      negb (Ascii.eqb c Filepath.slash) && negb (Ascii.eqb c Filepath.dot)
      && noSep rest
  end.

(** ** Predicates on the lines of the info text *)

Inductive Field : Type :=
| FWidth | FHeight | FRotation | FTiles | FRows | FCols.

Definition getField (f : Field) (info : HeifInfo) : Z :=
  match f with
  | FWidth => Width info
  | FHeight => Height info
  | FRotation => Rotation info
  | FTiles => Tiles info
  | FRows => Rows info
  | FCols => Cols info
  end.

Definition setField (f : Field) (v : Z) (info : HeifInfo) : HeifInfo :=
  match f with
  | FWidth => mkHeifInfo v (Height info) (Rotation info) (Tiles info) (Rows info) (Cols info)
  | FHeight => mkHeifInfo (Width info) v (Rotation info) (Tiles info) (Rows info) (Cols info)
  | FRotation => mkHeifInfo (Width info) (Height info) v (Tiles info) (Rows info) (Cols info)
  | FTiles => mkHeifInfo (Width info) (Height info) (Rotation info) v (Rows info) (Cols info)
  | FRows => mkHeifInfo (Width info) (Height info) (Rotation info) (Tiles info) v (Cols info)
  | FCols => mkHeifInfo (Width info) (Height info) (Rotation info) (Tiles info) (Rows info) v
  end.

(** The field that a name selects in the chain of [bytes.Equal] tests. *)
Definition fieldOfName (name : list byte) : option Field :=
  if GoBytes.Equal name (B "width") then Some FWidth
  else if GoBytes.Equal name (B "height") then Some FHeight
  else if GoBytes.Equal name (B "rotation") then Some FRotation
  else if GoBytes.Equal name (B "tiles") then Some FTiles
  else if GoBytes.Equal name (B "rows") then Some FRows
  else if GoBytes.Equal name (B "cols") then Some FCols
  else None.

(** The assignment that a line makes, if any. *)
Definition assigns (line : list byte) : option (Field * Z) :=
  match splitInt line with
  | None => None
  | Some (name, val) =>
      match fieldOfName name with
      | Some f => Some (f, val)
      | None => None
      end
  end.

(** A line without [=], a line whose value is not accepted by
    [ParseInt], or a line whose name is not one of the six. *)
Definition Skipped (line : list byte) : Prop :=
  GoBytes.IndexByte line GoBytes.eqsign = None \/
  exists pos,
    GoBytes.IndexByte line GoBytes.eqsign = Some pos /\
    (Strconv.ParseInt32 (GoBytes.TrimSpace (drop (S pos) line)) = None \/
     fieldOfName (take pos line) = None).

(** [l] ends with its only line feed: it is what one [ReadBytes('\n')]
    returns without error. *)
Definition isLine (l : list byte) : bool :=
  match GoBytes.IndexByte l GoBytes.nl with
  | Some i => (S i =? length l)%nat
  | None => false
  end.

(** No two lines give different values to the same field. *)
Definition NoConflict (ls : list (list byte)) : Prop :=
  forall l1 l2 f v1 v2,
    In l1 ls -> In l2 ls ->
    assigns l1 = Some (f, v1) -> assigns l2 = Some (f, v2) -> v1 = v2.

(** ** Further predicates and sample data *)

(** The name that selects a field. *)
Definition fieldName (f : Field) : string :=
  match f with
  | FWidth => "width"
  | FHeight => "height"
  | FRotation => "rotation"
  | FTiles => "tiles"
  | FRows => "rows"
  | FCols => "cols"
  end.

(** The world [w] with another order of the goroutines. *)
Definition withSchedule (sched : list nat) (w : World) : World :=
  mkWorld (argv w) (args w) (runInfo w) (runExtract w) (globTmp w)
          (ffmpeg w) (pngDecode w) sched (Rotate w) (osCreate w)
          (pngEncode w) (jpegEncode w).

(** Worlds in which the info tool, or the extraction, fails; the
    extraction has left one file. *)
Definition infoFailWorld : World :=
  mkWorld (mkArgv false false 0 90 1) ["a.heic"%string; "a.png"%string]
          (fun _ => RunFailed (B "no such file")) (fun _ _ => true)
          (fun _ => ["a.png.7.tmp0"%string]) (fun f => RunOK (B f))
          (fun _ => None) [] (fun img _ => img) (fun _ => true)
          (fun _ img => (rawBytes img, true))
          (fun _ img => (rawBytes img, true)).

Definition extractFailWorld : World :=
  mkWorld (mkArgv false false 0 90 1) ["a.heic"%string; "a.png"%string]
          (fun _ => RunOK (B "")) (fun _ _ => false)
          (fun _ => ["a.png.7.tmp0"%string]) (fun f => RunOK (B f))
          (fun _ => None) [] (fun img _ => img) (fun _ => true)
          (fun _ img => (rawBytes img, true))
          (fun _ img => (rawBytes img, true)).

(** A visible ASCII character: neither white space nor part of a
    multi-byte rune. *)
Definition visible (b : byte) : bool :=
  let n := Byte.to_N b in ((33 <=? n) && (n <=? 126))%N.

(** What the loop body adds to the canvas for one item, taken by itself:
    the tile, when the item's file decodes, whatever happened to the items
    before it. *)
Definition drawDecoded (decode : string -> Image + Error) (dst : RGBA)
    (f : QueueItem.t) : RGBA :=
  match decode (QueueItem.hevcFile f) with
  | inl img => Draw dst (tileRect f img) img (mkPoint 0 0)
  | inr _ => dst
  end.

(** Two characters that are the same, or the capital and the small form
    of one ASCII letter. *)
Definition isUpperAscii (c : ascii) : bool :=
  let n := N_of_ascii c in ((65 <=? n) && (n <=? 90))%N.

Definition sameLetter (a b : ascii) : bool :=
  Ascii.eqb a b
  || (isUpperAscii a && (N_of_ascii a + 32 =? N_of_ascii b)%N)
  || (isUpperAscii b && (N_of_ascii b + 32 =? N_of_ascii a)%N).

(** [s] is [t] up to the case of its ASCII letters. *)
Fixpoint caseVariant (s t : string) : bool :=
  match s, t with
  | EmptyString, EmptyString => true
  | String a s', String b t' => sameLetter a b && caseVariant s' t'
  | _, _ => false
  end.

(** A text that reports one tile with a grid of 7 rows and 2 columns,
    and an extraction that left two files of one pixel each. *)
Definition oneTileWorld : World :=
  sampleWorld "width=1
height=2
tiles=1
rows=7
cols=2
" [("t0"%string, Some (solid 1 1 red)); ("t1"%string, Some (solid 1 1 blue))]
    "out.png" 1 [0; 0; 0; 0; 0]%nat.

(** The decimal numeral of an integer, as a tool prints it: a minus sign
    for a negative one, then the digits without leading zero. *)
Definition digitByte (d : Z) : byte :=
  match d with
  | 0 => "0" | 1 => "1" | 2 => "2" | 3 => "3" | 4 => "4"
  | 5 => "5" | 6 => "6" | 7 => "7" | 8 => "8" | _ => "9"
  end%byte.

Fixpoint decimalDigits (fuel : nat) (n : Z) : list byte :=
  match fuel with
  | O => []
  | S k =>
      if n <? 10 then [digitByte n]
      else decimalDigits k (n / 10) ++ [digitByte (n mod 10)]
  end.

Definition decimal (n : Z) : list byte :=
  if n <? 0 then "-"%byte :: decimalDigits (S (Z.to_nat (Z.log2 (- n)))) (- n)
  else decimalDigits (S (Z.to_nat (Z.log2 n))) n.

(** Four tiles in a row; the decoder fails on the first and on the
    third. *)
Definition twoFailTiles : list (string * option Image) :=
  [("t0"%string, None); ("t1"%string, Some (solid 1 1 red));
   ("t2"%string, None); ("t3"%string, Some (solid 1 1 green))].
Definition twoFailQueue : list QueueItem.t :=
  [QueueItem.mk "t0" 0 0; QueueItem.mk "t1" 1 0; QueueItem.mk "t2" 2 0;
   QueueItem.mk "t3" 3 0].

(** * Properties *)

(** ** Pixels of an [RGBA] *)

Lemma PtIn_true x y r :
  PtIn x y r = true <->
  X (Min r) <= x < X (Max r) /\ Y (Min r) <= y < Y (Max r).
Proof.
  unfold PtIn. rewrite !andb_true_iff, !Z.leb_le, !Z.ltb_lt. lia.
Qed.

Lemma PtIn_false x y r :
  PtIn x y r = false <->
  ~ (X (Min r) <= x < X (Max r) /\ Y (Min r) <= y < Y (Max r)).
Proof.
  rewrite <- PtIn_true. destruct (PtIn x y r); split; intros; congruence.
Qed.

Lemma PtIn_Intersect x y r s :
  PtIn x y (Intersect r s) = PtIn x y r && PtIn x y s.
Proof.
  unfold Intersect.
  set (r' := mkRectangle _ _).
  assert (Hr' : PtIn x y r' = PtIn x y r && PtIn x y s).
  { apply eq_true_iff_eq. rewrite andb_true_iff, !PtIn_true. subst r'. simpl. lia. }
  destruct (Empty r') eqn:He; [|exact Hr'].
  rewrite <- Hr'.
  assert (PtIn x y r' = false) as ->.
  { apply PtIn_false. unfold Empty in He.
    apply orb_true_iff in He. rewrite !Z.leb_le in He. lia. }
  apply PtIn_false. simpl. lia.
Qed.

Lemma wf_NewRGBA r :
  0 <= Dx r -> 0 <= Dy r -> wfRGBA (NewRGBA r).
Proof.
  intros Hx Hy. unfold wfRGBA, NewRGBA. simpl.
  rewrite length_replicate. auto.
Qed.

Lemma Rect_bounds x0 y0 x1 y1 :
  0 <= Dx (Rect x0 y0 x1 y1) /\ 0 <= Dy (Rect x0 y0 x1 y1).
Proof.
  unfold Rect, Dx, Dy.
  destruct (x1 <? x0) eqn:Ex; destruct (y1 <? y0) eqn:Ey; simpl;
    rewrite ?Z.ltb_lt, ?Z.ltb_ge in *; lia.
Qed.

Lemma PixOffset_range img x y :
  wfRGBA img -> PtIn x y (RGBARect img) = true ->
  0 <= PixOffset img x y < Dx (RGBARect img) * Dy (RGBARect img).
Proof.
  intros (Hs & Hx & Hy & _) Hin. apply PtIn_true in Hin.
  unfold PixOffset. rewrite Hs. unfold Dx, Dy in *. nia.
Qed.

Lemma PixOffset_inj img x y x' y' :
  wfRGBA img ->
  PtIn x y (RGBARect img) = true -> PtIn x' y' (RGBARect img) = true ->
  PixOffset img x y = PixOffset img x' y' -> x = x' /\ y = y'.
Proof.
  intros (Hs & Hx & Hy & _) H1 H2. apply PtIn_true in H1, H2.
  unfold PixOffset. rewrite Hs. unfold Dx, Dy in *. intros He.
  assert (y = y') by nia. subst y'. lia.
Qed.

Lemma wf_RGBASet img x y c : wfRGBA img -> wfRGBA (RGBASet img x y c).
Proof.
  unfold RGBASet. destruct (PtIn x y (RGBARect img)); [|auto].
  unfold wfRGBA. simpl. rewrite length_insert. auto.
Qed.

Lemma Rect_RGBASet img x y c : RGBARect (RGBASet img x y c) = RGBARect img.
Proof. unfold RGBASet. destruct (PtIn x y (RGBARect img)); reflexivity. Qed.

Lemma At_RGBASet_same img x y c :
  wfRGBA img -> PtIn x y (RGBARect img) = true ->
  RGBAAt (RGBASet img x y c) x y = c.
Proof.
  intros Hwf Hin. unfold RGBAAt, RGBASet. rewrite Hin. simpl. rewrite Hin.
  unfold PixOffset at 1. simpl. fold (PixOffset img x y).
  pose proof (PixOffset_range img x y Hwf Hin) as Hr.
  destruct Hwf as (_ & _ & _ & Hlen).
  rewrite list_lookup_insert_eq; [reflexivity|]. rewrite Hlen. lia.
Qed.

Lemma At_RGBASet_other img x y c x' y' :
  wfRGBA img -> (x, y) <> (x', y') ->
  RGBAAt (RGBASet img x y c) x' y' = RGBAAt img x' y'.
Proof.
  intros Hwf Hne. unfold RGBASet.
  destruct (PtIn x y (RGBARect img)) eqn:Hin; [|reflexivity].
  unfold RGBAAt. simpl.
  destruct (PtIn x' y' (RGBARect img)) eqn:Hin'; [|reflexivity].
  unfold PixOffset at 1. simpl. fold (PixOffset img x' y').
  rewrite list_lookup_insert_ne; [reflexivity|].
  pose proof (PixOffset_range img x y Hwf Hin).
  pose proof (PixOffset_range img x' y' Hwf Hin').
  intros He. apply Z2Nat.inj in He; try lia.
  apply PixOffset_inj in He; auto. destruct He; congruence.
Qed.

Lemma At_RGBASet img x y c x' y' :
  wfRGBA img ->
  RGBAAt (RGBASet img x y c) x' y' =
  if (x' =? x) && (y' =? y) && PtIn x' y' (RGBARect img) then c
  else RGBAAt img x' y'.
Proof.
  intros Hwf.
  destruct (x' =? x) eqn:Ex; destruct (y' =? y) eqn:Ey; simpl;
    rewrite ?Z.eqb_eq, ?Z.eqb_neq in *;
    try (apply At_RGBASet_other; [assumption | congruence]).
  subst x' y'. destruct (PtIn x y (RGBARect img)) eqn:Hin.
  - apply At_RGBASet_same; assumption.
  - unfold RGBASet. rewrite Hin. reflexivity.
Qed.

Section Loops.

Variable g : Z -> Z -> Color.

(** The inner loop of [Draw] on row [y], and both loops. *)
Let row (xs : list Z) (y : Z) (d : RGBA) : RGBA :=
  fold_left (fun d x => RGBASet d x y (g x y)) xs d.
Let rows (xs ys : list Z) (d : RGBA) : RGBA :=
  fold_left (fun d y => row xs y d) ys d.

Lemma row_keeps xs y d :
  wfRGBA d -> wfRGBA (row xs y d) /\ RGBARect (row xs y d) = RGBARect d.
Proof.
  revert d. induction xs as [|x xs IH]; intros d Hwf; simpl; [auto|].
  destruct (IH (RGBASet d x y (g x y))) as [H1 H2].
  - apply wf_RGBASet, Hwf.
  - split; [exact H1|]. rewrite H2. apply Rect_RGBASet.
Qed.

Lemma rows_keeps xs ys d :
  wfRGBA d -> wfRGBA (rows xs ys d) /\ RGBARect (rows xs ys d) = RGBARect d.
Proof.
  revert d. induction ys as [|y ys IH]; intros d Hwf; simpl; [auto|].
  destruct (row_keeps xs y d Hwf) as [H1 H2].
  destruct (IH (row xs y d) H1) as [H3 H4].
  split; [exact H3|]. rewrite H4. exact H2.
Qed.

Lemma At_row xs y d x' y' :
  wfRGBA d ->
  RGBAAt (row xs y d) x' y' =
  if existsb (Z.eqb x') xs && (y' =? y) && PtIn x' y' (RGBARect d)
  then g x' y' else RGBAAt d x' y'.
Proof.
  revert d. induction xs as [|x xs IH]; intros d Hwf; simpl; [reflexivity|].
  fold (row xs y (RGBASet d x y (g x y))).
  rewrite IH by (apply wf_RGBASet, Hwf).
  rewrite Rect_RGBASet, At_RGBASet by exact Hwf.
  destruct (existsb (Z.eqb x') xs); destruct (x' =? x) eqn:Ex;
    destruct (y' =? y) eqn:Ey; destruct (PtIn x' y' (RGBARect d));
    simpl; try reflexivity.
  apply Z.eqb_eq in Ex, Ey. subst. reflexivity.
Qed.

Lemma At_rows xs ys d x' y' :
  wfRGBA d ->
  RGBAAt (rows xs ys d) x' y' =
  if existsb (Z.eqb x') xs && existsb (Z.eqb y') ys
     && PtIn x' y' (RGBARect d)
  then g x' y' else RGBAAt d x' y'.
Proof.
  revert d. induction ys as [|y ys IH]; intros d Hwf; simpl.
  - rewrite andb_false_r. reflexivity.
  - fold (rows xs ys (row xs y d)).
    destruct (row_keeps xs y d Hwf) as [H1 H2].
    rewrite IH by exact H1. rewrite H2, At_row by exact Hwf.
    destruct (existsb (Z.eqb x') xs); destruct (y' =? y);
      destruct (existsb (Z.eqb y') ys); destruct (PtIn x' y' (RGBARect d));
      reflexivity.
Qed.

End Loops.

Lemma existsb_span v lo hi :
  existsb (Z.eqb v) (span lo hi) = (lo <=? v) && (v <? hi).
Proof.
  apply eq_true_iff_eq.
  rewrite existsb_exists, andb_true_iff, Z.leb_le, Z.ltb_lt.
  unfold span. split.
  - intros (z & Hin & He). apply Z.eqb_eq in He. subst z.
    apply in_map_iff in Hin. destruct Hin as (k & Hk & Hin).
    apply in_seq in Hin. lia.
  - intros Hv. exists v. split; [|apply Z.eqb_refl].
    apply in_map_iff. exists (Z.to_nat (v - lo)). split; [lia|].
    apply in_seq. lia.
Qed.

(** What [draw.Draw] leaves at a pixel: inside the clipped rectangle the
    source pixel that [sp] and [r.Min] align with it, elsewhere what was
    there. *)
Lemma At_Draw dst r src sp x y :
  wfRGBA dst ->
  RGBAAt (Draw dst r src sp) x y =
  if PtIn x y r && PtIn x y (RGBARect dst)
     && PtIn x y (Add (Bounds src)
                      (mkPoint (X (Min r) - X sp) (Y (Min r) - Y sp)))
  then At src (X sp + (x - X (Min r))) (Y sp + (y - Y (Min r)))
  else RGBAAt dst x y.
Proof.
  intros Hwf. unfold Draw, clip.
  set (r' := Intersect (Intersect r (RGBARect dst)) _).
  assert (Hin : PtIn x y r' =
                PtIn x y r && PtIn x y (RGBARect dst)
                && PtIn x y (Add (Bounds src)
                      (mkPoint (X (Min r) - X sp) (Y (Min r) - Y sp)))).
  { subst r'. rewrite !PtIn_Intersect. reflexivity. }
  rewrite <- Hin.
  destruct (Empty r') eqn:He.
  - assert (PtIn x y r' = false) as ->; [|reflexivity].
    apply PtIn_false. unfold Empty in He. apply orb_true_iff in He.
    rewrite !Z.leb_le in He. lia.
  - rewrite (At_rows
      (fun x y => At src (X sp + (X (Min r') - X (Min r)) + (x - X (Min r')))
                         (Y sp + (Y (Min r') - Y (Min r)) + (y - Y (Min r')))))
      by exact Hwf.
    rewrite !existsb_span.
    assert (Hsub : PtIn x y r' = true -> PtIn x y (RGBARect dst) = true).
    { rewrite Hin. intros H. apply andb_true_iff in H. destruct H as [H _].
      apply andb_true_iff in H. tauto. }
    destruct (PtIn x y r') eqn:Hr'.
    + rewrite (Hsub eq_refl). apply PtIn_true in Hr'.
      assert (Hb : (X (Min r') <=? x) && (x <? X (Max r')) = true).
      { apply andb_true_iff. rewrite Z.leb_le, Z.ltb_lt. lia. }
      assert (Hc : (Y (Min r') <=? y) && (y <? Y (Max r')) = true).
      { apply andb_true_iff. rewrite Z.leb_le, Z.ltb_lt. lia. }
      rewrite Hb, Hc. simpl. f_equal; lia.
    + assert (Hb : (X (Min r') <=? x) && (x <? X (Max r'))
                   && ((Y (Min r') <=? y) && (y <? Y (Max r'))) = false).
      { apply PtIn_false in Hr'. apply not_true_is_false. intros H.
        rewrite !andb_true_iff, !Z.leb_le, !Z.ltb_lt in H. lia. }
      rewrite Hb. reflexivity.
Qed.

Lemma Draw_keeps dst r src sp :
  wfRGBA dst ->
  wfRGBA (Draw dst r src sp) /\ RGBARect (Draw dst r src sp) = RGBARect dst.
Proof.
  intros Hwf. unfold Draw.
  destruct (clip (RGBARect dst) r (Bounds src) sp) as [r' sp'].
  destruct (Empty r'); [auto|].
  apply (rows_keeps
           (fun x y => At src (X sp' + (x - X (Min r')))
                              (Y sp' + (y - Y (Min r'))))).
  exact Hwf.
Qed.

(** Two canvases over the same rectangle with the same pixels are the
    same value. *)
Lemma RGBA_ext a b :
  wfRGBA a -> wfRGBA b -> RGBARect a = RGBARect b ->
  (forall x y, RGBAAt a x y = RGBAAt b x y) -> a = b.
Proof.
  intros Ha Hb Hr Hat.
  destruct a as [pa sa ra], b as [pb sb rb]. simpl in Hr. subst rb.
  destruct Ha as (Hsa & Hx & Hy & Hla).
  destruct Hb as (Hsb & _ & _ & Hlb). simpl in *.
  subst sa sb. f_equal.
  apply list_eq. intros i.
  destruct (decide (i < length pa)%nat) as [Hlt|Hge].
  2:{ rewrite !lookup_ge_None_2 by lia. reflexivity. }
  assert (HW : 0 < Dx ra) by (rewrite Hla in Hlt; nia).
  pose proof (Z.mod_pos_bound (Z.of_nat i) (Dx ra) HW) as Hm.
  pose proof (Z.div_mod (Z.of_nat i) (Dx ra) ltac:(lia)) as Hdm.
  assert (Hdiv : 0 <= Z.of_nat i / Dx ra < Dy ra).
  { split; [apply Z.div_pos; lia|].
    apply Z.div_lt_upper_bound; [lia|]. rewrite Hla in Hlt. lia. }
  specialize (Hat (X (Min ra) + Z.of_nat i mod Dx ra)
                  (Y (Min ra) + Z.of_nat i / Dx ra)).
  unfold RGBAAt, PixOffset in Hat. simpl in Hat.
  assert (Hin : PtIn (X (Min ra) + Z.of_nat i mod Dx ra)
                     (Y (Min ra) + Z.of_nat i / Dx ra) ra = true).
  { apply PtIn_true. unfold Dx, Dy in *. lia. }
  rewrite Hin in Hat.
  replace ((Y (Min ra) + Z.of_nat i / Dx ra - Y (Min ra)) * Dx ra
           + (X (Min ra) + Z.of_nat i mod Dx ra - X (Min ra)))
    with (Z.of_nat i) in Hat by lia.
  rewrite Nat2Z.id in Hat.
  destruct (lookup_lt_is_Some_2 pa i Hlt) as [ca Hca].
  destruct (lookup_lt_is_Some_2 pb i ltac:(lia)) as [cb Hcb].
  rewrite Hca, Hcb in Hat. simpl in Hat. rewrite Hca, Hcb. congruence.
Qed.

(** ** The worker pool *)

Lemma held_insert ws w old new :
  ws !! w = Some old ->
  Permutation (held [new] ++ held ws) (held [old] ++ held (<[w := new]> ws)).
Proof.
  revert w. induction ws as [|a ws IH]; intros w Hw; [discriminate|].
  destruct w as [|w]; simpl in Hw.
  - injection Hw as ->. simpl. rewrite !app_nil_r.
    rewrite !app_assoc. apply Permutation_app_tail, Permutation_app_comm.
  - specialize (IH w Hw). simpl in *. rewrite !app_nil_r in *.
    rewrite !app_assoc.
    rewrite (Permutation_app_comm (match new with Holding f => [f] | _ => [] end)).
    rewrite (Permutation_app_comm (match old with Holding f => [f] | _ => [] end)).
    rewrite <- !app_assoc. apply Permutation_app_head, IH.
Qed.

Lemma In_insert_inv (ws : list Worker) w new a :
  In a (<[w := new]> ws) -> a = new \/ In a ws.
Proof.
  revert w. induction ws as [|b ws IH]; intros w; simpl; [tauto|].
  destruct w as [|w]; simpl.
  - intros [<-|H]; auto.
  - intros [<-|H]; auto. destruct (IH w H); auto.
Qed.

Lemma processAll_snoc decode cs f st :
  processAll decode (cs ++ [f]) st =
  processItem decode f (fst (processAll decode cs st))
                       (snd (processAll decode cs st)).
Proof. unfold processAll. rewrite fold_left_app. reflexivity. Qed.

Lemma step_inv decode q0 dst0 p w :
  PoolInv decode q0 dst0 p -> PoolInv decode q0 dst0 (step decode p w).
Proof.
  intros (Hperm & Hst & Hex). unfold step.
  destruct (workers p !! w) as [[|f|]|] eqn:Hw;
    [| | split; [|split]; assumption ..].
  - (* a receive *)
    destruct (queue p) as [|f q] eqn:Hq.
    + split; [|split]; simpl; auto.
      pose proof (held_insert (workers p) w Receiving Exited Hw) as Hh.
      simpl in Hh. rewrite <- Hh. rewrite app_nil_r in Hperm. rewrite app_nil_r.
      exact Hperm.
    + split; [|split]; simpl; auto.
      * pose proof (held_insert (workers p) w Receiving (Holding f) Hw) as Hh.
        simpl in Hh. rewrite <- Hh. rewrite <- Hperm.
        apply Permutation_app_head. simpl.
        apply Permutation_middle.
      * intros Hin. apply In_insert_inv in Hin. destruct Hin as [Hin|Hin];
          [discriminate|]. specialize (Hex Hin). discriminate.
  - (* the loop body *)
    destruct (processItem decode f (dstImg p) (processError p))
      as [dst perr] eqn:Hpi.
    split; [|split]; simpl.
    + pose proof (held_insert (workers p) w (Holding f) Receiving Hw) as Hh.
      simpl in Hh. rewrite <- Hperm, Hh, <- !app_assoc. reflexivity.
    + rewrite processAll_snoc, <- Hst. simpl. symmetry. exact Hpi.
    + intros Hin. apply In_insert_inv in Hin. destruct Hin as [Hin|Hin];
        [discriminate|]. exact (Hex Hin).
Qed.

Lemma run_inv decode q0 dst0 sched p :
  PoolInv decode q0 dst0 p -> PoolInv decode q0 dst0 (runPool decode sched p).
Proof.
  revert p. induction sched as [|w sched IH]; intros p Hp; [exact Hp|].
  simpl. apply IH, step_inv, Hp.
Qed.

Lemma start_inv decode threads q dst :
  PoolInv decode q dst (startPool threads q dst).
Proof.
  unfold startPool. split; [|split]; simpl.
  - assert (held (replicate (Z.to_nat threads) Receiving) = []) as ->;
      [|reflexivity].
    induction (Z.to_nat threads); simpl; auto.
  - reflexivity.
  - intros Hin. apply list_elem_of_In, elem_of_replicate in Hin.
    destruct Hin; discriminate.
Qed.

Lemma step_workers_length decode p w :
  length (workers (step decode p w)) = length (workers p).
Proof.
  unfold step. destruct (workers p !! w) as [[|f|]|]; try reflexivity.
  - destruct (queue p); simpl; apply length_insert.
  - destruct (processItem decode f (dstImg p) (processError p)).
    simpl. apply length_insert.
Qed.

Lemma run_workers_length decode sched p :
  length (workers (runPool decode sched p)) = length (workers p).
Proof.
  revert p. induction sched as [|w sched IH]; intros p; [reflexivity|].
  simpl. fold (runPool decode sched (step decode p w)).
  rewrite IH. apply step_workers_length.
Qed.

Lemma allDone_workers p :
  allDone p = true -> workers p = repeat Exited (length (workers p)).
Proof.
  unfold allDone. induction (workers p) as [|a ws IH]; simpl; [reflexivity|].
  intros H. apply andb_true_iff in H. destruct H as [Ha H].
  destruct a; try discriminate. f_equal. apply IH, H.
Qed.

(** When [wg.Wait] returns from a pool of at least one worker, the loop
    body has run exactly once for each item of the queue, in some order,
    and the canvas and the error slot are the result of these runs. *)
Lemma pool_done decode threads q dst sched :
  1 <= threads ->
  let p := runPool decode sched (startPool threads q dst) in
  allDone p = true ->
  Permutation (calls p) q /\
  (dstImg p, processError p) = processAll decode (calls p) (dst, None).
Proof.
  intros Ht p Hdone.
  destruct (run_inv decode q dst sched _ (start_inv decode threads q dst))
    as (Hperm & Hst & Hex).
  fold p in Hperm, Hst, Hex.
  pose proof (allDone_workers p Hdone) as Hws.
  assert (Hlen : length (workers p) = Z.to_nat threads).
  { subst p. rewrite run_workers_length. simpl. apply length_replicate. }
  rewrite Hlen in Hws.
  destruct (Z.to_nat threads) as [|n] eqn:Hn; [lia|].
  split; [|exact Hst].
  rewrite Hws in Hperm, Hex. rewrite Hex in Hperm by (simpl; auto).
  assert (held (repeat Exited (S n)) = []) as Hh.
  { clear. induction (S n); simpl; auto. }
  rewrite Hh in Hperm. simpl in Hperm. rewrite app_nil_r in Hperm. exact Hperm.
Qed.

(** *** The pool comes to an end *)

Lemma run_app decode s1 s2 p :
  runPool decode (s1 ++ s2) p = runPool decode s2 (runPool decode s1 p).
Proof. unfold runPool. apply fold_left_app. Qed.

Lemma run_idle decode w m p :
  workers p !! w = Some Exited \/ workers p !! w = None ->
  runPool decode (repeat w m) p = p.
Proof.
  intros Hw. induction m as [|m IH]; [reflexivity|].
  simpl. assert (step decode p w = p) as ->; [|exact IH].
  unfold step. destruct Hw as [-> | ->]; reflexivity.
Qed.

(** A worker that is left to run alone empties the queue and leaves. *)
Lemma run_solo decode w k :
  forall p m,
    length (queue p) = k -> workers p !! w = Some Receiving ->
    (2 * k + 1 <= m)%nat ->
    workers (runPool decode (repeat w m) p) = <[w := Exited]> (workers p) /\
    queue (runPool decode (repeat w m) p) = [].
Proof.
  induction k as [|k IH]; intros p m Hlen Hw Hm.
  - destruct m as [|m]; [lia|]. simpl.
    destruct (queue p) eqn:Hq; [|discriminate].
    assert (Hs : step decode p w =
                 mkPool [] (<[w := Exited]> (workers p)) (dstImg p)
                        (processError p) (calls p)).
    { unfold step. rewrite Hw, Hq. reflexivity. }
    rewrite Hs. fold (runPool decode (repeat w m)).
    rewrite run_idle; [simpl; auto|].
    left. simpl. apply list_lookup_insert_eq. apply lookup_lt_Some in Hw. exact Hw.
  - destruct m as [|[|m]]; [lia..|]. simpl.
    destruct (queue p) as [|f q] eqn:Hq; [discriminate|].
    assert (Hlt : (w < length (workers p))%nat) by (eapply lookup_lt_Some, Hw).
    assert (Hs1 : step decode p w =
                  mkPool q (<[w := Holding f]> (workers p)) (dstImg p)
                         (processError p) (calls p)).
    { unfold step. rewrite Hw, Hq. reflexivity. }
    rewrite Hs1.
    set (p1 := mkPool q _ _ _ _).
    assert (Hw1 : workers p1 !! w = Some (Holding f)).
    { simpl. apply list_lookup_insert_eq, Hlt. }
    destruct (processItem decode f (dstImg p1) (processError p1))
      as [dst perr] eqn:Hpi.
    assert (Hs2 : step decode p1 w =
                  mkPool q (workers p) dst perr (calls p ++ [f])).
    { unfold step. rewrite Hw1, Hpi. simpl. f_equal.
      rewrite list_insert_insert_eq. apply list_insert_id, Hw. }
    rewrite Hs2. fold (runPool decode (repeat w m)).
    apply (IH (mkPool q (workers p) dst perr (calls p ++ [f])) m).
    + simpl in *. lia.
    + exact Hw.
    + lia.
Qed.

Lemma run_drain decode jobs ids :
  forall p,
    (forall w a, workers p !! w = Some a -> a = Receiving \/ a = Exited) ->
    (length (queue p) <= jobs)%nat ->
    forall w a,
      workers (runPool decode
                 (flat_map (fun w => repeat w (2 * jobs + 1)) ids) p) !! w
      = Some a ->
      a = Exited \/
      (a = Receiving /\ workers p !! w = Some Receiving /\ ~ In w ids).
Proof.
  induction ids as [|i ids IH]; intros p Hws Hq w a Ha.
  - simpl in Ha. destruct (Hws w a Ha) as [->| ->]; auto.
  - simpl in Ha. rewrite run_app in Ha.
    set (p1 := runPool decode (repeat i (2 * jobs + 1)) p) in *.
    assert (H1 : (workers p1 = workers p /\ queue p1 = queue p /\
                  workers p !! i <> Some Receiving) \/
                 (workers p1 = <[i := Exited]> (workers p) /\ queue p1 = [] /\
                  workers p !! i = Some Receiving)).
    { destruct (workers p !! i) as [b|] eqn:Hi.
      - destruct (Hws i b Hi) as [->| ->].
        + right. destruct (run_solo decode i (length (queue p)) p
                             (2 * jobs + 1) eq_refl Hi ltac:(lia)) as [E1 E2].
          auto.
        + left. subst p1. rewrite run_idle by auto. repeat split. congruence.
      - left. subst p1. rewrite run_idle by auto. repeat split. congruence. }
    assert (Hws1 : forall w a, workers p1 !! w = Some a ->
                               a = Receiving \/ a = Exited).
    { intros w' a' H'. destruct H1 as [(E & _ & _)|(E & _ & _)];
        rewrite E in H'; [eauto|].
      destruct (decide (w' = i)) as [->|Hne].
      - apply list_lookup_insert_Some in H'.
        destruct H' as [(_ & <- & _)|(Hc & _)]; [auto | congruence].
      - rewrite list_lookup_insert_ne in H' by congruence. eauto. }
    assert (Hq1 : (length (queue p1) <= jobs)%nat).
    { destruct H1 as [(_ & E & _)|(_ & E & _)]; rewrite E; simpl; lia. }
    destruct (IH p1 Hws1 Hq1 w a Ha) as [->|(-> & Hr & Hni)]; [auto|].
    right. split; [reflexivity|].
    destruct H1 as [(E & _ & Hi)|(E & _ & Hi)]; rewrite E in Hr.
    + repeat split; [exact Hr|]. intros [<-|Hin]; [congruence | tauto].
    + destruct (decide (w = i)) as [->|Hne].
      * apply list_lookup_insert_Some in Hr.
        destruct Hr as [(_ & Hc & _)|(Hc & _)]; congruence.
      * rewrite list_lookup_insert_ne in Hr by congruence.
        repeat split; [exact Hr|]. intros [<-|Hin]; [congruence | tauto].
Qed.

(** Whatever the number of workers and the queue, a schedule exists
    under which [wg.Wait] returns. *)
Lemma pool_terminates decode threads q dst :
  allDone (runPool decode
             (oneByOne (Z.to_nat threads) (length q))
             (startPool threads q dst)) = true.
Proof.
  unfold allDone, oneByOne.
  set (p := runPool _ _ _).
  apply forallb_forall. intros a Ha.
  apply list_elem_of_In, list_elem_of_lookup in Ha. destruct Ha as [w Hw].
  assert (Hlen : length (workers p) = Z.to_nat threads).
  { subst p. rewrite run_workers_length. simpl. apply length_replicate. }
  pose proof (lookup_lt_Some _ _ _ Hw) as Hlt.
  subst p.
  apply run_drain in Hw.
  - destruct Hw as [->|(_ & _ & Hni)]; [reflexivity|].
    exfalso. apply Hni, in_seq. lia.
  - simpl. intros w' a' H'. apply lookup_replicate in H'. tauto.
  - simpl. lia.
Qed.

(** *** The canvas after the loop body has run for a list of items *)

Section ProcessAll.

Variable decode : string -> Image + Error.

Lemma processItem_keeps f dst perr :
  wfRGBA dst ->
  wfRGBA (fst (processItem decode f dst perr)) /\
  RGBARect (fst (processItem decode f dst perr)) = RGBARect dst.
Proof.
  intros Hwf. unfold processItem.
  destruct (decode (QueueItem.hevcFile f)); simpl; [|auto].
  apply Draw_keeps, Hwf.
Qed.

Lemma processAll_keeps cs st :
  wfRGBA (fst st) ->
  wfRGBA (fst (processAll decode cs st)) /\
  RGBARect (fst (processAll decode cs st)) = RGBARect (fst st).
Proof.
  revert st. induction cs as [|f cs IH]; intros st Hwf; [auto|].
  simpl. fold (processAll decode cs (processItem decode f (fst st) (snd st))).
  destruct (processItem_keeps f (fst st) (snd st) Hwf) as [H1 H2].
  destruct (IH _ H1) as [H3 H4]. split; [exact H3|]. congruence.
Qed.

(** The copy is opaque: inside the part of the canvas that the tile
    covers, the pixel is the tile's, whatever was there before. *)
Lemma At_processItem f dst perr px py :
  wfRGBA dst ->
  RGBAAt (fst (processItem decode f dst perr)) px py =
  match decode (QueueItem.hevcFile f) with
  | inl img =>
      if covers f img (RGBARect dst) px py then tilePixel f img px py
      else RGBAAt dst px py
  | inr _ => RGBAAt dst px py
  end.
Proof.
  intros Hwf. unfold processItem.
  destruct (decode (QueueItem.hevcFile f)) as [img|e]; simpl; [|reflexivity].
  rewrite At_Draw by exact Hwf. unfold covers, tilePixel. simpl.
  rewrite !Z.sub_0_r, !Z.add_0_l. reflexivity.
Qed.

Lemma At_processAll_in cs : forall st f img px py,
  wfRGBA (fst st) ->
  In f cs -> decode (QueueItem.hevcFile f) = inl img ->
  covers f img (RGBARect (fst st)) px py = true ->
  (forall f' img',
      In f' cs -> decode (QueueItem.hevcFile f') = inl img' ->
      covers f' img' (RGBARect (fst st)) px py = true ->
      tilePixel f' img' px py = tilePixel f img px py) ->
  RGBAAt (fst (processAll decode cs st)) px py = tilePixel f img px py.
Proof.
  induction cs as [|g cs IH] using rev_ind; intros st f img px py Hwf Hin Hd Hc Hag;
    [destruct Hin|].
  rewrite processAll_snoc.
  destruct (processAll_keeps cs st Hwf) as [Hwf' Hr'].
  rewrite At_processItem by exact Hwf'. rewrite Hr'.
  destruct (decode (QueueItem.hevcFile g)) as [gimg|e] eqn:Hg.
  - destruct (covers g gimg (RGBARect (fst st)) px py) eqn:Hcg.
    + apply (Hag g gimg); auto. apply in_or_app. right. left. reflexivity.
    + apply in_app_or in Hin. destruct Hin as [Hin|[<-|[]]].
      * apply IH; auto. intros f' img' Hin' Hd' Hc'.
        apply Hag; auto. apply in_or_app. auto.
      * rewrite Hg in Hd. injection Hd as <-. congruence.
  - apply in_app_or in Hin. destruct Hin as [Hin|[<-|[]]]; [|congruence].
    apply IH; auto. intros f' img' Hin' Hd' Hc'.
    apply Hag; auto. apply in_or_app. auto.
Qed.

Lemma At_processAll_out cs : forall st px py,
  wfRGBA (fst st) ->
  (forall f img,
      In f cs -> decode (QueueItem.hevcFile f) = inl img ->
      covers f img (RGBARect (fst st)) px py = false) ->
  RGBAAt (fst (processAll decode cs st)) px py = RGBAAt (fst st) px py.
Proof.
  induction cs as [|g cs IH] using rev_ind; intros st px py Hwf Hout;
    [reflexivity|].
  rewrite processAll_snoc.
  destruct (processAll_keeps cs st Hwf) as [Hwf' Hr'].
  rewrite At_processItem by exact Hwf'. rewrite Hr'.
  assert (HIH : RGBAAt (fst (processAll decode cs st)) px py
                = RGBAAt (fst st) px py).
  { apply IH; auto. intros f img Hin. apply Hout, in_or_app. auto. }
  destruct (decode (QueueItem.hevcFile g)) as [gimg|e] eqn:Hg; [|exact HIH].
  rewrite (Hout g gimg); auto. apply in_or_app. right. left. reflexivity.
Qed.

(** The error slot holds the error of a call that failed, when one
    did, and is left alone otherwise. *)
Lemma processAll_error cs : forall st,
  (exists f e, In f cs /\ decode (QueueItem.hevcFile f) = inr e) ->
  exists f e, In f cs /\ decode (QueueItem.hevcFile f) = inr e /\
              snd (processAll decode cs st) = Some e.
Proof.
  induction cs as [|g cs IH] using rev_ind; intros st (f & e & Hin & Hd);
    [destruct Hin|].
  rewrite processAll_snoc. unfold processItem.
  destruct (decode (QueueItem.hevcFile g)) as [gimg|eg] eqn:Hg; simpl.
  - apply in_app_or in Hin. destruct Hin as [Hin|[<-|[]]]; [|congruence].
    destruct (IH st) as (f' & e' & Hin' & Hd' & Hs'); [eauto|].
    exists f', e'. split; [apply in_or_app; auto|]. auto.
  - exists g, eg. split; [apply in_or_app; right; left; reflexivity|]. auto.
Qed.

Lemma processAll_no_error cs : forall st,
  (forall f, In f cs -> exists img, decode (QueueItem.hevcFile f) = inl img) ->
  snd (processAll decode cs st) = snd st.
Proof.
  induction cs as [|g cs IH] using rev_ind; intros st Hok; [reflexivity|].
  rewrite processAll_snoc. unfold processItem.
  destruct (Hok g) as [img Hg]; [apply in_or_app; right; left; reflexivity|].
  rewrite Hg. simpl. apply IH. intros f Hin. apply Hok, in_or_app. auto.
Qed.

End ProcessAll.

(** ** The job queue *)

Lemma wrap_id z :
  GoInt.minInt <= z <= GoInt.maxInt -> GoInt.wrap z = z.
Proof.
  unfold GoInt.minInt, GoInt.maxInt, GoInt.wrap. intros Hz.
  rewrite Z.mod_small; lia.
Qed.

Lemma enqueue_zero i files :
  files <> [] -> enqueue 0 i files = None.
Proof. destruct files; [congruence|]. reflexivity. Qed.

Lemma enqueue_some cols files : forall i,
  cols <> 0 ->
  exists q, enqueue cols i files = Some q /\
    length q = length files /\
    forall k item,
      q !! k = Some item <->
      exists f, files !! k = Some f /\
        item = QueueItem.mk f
                 (GoInt.wrap (Z.rem (i + Z.of_nat k) cols))
                 (GoInt.wrap (Z.quot (i + Z.of_nat k) cols)).
Proof.
  intros i Hc. revert i.
  induction files as [|f files IH]; intros i; simpl.
  - exists []. split; [reflexivity|]. split; [reflexivity|].
    intros k item. split; [discriminate|]. intros (f & Hf & _). discriminate.
  - unfold GoInt.rem, GoInt.quo.
    destruct (cols =? 0) eqn:E; [apply Z.eqb_eq in E; contradiction|].
    destruct (IH (i + 1)) as (q & -> & Hlen & Hq).
    eexists. split; [reflexivity|]. split; [simpl; congruence|].
    intros [|k] item; simpl.
    + rewrite Z.add_0_r. split.
      * intros [= <-]. eauto.
      * intros (f' & [= <-] & ->). reflexivity.
    + rewrite Hq.
      replace (i + 1 + Z.of_nat k) with (i + Z.pos (Pos.of_succ_nat k)) by lia.
      reflexivity.
Qed.

Section UniformGrid.

Variable decode : string -> Image + Error.
Variables C w h : Z.
Variable files : list string.
Variable q : list QueueItem.t.

Hypothesis HC : 1 <= C.
Hypothesis Hw : 0 < w.
Hypothesis Hh : 0 < h.
Hypothesis Hq : enqueue C 0 files = Some q.
Hypothesis Huni : UniformTiles decode files w h.
Hypothesis Hlen : Z.of_nat (length files) <= GoInt.maxInt.
Hypothesis HfitX : C * w <= GoInt.maxInt.
Hypothesis HfitY :
  forall k, (k < length files)%nat ->
            Z.of_nat k / C * h + h <= GoInt.maxInt.

Lemma grid_lookup k item :
  q !! k = Some item <->
  exists f, files !! k = Some f /\
    item = QueueItem.mk f (Z.of_nat k mod C) (Z.of_nat k / C).
Proof.
  destruct (enqueue_some C files 0 ltac:(lia)) as (q' & Hq' & _ & Hk).
  rewrite Hq in Hq'. injection Hq' as <-.
  rewrite Hk. clear Hk.
  assert (Hin : forall f, files !! k = Some f ->
            GoInt.wrap (Z.rem (0 + Z.of_nat k) C) = Z.of_nat k mod C /\
            GoInt.wrap (Z.quot (0 + Z.of_nat k) C) = Z.of_nat k / C).
  { intros f Hf. pose proof (lookup_lt_Some _ _ _ Hf) as Hlt.
    rewrite Z.add_0_l.
    rewrite Z.rem_mod_nonneg, Z.quot_div_nonneg by lia.
    pose proof (Z.mod_pos_bound (Z.of_nat k) C ltac:(lia)).
    assert (0 <= Z.of_nat k / C <= Z.of_nat k).
    { split; [apply Z.div_pos; lia|]. apply Z.div_le_upper_bound; nia. }
    assert (Z.of_nat k < Z.of_nat (length files)) by lia.
    unfold GoInt.maxInt in Hlen.
    pose proof (Z.mod_le (Z.of_nat k) C ltac:(lia) ltac:(lia)).
    split; apply wrap_id; unfold GoInt.minInt, GoInt.maxInt; lia. }
  split; intros (f & Hf & ->); exists f; (split; [exact Hf|]);
    destruct (Hin f Hf) as [-> ->]; reflexivity.
Qed.

Lemma grid_decodes k item :
  q !! k = Some item ->
  exists img, decode (QueueItem.hevcFile item) = inl img /\
              Bounds img = mkRectangle (mkPoint 0 0) (mkPoint w h).
Proof.
  intros Hk. apply grid_lookup in Hk. destruct Hk as (f & Hf & ->). simpl.
  apply Huni. apply list_elem_of_In, list_elem_of_lookup. eauto.
Qed.

(** The destination rectangle of the item at index [k]. *)
Lemma grid_tileRect k item img :
  q !! k = Some item ->
  Bounds img = mkRectangle (mkPoint 0 0) (mkPoint w h) ->
  tileRect item img =
  mkRectangle
    (mkPoint (Z.of_nat k mod C * w) (Z.of_nat k / C * h))
    (mkPoint (Z.of_nat k mod C * w + w) (Z.of_nat k / C * h + h)).
Proof.
  intros Hk Hb. apply grid_lookup in Hk. destruct Hk as (f & Hf & ->).
  pose proof (lookup_lt_Some _ _ _ Hf) as Hlt.
  pose proof (Z.mod_pos_bound (Z.of_nat k) C ltac:(lia)) as Hm.
  assert (Hd : 0 <= Z.of_nat k / C <= Z.of_nat k).
  { split; [apply Z.div_pos; lia|]. apply Z.div_le_upper_bound; nia. }
  unfold tileRect, GoInt.mul, GoInt.add. rewrite Hb. simpl.
  pose proof (HfitY k Hlt) as HfitYk.
  unfold GoInt.maxInt in *.
  assert (Hx : 0 <= Z.of_nat k mod C * w /\
               Z.of_nat k mod C * w + w <= 2 ^ 63 - 1) by nia.
  assert (Hy : 0 <= Z.of_nat k / C * h /\
               Z.of_nat k / C * h + h <= 2 ^ 63 - 1) by nia.
  rewrite (wrap_id (Z.of_nat k mod C * w))
    by (unfold GoInt.minInt, GoInt.maxInt; lia).
  rewrite (wrap_id (Z.of_nat k / C * h))
    by (unfold GoInt.minInt, GoInt.maxInt; lia).
  rewrite !wrap_id by (unfold GoInt.minInt, GoInt.maxInt; lia).
  f_equal; f_equal; lia.
Qed.

Lemma grid_covers k item img cb px py :
  q !! k = Some item ->
  Bounds img = mkRectangle (mkPoint 0 0) (mkPoint w h) ->
  covers item img cb px py = true <->
  (Z.of_nat k mod C * w <= px < Z.of_nat k mod C * w + w /\
   Z.of_nat k / C * h <= py < Z.of_nat k / C * h + h) /\
  PtIn px py cb = true.
Proof.
  intros Hk Hb. unfold covers.
  rewrite (grid_tileRect k item img Hk Hb).
  rewrite !andb_true_iff, !PtIn_true. rewrite Hb. simpl. lia.
Qed.

Lemma grid_disjoint cb : DisjointTiles decode q cb.
Proof.
  intros f f' img img' px py Hin Hin' Hd Hd' Hc Hc'.
  apply list_elem_of_In, list_elem_of_lookup in Hin, Hin'.
  destruct Hin as [k Hk], Hin' as [k' Hk'].
  destruct (grid_decodes k f Hk) as (i1 & E1 & B1).
  destruct (grid_decodes k' f' Hk') as (i2 & E2 & B2).
  rewrite Hd in E1. injection E1 as <-.
  rewrite Hd' in E2. injection E2 as <-.
  apply (grid_covers k f img cb px py Hk B1) in Hc.
  apply (grid_covers k' f' img' cb px py Hk' B2) in Hc'.
  destruct Hc as [[Hx Hy] _], Hc' as [[Hx' Hy'] _].
  assert (Z.of_nat k mod C = Z.of_nat k' mod C) by nia.
  assert (Z.of_nat k / C = Z.of_nat k' / C) by nia.
  assert (k = k').
  { pose proof (Z.div_mod (Z.of_nat k) C ltac:(lia)).
    pose proof (Z.div_mod (Z.of_nat k') C ltac:(lia)). nia. }
  subst k'. congruence.
Qed.

End UniformGrid.

Lemma enqueue_spec C files :
  1 <= C -> Z.of_nat (length files) <= GoInt.maxInt ->
  enqueue C 0 files = Some (specJobs C files).
Proof.
  intros HC Hlen.
  destruct (enqueue_some C files 0 ltac:(lia)) as (q & Hq & Hl & Hk).
  rewrite Hq. f_equal. apply list_eq. intros k.
  unfold specJobs. rewrite list_lookup_imap.
  destruct (files !! k) as [f|] eqn:Hf; simpl.
  - apply Hk. exists f. split; [exact Hf|].
    pose proof (lookup_lt_Some _ _ _ Hf) as Hlt.
    rewrite Z.add_0_l.
    rewrite Z.rem_mod_nonneg, Z.quot_div_nonneg by lia.
    pose proof (Z.mod_pos_bound (Z.of_nat k) C ltac:(lia)).
    pose proof (Z.mod_le (Z.of_nat k) C ltac:(lia) ltac:(lia)).
    assert (0 <= Z.of_nat k / C <= Z.of_nat k).
    { split; [apply Z.div_pos; lia|]. apply Z.div_le_upper_bound; nia. }
    unfold GoInt.maxInt in Hlen.
    rewrite !wrap_id by (unfold GoInt.minInt, GoInt.maxInt; lia).
    reflexivity.
  - apply lookup_ge_None_2. apply lookup_ge_None_1 in Hf. lia.
Qed.

Lemma DisjointTiles_perm decode q q' cb :
  Permutation q q' -> DisjointTiles decode q cb -> DisjointTiles decode q' cb.
Proof.
  intros Hp Hd f f' img img' px py Hin Hin'.
  apply (Hd f f' img img' px py);
    eapply Permutation_in; try eassumption; symmetry; exact Hp.
Qed.

(** With disjoint tiles the canvas does not depend on the order in which
    the loop body runs for the items. *)
Lemma processAll_order decode cs1 cs2 dst perr1 perr2 :
  wfRGBA dst -> Permutation cs1 cs2 ->
  DisjointTiles decode cs1 (RGBARect dst) ->
  fst (processAll decode cs1 (dst, perr1)) =
  fst (processAll decode cs2 (dst, perr2)).
Proof.
  intros Hwf Hp Hd.
  destruct (processAll_keeps decode cs1 (dst, perr1) Hwf) as [W1 R1].
  destruct (processAll_keeps decode cs2 (dst, perr2) Hwf) as [W2 R2].
  simpl in R1, R2.
  apply RGBA_ext; [exact W1 | exact W2 | congruence |].
  intros px py.
  set (hit := fun f => match decode (QueueItem.hevcFile f) with
                       | inl img => covers f img (RGBARect dst) px py
                       | inr _ => false
                       end).
  destruct (existsb hit cs1) eqn:He.
  - apply existsb_exists in He. destruct He as (f & Hin & Hhit).
    unfold hit in Hhit.
    destruct (decode (QueueItem.hevcFile f)) as [img|] eqn:Hf; [|discriminate].
    assert (Hsame : forall cs, Permutation cs1 cs ->
              forall f' img', In f' cs ->
                decode (QueueItem.hevcFile f') = inl img' ->
                covers f' img' (RGBARect dst) px py = true ->
                tilePixel f' img' px py = tilePixel f img px py).
    { intros cs Hcs f' img' Hin' Hf' Hc'.
      assert (f' = f).
      { apply (Hd f' f img' img px py); auto.
        eapply Permutation_in; [symmetry; exact Hcs | exact Hin']. }
      subst f'. congruence. }
    rewrite (At_processAll_in decode cs1 (dst, perr1) f img px py); auto.
    + symmetry. apply At_processAll_in; auto.
      * eapply Permutation_in; eassumption.
      * apply Hsame, Hp.
    + apply Hsame. reflexivity.
  - assert (Hnone : forall cs, Permutation cs1 cs ->
              forall f img, In f cs ->
                decode (QueueItem.hevcFile f) = inl img ->
                covers f img (RGBARect dst) px py = false).
    { intros cs Hcs f img Hin Hf.
      destruct (covers f img (RGBARect dst) px py) eqn:Hc; [|reflexivity].
      assert (Hex : existsb hit cs1 = true); [|congruence].
      apply existsb_exists. exists f. split.
      - eapply Permutation_in; [symmetry; exact Hcs | exact Hin].
      - unfold hit. rewrite Hf. exact Hc. }
    rewrite !At_processAll_out; auto.
    + apply Hnone, Hp.
    + apply Hnone. reflexivity.
Qed.

(** * The claims *)



(** C8, amended.  All files decode to tiles of the same size [w] by [h],
    [cols >= 1], and both pools have at least one worker: whatever the two
    pool sizes and the two schedules, the canvases are the same once
    [wg.Wait] has returned, and the same as the canvas that the loop body
    gives for any order of the items; and a schedule exists under which
    [wg.Wait] returns. *)
Theorem canvas_order_independent decode info files q w h n1 n2 s1 s2 :
  1 <= Cols info -> 0 < w -> 0 < h ->
  UniformTiles decode files w h ->
  Z.of_nat (length files) <= GoInt.maxInt ->
  Cols info * w <= GoInt.maxInt ->
  Z.of_nat (length files) * h <= GoInt.maxInt ->
  buildQueue info files = Some q ->
  1 <= n1 -> 1 <= n2 ->
  let canvas := NewRGBA (Rect 0 0 (Width info) (Height info)) in
  let p1 := runPool decode s1 (startPool n1 q canvas) in
  let p2 := runPool decode s2 (startPool n2 q canvas) in
  allDone (runPool decode (oneByOne (Z.to_nat n1) (length q))
             (startPool n1 q canvas)) = true /\
  (allDone p1 = true -> allDone p2 = true ->
   dstImg p1 = dstImg p2 /\
   forall cs, Permutation cs q ->
              fst (processAll decode cs (canvas, None)) = dstImg p1).
Proof.
  intros HC Hw Hh Huni Hlen HfitX HfitN Hq Hn1 Hn2 canvas p1 p2.
  split; [apply pool_terminates|]. intros Hd1 Hd2.
  assert (Hwf : wfRGBA canvas) by (apply wf_NewRGBA; apply Rect_bounds).
  assert (HfitY : forall k, (k < length files)%nat ->
                            Z.of_nat k / Cols info * h + h <= GoInt.maxInt).
  { intros k Hk.
    assert (0 <= Z.of_nat k / Cols info <= Z.of_nat k).
    { split; [apply Z.div_pos; lia|]. apply Z.div_le_upper_bound; nia. }
    unfold GoInt.maxInt in *. nia. }
  pose proof (grid_disjoint decode (Cols info) w h files q HC Hw Hh Hq Huni
                Hlen HfitX HfitY (RGBARect canvas)) as Hdis.
  destruct (pool_done decode n1 q canvas s1 Hn1 Hd1) as [P1 S1].
  destruct (pool_done decode n2 q canvas s2 Hn2 Hd2) as [P2 S2].
  fold p1 in P1, S1. fold p2 in P2, S2.
  assert (E1 : dstImg p1 = fst (processAll decode (calls p1) (canvas, None)))
    by (rewrite <- S1; reflexivity).
  assert (E2 : dstImg p2 = fst (processAll decode (calls p2) (canvas, None)))
    by (rewrite <- S2; reflexivity).
  split.
  - rewrite E1, E2. apply processAll_order; [exact Hwf | |].
    + rewrite P1, P2. reflexivity.
    + eapply DisjointTiles_perm; [symmetry; exact P1 | exact Hdis].
  - intros cs Hcs. rewrite E1. apply processAll_order; [exact Hwf | |].
    + rewrite Hcs, P1. reflexivity.
    + eapply DisjointTiles_perm; [symmetry; exact Hcs | exact Hdis].
Qed.

Lemma canvas_order_independent_witness :
  dstImg (runPool (sampleDecode threeByThree) (repeat 0%nat 19)
            (startPool 1 (specJobs 3 (map fst threeByThree))
               (NewRGBA (Rect 0 0 6 6))))
  = dstImg (runPool (sampleDecode threeByThree) (crossed 4)
              (startPool 4 (specJobs 3 (map fst threeByThree))
                 (NewRGBA (Rect 0 0 6 6)))).
Proof.
  assert (Hu : UniformTiles (sampleDecode threeByThree)
                 (map fst threeByThree) 2 2).
  { intros f Hf. simpl in Hf.
    repeat (destruct Hf as [<-|Hf]; [eexists; split; reflexivity|]).
    destruct Hf. }
  refine (proj1 (proj2 (canvas_order_independent (sampleDecode threeByThree) info3x3
           (map fst threeByThree) (specJobs 3 (map fst threeByThree))
           2 2 1 4 (repeat 0%nat 19) (crossed 4)
           ltac:(simpl; lia) ltac:(lia) ltac:(lia) Hu
           ltac:(unfold GoInt.maxInt; simpl; lia)
           ltac:(unfold GoInt.maxInt; simpl; lia)
           ltac:(unfold GoInt.maxInt; simpl; lia)
           eq_refl ltac:(lia) ltac:(lia)) eq_refl eq_refl)).
Defined.

(** C8 as stated fails: two tiles of different sizes, both decoded.  A
    pool of one worker and a pool of two workers both come to an end,
    with different canvases, and [main] writes different files. *)
Lemma canvas_order_counterexample :
  (forall f, In f (map fst clashTiles) ->
             exists img, sampleDecode clashTiles f = inl img) /\
  buildQueue clashInfo (map fst clashTiles) = Some clashQueue /\
  allDone (runPool (sampleDecode clashTiles) [0; 0; 0; 0; 0]%nat
             (startPool 1 clashQueue clashCanvas)) = true /\
  allDone (runPool (sampleDecode clashTiles) [0; 1; 1; 0; 0; 1]%nat
             (startPool 2 clashQueue clashCanvas)) = true /\
  dstImg (runPool (sampleDecode clashTiles) [0; 0; 0; 0; 0]%nat
            (startPool 1 clashQueue clashCanvas))
  <> dstImg (runPool (sampleDecode clashTiles) [0; 1; 1; 0; 0; 1]%nat
               (startPool 2 clashQueue clashCanvas)) /\
  main (sampleWorld "width=2
height=1
tiles=2
rows=1
cols=2
" clashTiles "out.png" 1 [0; 0; 0; 0; 0]%nat)
  <> main (sampleWorld "width=2
height=1
tiles=2
rows=1
cols=2
" clashTiles "out.png" 2 [0; 1; 1; 0; 0; 1]%nat).
Proof.
  split.
  { intros f [<-|[<-|[]]]; eexists; reflexivity. }
  split; [reflexivity|]. split; [reflexivity|]. split; [reflexivity|].
  split; vm_compute; discriminate.
Qed.

Lemma processAll_canvas decode cs : forall dst perr,
  fst (processAll decode cs (dst, perr)) = fold_left (drawDecoded decode) cs dst.
Proof.
  induction cs as [|f cs IH]; intros dst perr; [reflexivity|].
  simpl. fold (processAll decode cs (processItem decode f dst perr)).
  assert (Hitem : processItem decode f dst perr
                  = (drawDecoded decode dst f,
                     snd (processItem decode f dst perr))).
  { unfold processItem, drawDecoded.
    destruct (decode (QueueItem.hevcFile f)); reflexivity. }
  rewrite Hitem. apply IH.
Qed.

Lemma processAll_last_error decode pre f post e st :
  decode (QueueItem.hevcFile f) = inr e ->
  (forall g, In g post -> exists img, decode (QueueItem.hevcFile g) = inl img) ->
  snd (processAll decode (pre ++ f :: post) st) = Some e.
Proof.
  intros Hf Hpost. unfold processAll. rewrite fold_left_app. simpl.
  fold (processAll decode pre st).
  set (st1 := processItem decode f _ _).
  fold (processAll decode post st1).
  rewrite processAll_no_error by exact Hpost.
  unfold st1, processItem. rewrite Hf. reflexivity.
Qed.

Lemma last_failure_split (decode : string -> Image + Error) cs :
  (exists f e, In f cs /\ decode (QueueItem.hevcFile f) = inr e) ->
  exists pre f post e,
    cs = pre ++ f :: post /\ decode (QueueItem.hevcFile f) = inr e /\
    (forall g, In g post -> exists img, decode (QueueItem.hevcFile g) = inl img).
Proof.
  induction cs as [|g cs IH] using rev_ind; intros (f & e & Hin & Hd);
    [destruct Hin|].
  destruct (decode (QueueItem.hevcFile g)) as [gimg|eg] eqn:Hg.
  - apply in_app_or in Hin. destruct Hin as [Hin|[<-|[]]]; [|congruence].
    destruct IH as (pre & f' & post & e' & -> & Hd' & Hpost); [eauto|].
    exists pre, f', (post ++ [g]), e'. split; [|split; [exact Hd'|]].
    + rewrite <- app_assoc. reflexivity.
    + intros h Hh. apply in_app_or in Hh. destruct Hh as [Hh|[<-|[]]]; eauto.
  - exists cs, g, [], eg. split; [reflexivity|]. split; [exact Hg|].
    intros h [].
Qed.

(** C6.  A pool of at least one worker, a queue in which the decoder
    fails on some item.  When [wg.Wait] returns: [hevc2Image] has been
    called exactly once for each item of the queue (the calls are a
    permutation of the queue); the canvas holds the draw of every call
    whose file decoded, in the order of the calls, those made after a
    failure included, so no item was skipped and no worker stopped
    because of an error; and the error slot holds the error of the last
    call that failed.  A schedule exists under which [wg.Wait]
    returns. *)
Theorem decode_failure_keeps_pool_going decode q dst nthreads sched :
  1 <= nthreads ->
  (exists f e, In f q /\ decode (QueueItem.hevcFile f) = inr e) ->
  allDone (runPool decode (oneByOne (Z.to_nat nthreads) (length q))
             (startPool nthreads q dst)) = true /\
  (let p := runPool decode sched (startPool nthreads q dst) in
   allDone p = true ->
   Permutation (calls p) q /\
   dstImg p = fold_left (drawDecoded decode) (calls p) dst /\
   exists pre f post e,
     calls p = pre ++ f :: post /\
     decode (QueueItem.hevcFile f) = inr e /\
     (forall g, In g post ->
                exists img, decode (QueueItem.hevcFile g) = inl img) /\
     processError p = Some e).
Proof.
  intros Hn Hfail. split; [apply pool_terminates|].
  intros p Hdone.
  destruct (pool_done decode nthreads q dst sched Hn Hdone) as [Hperm Hst].
  fold p in Hperm, Hst. split; [exact Hperm|]. split.
  - rewrite <- (processAll_canvas decode (calls p) dst None), <- Hst.
    reflexivity.
  - destruct (last_failure_split decode (calls p))
      as (pre & f & post & e & Hc & Hd & Hpost).
    { destruct Hfail as (f & e & Hin & Hd). exists f, e. split; [|exact Hd].
      eapply Permutation_in; [symmetry; exact Hperm | exact Hin]. }
    exists pre, f, post, e. split; [exact Hc|]. split; [exact Hd|].
    split; [exact Hpost|].
    replace (processError p)
      with (snd (processAll decode (calls p) (dst, None)))
      by (rewrite <- Hst; reflexivity).
    rewrite Hc. apply processAll_last_error; assumption.
Qed.

Lemma decode_failure_keeps_pool_going_witness :
  Permutation
    (calls (runPool (sampleDecode brokenTiles) [0; 1; 1; 0; 0; 1; 0; 0; 1]%nat
              (startPool 2 brokenQueue (NewRGBA (Rect 0 0 3 1)))))
    brokenQueue /\
  dstImg (runPool (sampleDecode brokenTiles) [0; 1; 1; 0; 0; 1; 0; 0; 1]%nat
            (startPool 2 brokenQueue (NewRGBA (Rect 0 0 3 1))))
  = mkRGBA [red; transparent; green] 3
           (mkRectangle (mkPoint 0 0) (mkPoint 3 1)) /\
  processError (runPool (sampleDecode brokenTiles)
                  [0; 1; 1; 0; 0; 1; 0; 0; 1]%nat
                  (startPool 2 brokenQueue (NewRGBA (Rect 0 0 3 1))))
  = Some (PngDecodeFail "t1").
Proof.
  assert (Hfail : exists f e, In f brokenQueue /\
            sampleDecode brokenTiles (QueueItem.hevcFile f) = inr e).
  { exists (QueueItem.mk "t1" 1 0), (PngDecodeFail "t1").
    split; [right; left; reflexivity | reflexivity]. }
  destruct (proj2 (decode_failure_keeps_pool_going (sampleDecode brokenTiles)
                     brokenQueue (NewRGBA (Rect 0 0 3 1)) 2
                     [0; 1; 1; 0; 0; 1; 0; 0; 1]%nat ltac:(lia) Hfail) eq_refl)
    as (Hperm & Hdst & pre & f & post & e & Hc & Hd & Hpost & He).
  split; [exact Hperm|]. split.
  - rewrite Hdst. vm_compute. reflexivity.
  - vm_compute. reflexivity.
Defined.

(** ** [main] up to the encoder *)

(** The value of [main] when its arguments are accepted, both tools
    succeed, the queue can be built and the pool comes to an end. *)
Lemma main_returns w srcFile dstFile rest out q :
  version (argv w) = false -> help (argv w) = false ->
  0 <= pngCompression (argv w) <= 3 -> 0 <= jpegQuality (argv w) <= 100 ->
  args w = srcFile :: dstFile :: rest ->
  runInfo w srcFile = RunOK out ->
  runExtract w srcFile dstFile = true ->
  buildQueue (fixup (parseInfo out)) (globTmp w dstFile) = Some q ->
  let info := fixup (parseInfo out) in
  let decode := hevc2Image (ffmpeg w) (pngDecode w) in
  let p := runPool decode (schedule w)
             (startPool (threads (argv w)) q
                (NewRGBA (Rect 0 0 (Width info) (Height info)))) in
  allDone p = true ->
  main w =
  Returned
    (mkFinal
       (decodeMsgs decode (calls p)
        ++ fst (encodeStep w (GoInt.neg (pngCompression (argv w))) dstFile
                  (postprocess (Rotate w) info (dstImg p))))
       (snd (encodeStep w (GoInt.neg (pngCompression (argv w))) dstFile
               (postprocess (Rotate w) info (dstImg p))))
       (globTmp w dstFile)).
Proof.
  intros Hv Hh Hp Hj Ha Hi He Hq info decode p Hdone.
  assert (Hf : (pngCompression (argv w) <? 0) || (3 <? pngCompression (argv w))
               || (jpegQuality (argv w) <? 0) || (100 <? jpegQuality (argv w))
               = false).
  { rewrite !orb_false_iff, !Z.ltb_ge. lia. }
  unfold main, heifGetInfo, heif2hevc. cbv zeta.
  rewrite Hv, Hh, Hf, Ha, Hi, He.
  rewrite Hq. unfold p, decode, info in Hdone |- *. rewrite Hdone.
  destruct (encodeStep w _ dstFile _) as [msgs o]. reflexivity.
Qed.

(** C1 fails on the code: a grid of two tiles, the decoder fails on the
    second.  The error written to [processError] is never read: [main]
    goes on to encode the canvas with the second tile missing, writes the
    destination file and returns as in a run without errors; only
    [hevc2Image]'s own message has gone to the standard error. *)
Theorem decode_error_not_reported :
  main (sampleWorld "width=2
height=1
tiles=2
rows=1
cols=2
" [("t0"%string, Some (solid 1 1 red)); ("t1"%string, None)]
       "out.png" 1 [0; 0; 0; 0; 0]%nat)
  = Returned
      (mkFinal [MsgFfmpegFail "t1"]
         (Some (rawBytes (mkRGBA [red; transparent] 2
                            (mkRectangle (mkPoint 0 0) (mkPoint 2 1)))))
         ["t0"%string; "t1"%string])
  /\ processError
       (runPool (sampleDecode [("t0"%string, Some (solid 1 1 red));
                               ("t1"%string, None)])
          [0; 0; 0; 0; 0]%nat
          (startPool 1 [QueueItem.mk "t0" 0 0; QueueItem.mk "t1" 1 0]
             (NewRGBA (Rect 0 0 2 1))))
     = Some (PngDecodeFail "t1").
Proof. split; vm_compute; reflexivity. Qed.

(** ** The destination's extension *)

Lemma list_ascii_app (a b : string) :
  list_ascii_of_string (a ++ b) = list_ascii_of_string a ++ list_ascii_of_string b.
Proof. induction a as [|c a IH]; simpl; [reflexivity|]. rewrite IH. reflexivity. Qed.

Lemma extScan_noSep e : forall rest suffix,
  noSep e = true ->
  Filepath.extScan (rev (list_ascii_of_string e) ++ rest) suffix =
  Filepath.extScan rest (list_ascii_of_string e ++ suffix).
Proof.
  induction e as [|c e IH]; intros rest suffix Hn; [reflexivity|].
  simpl in Hn. apply andb_true_iff in Hn. destruct Hn as [Hc He].
  apply andb_true_iff in Hc. destruct Hc as [Hs Hd].
  apply negb_true_iff in Hs, Hd.
  simpl. rewrite <- app_assoc. rewrite IH by exact He.
  simpl. rewrite Hs, Hd. reflexivity.
Qed.

Lemma Ext_suffix base e :
  noSep e = true ->
  Filepath.Ext (base ++ "." ++ e) = ("." ++ e)%string.
Proof.
  intros Hn. unfold Filepath.Ext.
  rewrite list_ascii_app. simpl. rewrite rev_app_distr. simpl.
  rewrite <- app_assoc. rewrite extScan_noSep by exact Hn.
  simpl. rewrite app_nil_r. rewrite string_of_list_ascii_of_string. reflexivity.
Qed.

Lemma lowerAscii_sep c :
  Ascii.eqb (Filepath.lowerAscii c) Filepath.slash = false ->
  Ascii.eqb (Filepath.lowerAscii c) Filepath.dot = false ->
  Ascii.eqb c Filepath.slash = false /\ Ascii.eqb c Filepath.dot = false.
Proof.
  destruct c as [[] [] [] [] [] [] [] []]; vm_compute; intros; split;
    congruence.
Qed.

Lemma noSep_ToLower e : noSep (Filepath.ToLower e) = true -> noSep e = true.
Proof.
  induction e as [|c e IH]; simpl; [reflexivity|].
  intros H. apply andb_true_iff in H. destruct H as [Hc He].
  apply andb_true_iff in Hc. destruct Hc as [Hs Hd].
  apply negb_true_iff in Hs, Hd.
  destruct (lowerAscii_sep c Hs Hd) as [-> ->]. simpl. apply IH, He.
Qed.

Lemma formatOf_suffix base e :
  noSep (Filepath.ToLower e) = true ->
  formatOf (base ++ "." ++ e) =
  (if String.eqb (Filepath.ToLower e) "png" then FormatPNG
   else if String.eqb (Filepath.ToLower e) "jpg"
           || String.eqb (Filepath.ToLower e) "jpeg" then FormatJPEG
   else FormatUnsupported).
Proof.
  intros Hn. unfold formatOf.
  rewrite Ext_suffix by (apply noSep_ToLower, Hn). reflexivity.
Qed.

Lemma sameLetter_lower a b :
  sameLetter a b = true -> Filepath.lowerAscii a = Filepath.lowerAscii b.
Proof.
  unfold sameLetter, isUpperAscii, Filepath.lowerAscii.
  intros H. apply orb_true_iff in H. destruct H as [H|H];
    [apply orb_true_iff in H; destruct H as [H|H]|].
  - apply Ascii.eqb_eq in H. subst b. reflexivity.
  - apply andb_true_iff in H. destruct H as [Hu He].
    apply N.eqb_eq in He. rewrite Hu.
    apply andb_true_iff in Hu. destruct Hu as [H1 H2].
    apply N.leb_le in H1, H2.
    assert ((65 <=? N_of_ascii b) && (N_of_ascii b <=? 90) = false)%N as ->.
    { apply andb_false_iff. right. apply N.leb_gt. lia. }
    rewrite He. apply ascii_N_embedding.
  - apply andb_true_iff in H. destruct H as [Hu He].
    apply N.eqb_eq in He. rewrite Hu.
    apply andb_true_iff in Hu. destruct Hu as [H1 H2].
    apply N.leb_le in H1, H2.
    assert ((65 <=? N_of_ascii a) && (N_of_ascii a <=? 90) = false)%N as ->.
    { apply andb_false_iff. right. apply N.leb_gt. lia. }
    rewrite He. symmetry. apply ascii_N_embedding.
Qed.

Lemma caseVariant_ToLower s : forall t,
  caseVariant s t = true -> Filepath.ToLower s = Filepath.ToLower t.
Proof.
  induction s as [|a s IH]; intros [|b t]; simpl; try discriminate;
    [reflexivity|].
  intros H. apply andb_true_iff in H. destruct H as [Hab Hst].
  rewrite (sameLetter_lower a b Hab), (IH t Hst). reflexivity.
Qed.

Lemma lowerAscii_keeps_sep c :
  Ascii.eqb c Filepath.slash = false -> Ascii.eqb c Filepath.dot = false ->
  Ascii.eqb (Filepath.lowerAscii c) Filepath.slash = false /\
  Ascii.eqb (Filepath.lowerAscii c) Filepath.dot = false.
Proof.
  destruct c as [[] [] [] [] [] [] [] []]; vm_compute; intros; split;
    congruence.
Qed.

Lemma noSep_ToLower_inv e : noSep e = true -> noSep (Filepath.ToLower e) = true.
Proof.
  induction e as [|c e IH]; simpl; [reflexivity|].
  intros H. apply andb_true_iff in H. destruct H as [Hc He].
  apply andb_true_iff in Hc. destruct Hc as [Hs Hd].
  apply negb_true_iff in Hs, Hd.
  destruct (lowerAscii_keeps_sep c Hs Hd) as [-> ->]. simpl. apply IH, He.
Qed.

(** C10.  The extension is matched without regard to the case of its
    letters.  An extension [e] that is [png] up to the case of its
    letters ([PNG], [Png], [pNG], ...) selects the PNG encoder, one that
    is [jpg] or [jpeg] up to case the JPEG encoder, and the bytes of that
    encoder are what the created file receives; and two destinations
    that differ only in the case of the letters of the extension are
    treated alike, whatever the extension. *)
Theorem extension_case_insensitive w lvl base e img :
  (caseVariant e "png" = true ->
   formatOf (base ++ "." ++ e) = FormatPNG /\
   (osCreate w (base ++ "." ++ e) = true ->
    snd (encodeStep w lvl (base ++ "." ++ e) img)
    = Some (fst (pngEncode w lvl img)))) /\
  (caseVariant e "jpg" = true \/ caseVariant e "jpeg" = true ->
   formatOf (base ++ "." ++ e) = FormatJPEG /\
   (osCreate w (base ++ "." ++ e) = true ->
    snd (encodeStep w lvl (base ++ "." ++ e) img)
    = Some (fst (jpegEncode w (jpegQuality (argv w)) img)))) /\
  (forall e', noSep e' = true -> caseVariant e e' = true ->
              formatOf (base ++ "." ++ e) = formatOf (base ++ "." ++ e')).
Proof.
  assert (Hgen : forall e', noSep e' = true -> caseVariant e e' = true ->
                 formatOf (base ++ "." ++ e) = formatOf (base ++ "." ++ e')).
  { intros e' Hn Hv. pose proof (caseVariant_ToLower e e' Hv) as Hl.
    assert (Hn' : noSep (Filepath.ToLower e) = true).
    { rewrite Hl. apply noSep_ToLower_inv, Hn. }
    rewrite formatOf_suffix by exact Hn'.
    rewrite formatOf_suffix by (apply noSep_ToLower_inv, Hn).
    rewrite Hl. reflexivity. }
  split; [|split; [|exact Hgen]].
  - intros He.
    assert (Hf : formatOf (base ++ "." ++ e) = FormatPNG).
    { rewrite (Hgen "png"%string eq_refl He). rewrite formatOf_suffix by reflexivity.
      reflexivity. }
    split; [exact Hf|]. intros Hc. unfold encodeStep. rewrite Hc, Hf.
    destruct (pngEncode w lvl img). reflexivity.
  - intros He.
    assert (Hf : formatOf (base ++ "." ++ e) = FormatJPEG).
    { destruct He as [He|He].
      - rewrite (Hgen "jpg"%string eq_refl He).
        rewrite formatOf_suffix by reflexivity. reflexivity.
      - rewrite (Hgen "jpeg"%string eq_refl He).
        rewrite formatOf_suffix by reflexivity. reflexivity. }
    split; [exact Hf|]. intros Hc. unfold encodeStep. rewrite Hc, Hf.
    destruct (jpegEncode w (jpegQuality (argv w)) img). reflexivity.
Qed.

Lemma extension_case_insensitive_witness :
  formatOf "shots.v2/IMG_0001.PNG" = FormatPNG /\
  formatOf "x.pNG" = FormatPNG /\
  formatOf "a.Jpg" = FormatJPEG /\
  formatOf "a.tar.JPEG" = FormatJPEG /\
  formatOf "a.BmP" = formatOf "a.bmp".
Proof.
  pose (w := sampleWorld "" [] "x" 1 []).
  pose (img := NewRGBA ZR).
  split; [|split; [|split; [|split]]].
  - exact (proj1 (proj1 (extension_case_insensitive w 0 "shots.v2/IMG_0001"
                           "PNG" img) eq_refl)).
  - exact (proj1 (proj1 (extension_case_insensitive w 0 "x" "pNG" img)
                    eq_refl)).
  - exact (proj1 (proj1 (proj2 (extension_case_insensitive w 0 "a" "Jpg" img))
                    (or_introl eq_refl))).
  - exact (proj1 (proj1 (proj2 (extension_case_insensitive w 0 "a.tar" "JPEG"
                                  img))
                    (or_intror eq_refl))).
  - exact (proj2 (proj2 (extension_case_insensitive w 0 "a" "BmP" img))
             "bmp"%string eq_refl eq_refl).
Defined.

(** C2 as stated fails: with the destination [out.bmp], [os.Create] has
    made the (empty) file before the extension is looked at. *)
Lemma unsupported_extension_counterexample :
  formatOf "out.bmp" = FormatUnsupported /\
  main (sampleWorld "width=4
height=2
tiles=2
rows=1
cols=2
" twoByOne "out.bmp" 1 [0; 0; 0; 0; 0]%nat)
  = Returned (mkFinal [MsgUnsupportedExt] (Some [])
                      ["t0"%string; "t1"%string]).
Proof. split; vm_compute; reflexivity. Qed.

(** C2, amended.  The lower-cased extension is none of [.png], [.jpg],
    [.jpeg]: when the file can be created it is created and left empty,
    no encoder runs and the message is that of the unsupported
    extension; when it cannot, the message is that of [os.Create] and
    the file is not touched. *)
Theorem unsupported_extension w lvl dstFile img :
  Filepath.ToLower (Filepath.Ext dstFile) <> ".png"%string ->
  Filepath.ToLower (Filepath.Ext dstFile) <> ".jpg"%string ->
  Filepath.ToLower (Filepath.Ext dstFile) <> ".jpeg"%string ->
  formatOf dstFile = FormatUnsupported /\
  encodeStep w lvl dstFile img =
  (if osCreate w dstFile then ([MsgUnsupportedExt], Some [])
   else ([MsgCannotCreate], None)).
Proof.
  intros H1 H2 H3.
  assert (Hf : formatOf dstFile = FormatUnsupported).
  { unfold formatOf.
    apply String.eqb_neq in H1, H2, H3. rewrite H1, H2, H3. reflexivity. }
  split; [exact Hf|]. unfold encodeStep. rewrite Hf. reflexivity.
Qed.

Lemma unsupported_extension_witness :
  encodeStep (sampleWorld "" [] "out.bmp" 1 []) 0 "out.bmp" (NewRGBA ZR)
  = ([MsgUnsupportedExt], Some []).
Proof.
  refine (proj2 (unsupported_extension (sampleWorld "" [] "out.bmp" 1 []) 0
                   "out.bmp" (NewRGBA ZR) _ _ _));
    vm_compute; discriminate.
Defined.

(** ** The grid descriptor in [main] *)

Lemma flags_ok_main w :
  0 <= pngCompression (argv w) <= 3 -> 0 <= jpegQuality (argv w) <= 100 ->
  (pngCompression (argv w) <? 0) || (3 <? pngCompression (argv w))
  || (jpegQuality (argv w) <? 0) || (100 <? jpegQuality (argv w)) = false.
Proof. intros. rewrite !orb_false_iff, !Z.ltb_ge. lia. Qed.

(** C4.  The info tool has reported [tiles = 1]: whatever [rows] and
    [cols] the text gave (none, zero, or a larger grid), [main] builds its
    queue with one column (column 0 and row [i] for the file at index
    [i]), so it cannot end in the division by zero, and its result is
    that of the pool run on this queue; neither [rows] nor [cols] of
    the descriptor shows in it. *)
Theorem single_tile_forces_grid w srcFile dstFile rest info :
  version (argv w) = false -> help (argv w) = false ->
  0 <= pngCompression (argv w) <= 3 -> 0 <= jpegQuality (argv w) <= 100 ->
  args w = srcFile :: dstFile :: rest ->
  heifGetInfo (runInfo w srcFile) = inl info ->
  Tiles info = 1 ->
  runExtract w srcFile dstFile = true ->
  Z.of_nat (length (globTmp w dstFile)) <= GoInt.maxInt ->
  let files := globTmp w dstFile in
  let q := imap (fun i f => QueueItem.mk f 0 (Z.of_nat i)) files in
  let decode := hevc2Image (ffmpeg w) (pngDecode w) in
  let p := runPool decode (schedule w)
             (startPool (threads (argv w)) q
                (NewRGBA (Rect 0 0 (Width info) (Height info)))) in
  let enc := encodeStep w (GoInt.neg (pngCompression (argv w))) dstFile
               (postprocess (Rotate w) info (dstImg p)) in
  Rows (fixup info) = 1 /\ Cols (fixup info) = 1 /\
  buildQueue (fixup info) files = Some q /\
  main w <> Panicked PanicDivideByZero files /\
  (allDone p = true ->
   main w = Returned (mkFinal (decodeMsgs decode (calls p) ++ fst enc)
                              (snd enc) files)).
Proof.
  intros Hv Hh Hp Hj Ha Hi Ht He Hlen files q decode p enc.
  revert Hi. unfold heifGetInfo.
  destruct (runInfo w srcFile) as [out|err] eqn:Hrun; [|discriminate].
  intros [= Hinfo].
  assert (Hfix : fixup info
                 = mkHeifInfo (Width info) (Height info) (Rotation info)
                              (Tiles info) 1 1).
  { unfold fixup. rewrite Ht. reflexivity. }
  assert (Hq : buildQueue (fixup info) files = Some q).
  { unfold buildQueue. rewrite Hfix. simpl.
    rewrite enqueue_spec by (fold files in Hlen; lia).
    f_equal. unfold specJobs, q. apply imap_ext. intros i f _.
    rewrite Z.mod_1_r, Z.div_1_r. reflexivity. }
  assert (Hpost : forall img,
             postprocess (Rotate w) (fixup info) img
             = postprocess (Rotate w) info img).
  { intros img. unfold postprocess. rewrite Hfix. reflexivity. }
  assert (Hmain : allDone p = true ->
            main w = Returned (mkFinal (decodeMsgs decode (calls p) ++ fst enc)
                                       (snd enc) files)).
  { intros Hdone.
    pose proof (main_returns w srcFile dstFile rest out q Hv Hh Hp Hj Ha Hrun He)
      as Hm.
    rewrite Hinfo in Hm. specialize (Hm Hq).
    rewrite Hfix in Hm. simpl in Hm. rewrite <- Hfix in Hm.
    specialize (Hm Hdone). rewrite Hpost in Hm. exact Hm. }
  rewrite Hfix at 1 2. simpl.
  split; [reflexivity|]. split; [reflexivity|]. split; [exact Hq|].
  split; [|exact Hmain].
  pose proof (flags_ok_main w Hp Hj) as Hf.
  unfold main, heifGetInfo, heif2hevc. cbv zeta.
  rewrite Hv, Hh, Hf, Ha, Hrun, He, Hinfo. fold files. rewrite Hq.
  match goal with
  | |- (if ?c then _ else _) <> _ => destruct c; [|discriminate]
  end.
  match goal with
  | |- (let '(_, _) := ?e in _) <> _ => destruct e
  end.
  discriminate.
Qed.

Lemma single_tile_forces_grid_witness :
  main oneTileWorld
  = Returned (mkFinal []
       (Some (rawBytes (mkRGBA [red; blue] 1
                          (mkRectangle (mkPoint 0 0) (mkPoint 1 2)))))
       ["t0"%string; "t1"%string]).
Proof.
  etransitivity; [|vm_compute; reflexivity].
  exact (proj2 (proj2 (proj2 (proj2
    (single_tile_forces_grid oneTileWorld "src.heic"%string "out.png"%string []
       (mkHeifInfo 1 2 0 1 7 2)
       eq_refl eq_refl ltac:(simpl; lia) ltac:(simpl; lia)
       eq_refl eq_refl eq_refl eq_refl
       ltac:(vm_compute; discriminate))))) eq_refl).
Defined.

(** Without the fix-up the second file of this run would be drawn in
    column 1, outside the canvas. *)
Example single_tile_grid_without_fixup :
  enqueue 2 0 ["t0"%string; "t1"%string]
  = Some [QueueItem.mk "t0" 0 0; QueueItem.mk "t1" 1 0].
Proof. reflexivity. Qed.

(** C7.  With [rotation = 0] the rotation primitive is not called: the
    canvas handed to the encoder is the canvas of the pool, and the file
    that [main] leaves is the encoder's output for that canvas. *)
Theorem rotation_zero_is_identity w srcFile dstFile rest out q :
  version (argv w) = false -> help (argv w) = false ->
  0 <= pngCompression (argv w) <= 3 -> 0 <= jpegQuality (argv w) <= 100 ->
  args w = srcFile :: dstFile :: rest ->
  runInfo w srcFile = RunOK out ->
  runExtract w srcFile dstFile = true ->
  buildQueue (fixup (parseInfo out)) (globTmp w dstFile) = Some q ->
  Rotation (parseInfo out) = 0 ->
  let info := fixup (parseInfo out) in
  let decode := hevc2Image (ffmpeg w) (pngDecode w) in
  let p := runPool decode (schedule w)
             (startPool (threads (argv w)) q
                (NewRGBA (Rect 0 0 (Width info) (Height info)))) in
  allDone p = true ->
  postprocess (Rotate w) info (dstImg p) = dstImg p /\
  main w =
  Returned
    (mkFinal
       (decodeMsgs decode (calls p)
        ++ fst (encodeStep w (GoInt.neg (pngCompression (argv w))) dstFile
                  (dstImg p)))
       (snd (encodeStep w (GoInt.neg (pngCompression (argv w))) dstFile
               (dstImg p)))
       (globTmp w dstFile)).
Proof.
  intros Hv Hh Hp Hj Ha Hi He Hq Hr info decode p Hdone.
  assert (Hpost : postprocess (Rotate w) info (dstImg p) = dstImg p).
  { unfold postprocess.
    assert (Rotation info = 0) as ->; [|reflexivity].
    unfold info, fixup. destruct (Tiles (parseInfo out) =? 1); exact Hr. }
  split; [exact Hpost|].
  rewrite (main_returns w srcFile dstFile rest out q Hv Hh Hp Hj Ha Hi He Hq Hdone).
  fold info. fold decode. fold p. rewrite Hpost. reflexivity.
Qed.

Lemma rotation_zero_is_identity_witness :
  main (withRotate (fun _ _ => NewRGBA ZR)
          (sampleWorld "width=4
height=2
rotation=0
tiles=2
rows=1
cols=2
" twoByOne "out.png" 1 [0; 0; 0; 0; 0]%nat))
  = Returned (mkFinal []
       (Some (rawBytes (mkRGBA [red; red; blue; blue; red; red; blue; blue] 4
                               (mkRectangle (mkPoint 0 0) (mkPoint 4 2)))))
       ["t0"%string; "t1"%string]).
Proof.
  exact (proj2 (rotation_zero_is_identity
    (withRotate (fun _ _ => NewRGBA ZR)
       (sampleWorld "width=4
height=2
rotation=0
tiles=2
rows=1
cols=2
" twoByOne "out.png" 1 [0; 0; 0; 0; 0]%nat))
    "src.heic"%string "out.png"%string [] (B "width=4
height=2
rotation=0
tiles=2
rows=1
cols=2
") (specJobs 2 files2x1)
    eq_refl eq_refl ltac:(simpl; lia) ltac:(simpl; lia)
    eq_refl eq_refl eq_refl eq_refl eq_refl eq_refl)).
Defined.

(** With another angle the primitive is called. *)
Example rotation_nonzero_rotates :
  main (withRotate (fun _ _ => NewRGBA ZR)
          (sampleWorld "width=4
height=2
rotation=90
tiles=2
rows=1
cols=2
" twoByOne "out.png" 1 [0; 0; 0; 0; 0]%nat))
  = Returned (mkFinal [] (Some []) ["t0"%string; "t1"%string]).
Proof. vm_compute. reflexivity. Qed.

(** C9.  With [cols >= 1] the queue is built, whatever the files.  With
    [cols = 0] and at least one file the first [i % info.Cols] panics;
    this is what [main] does when the info text gives no [cols], the
    tile count is not 1 and the extraction left a file. *)
Theorem zero_cols_divides_by_zero info files :
  (1 <= Cols info ->
   exists q, buildQueue info files = Some q /\ length q = length files) /\
  (Cols info = 0 -> files <> [] -> buildQueue info files = None) /\
  (forall w srcFile dstFile rest out,
      version (argv w) = false -> help (argv w) = false ->
      0 <= pngCompression (argv w) <= 3 -> 0 <= jpegQuality (argv w) <= 100 ->
      args w = srcFile :: dstFile :: rest ->
      runInfo w srcFile = RunOK out ->
      runExtract w srcFile dstFile = true ->
      globTmp w dstFile = files ->
      parseInfo out = info ->
      Cols info = 0 -> Tiles info <> 1 -> files <> [] ->
      main w = Panicked PanicDivideByZero files).
Proof.
  split; [|split].
  - intros HC. unfold buildQueue.
    destruct (enqueue_some (Cols info) files 0 ltac:(lia)) as (q & Hq & Hl & _).
    exists q. auto.
  - intros HC Hf. unfold buildQueue. rewrite HC. apply enqueue_zero, Hf.
  - intros w srcFile dstFile rest out Hv Hh Hp Hj Ha Hi He Hg Hinfo HC Ht Hf.
    assert (Hfl : (pngCompression (argv w) <? 0) || (3 <? pngCompression (argv w))
                  || (jpegQuality (argv w) <? 0) || (100 <? jpegQuality (argv w))
                  = false).
    { rewrite !orb_false_iff, !Z.ltb_ge. lia. }
    unfold main, heifGetInfo, heif2hevc. cbv zeta.
    rewrite Hv, Hh, Hfl, Ha, Hi, He, Hg, Hinfo.
    assert (fixup info = info) as ->.
    { unfold fixup. apply Z.eqb_neq in Ht. rewrite Ht. reflexivity. }
    unfold buildQueue. rewrite HC, enqueue_zero by exact Hf. reflexivity.
Qed.

Lemma zero_cols_divides_by_zero_witness :
  (exists q, buildQueue info2x1 files2x1 = Some q /\ length q = 2%nat) /\
  main (sampleWorld "width=4
height=2
tiles=2
" twoByOne "out.png" 1 [0; 0; 0; 0; 0]%nat)
  = Panicked PanicDivideByZero files2x1.
Proof.
  split.
  - exact (proj1 (zero_cols_divides_by_zero info2x1 files2x1)
             ltac:(simpl; lia)).
  - exact (proj2 (proj2 (zero_cols_divides_by_zero (mkHeifInfo 4 2 0 2 0 0)
                           files2x1))
             (sampleWorld "width=4
height=2
tiles=2
" twoByOne "out.png" 1 [0; 0; 0; 0; 0]%nat)
             "src.heic"%string "out.png"%string [] (B "width=4
height=2
tiles=2
") eq_refl eq_refl ltac:(simpl; lia) ltac:(simpl; lia)
             eq_refl eq_refl eq_refl eq_refl eq_refl eq_refl
             ltac:(simpl; lia) ltac:(discriminate)).
Defined.

(** ** The metadata resolver *)

Lemma processLine_assigns info line :
  processLine info line =
  match assigns line with
  | Some (f, v) => setField f v info
  | None => info
  end.
Proof.
  unfold processLine, assigns, fieldOfName.
  destruct (splitInt line) as [[name val]|]; [|reflexivity].
  repeat (match goal with
          | |- context [GoBytes.Equal name ?s] =>
              destruct (GoBytes.Equal name s); [reflexivity|]
          end).
  reflexivity.
Qed.

Lemma Skipped_assigns line : Skipped line <-> assigns line = None.
Proof.
  unfold Skipped, assigns, splitInt.
  destruct (GoBytes.IndexByte line GoBytes.eqsign) as [pos|].
  - destruct (Strconv.ParseInt32 _) as [val|] eqn:Hp.
    + destruct (fieldOfName (take pos line)) eqn:Hn; split.
      * intros [H|(p & [= <-] & [H|H])]; congruence.
      * discriminate.
      * reflexivity.
      * intros _. right. exists pos. rewrite Hn. auto.
    + split; [reflexivity|]. intros _. right. exists pos. rewrite Hp. auto.
  - split; auto.
Qed.

Lemma processLine_skipped info line :
  Skipped line -> processLine info line = info.
Proof.
  intros H. apply Skipped_assigns in H.
  rewrite processLine_assigns, H. reflexivity.
Qed.

Lemma isLine_split l :
  isLine l = true ->
  exists body, l = body ++ [GoBytes.nl] /\
               GoBytes.IndexByte body GoBytes.nl = None.
Proof.
  unfold isLine. induction l as [|b l IH]; simpl; [discriminate|].
  destruct (Byte.eqb b GoBytes.nl) eqn:Eb.
  - destruct l; [|discriminate]. intros _. exists [].
    apply Byte.byte_dec_bl in Eb. subst b. auto.
  - destruct (GoBytes.IndexByte l GoBytes.nl) as [i|]; [|discriminate].
    intros H. destruct (IH H) as (body & -> & Hb).
    exists (b :: body). split; [reflexivity|]. simpl. rewrite Eb, Hb. reflexivity.
Qed.

Lemma readLinesFrom_line body : forall cur rest,
  GoBytes.IndexByte body GoBytes.nl = None ->
  GoBytes.readLinesFrom cur (body ++ GoBytes.nl :: rest) =
  (cur ++ body ++ [GoBytes.nl]) :: GoBytes.readLinesFrom [] rest.
Proof.
  induction body as [|b body IH]; intros cur rest Hb; simpl.
  - reflexivity.
  - simpl in Hb. destruct (Byte.eqb b GoBytes.nl); [discriminate|].
    destruct (GoBytes.IndexByte body GoBytes.nl); [discriminate|].
    rewrite IH by reflexivity. rewrite <- app_assoc. reflexivity.
Qed.

Lemma readLinesFrom_tail tail : forall cur,
  GoBytes.IndexByte tail GoBytes.nl = None ->
  GoBytes.readLinesFrom cur tail = [].
Proof.
  induction tail as [|b tail IH]; intros cur Hb; simpl; [reflexivity|].
  simpl in Hb. destruct (Byte.eqb b GoBytes.nl); [discriminate|].
  destruct (GoBytes.IndexByte tail GoBytes.nl); [discriminate|].
  apply IH. reflexivity.
Qed.

(** The reader gives back the lines that the text was made of; bytes
    after the last line feed are not a line. *)
Lemma readLines_concat ls tail :
  forallb isLine ls = true ->
  GoBytes.IndexByte tail GoBytes.nl = None ->
  GoBytes.readLines (concat ls ++ tail) = ls.
Proof.
  intros Hls Ht. unfold GoBytes.readLines.
  induction ls as [|l ls IH]; simpl.
  - apply readLinesFrom_tail, Ht.
  - simpl in Hls. apply andb_true_iff in Hls. destruct Hls as [Hl Hls].
    destruct (isLine_split l Hl) as (body & -> & Hb).
    rewrite <- !app_assoc. simpl. rewrite readLinesFrom_line by exact Hb.
    rewrite IH by exact Hls. reflexivity.
Qed.

Lemma setField_comm f1 v1 f2 v2 info :
  (f1 = f2 -> v1 = v2) ->
  setField f1 v1 (setField f2 v2 info) = setField f2 v2 (setField f1 v1 info).
Proof.
  intros H. destruct f1, f2; try reflexivity;
    rewrite (H eq_refl); reflexivity.
Qed.

Lemma NoConflict_perm ls ls' :
  Permutation ls ls' -> NoConflict ls -> NoConflict ls'.
Proof.
  intros Hp Hn l1 l2 f v1 v2 H1 H2.
  apply (Hn l1 l2 f v1 v2);
    eapply Permutation_in; try eassumption; symmetry; exact Hp.
Qed.

Lemma fold_processLine_perm ls ls' :
  Permutation ls ls' -> NoConflict ls ->
  forall info, fold_left processLine ls info = fold_left processLine ls' info.
Proof.
  induction 1 as [|x l l' Hp IH|x y l|l l' l'' Hp1 IH1 Hp2 IH2];
    intros Hn info; simpl.
  - reflexivity.
  - apply IH. intros l1 l2 f v1 v2 H1 H2. apply (Hn l1 l2 f v1 v2); right; auto.
  - f_equal. rewrite !processLine_assigns.
    destruct (assigns x) as [[fx vx]|] eqn:Hx;
      destruct (assigns y) as [[fy vy]|] eqn:Hy; try reflexivity.
    apply setField_comm. intros ->.
    apply (Hn x y fy vx vy); simpl; auto.
  - rewrite IH1 by exact Hn. apply IH2. eapply NoConflict_perm; eassumption.
Qed.

Lemma fold_processLine_untouched f ls : forall info,
  (forall l v, In l ls -> assigns l <> Some (f, v)) ->
  getField f (fold_left processLine ls info) = getField f info.
Proof.
  induction ls as [|l ls IH]; intros info Hno; simpl; [reflexivity|].
  rewrite IH by (intros l' v Hin; apply Hno; right; exact Hin).
  rewrite processLine_assigns.
  destruct (assigns l) as [[f' v]|] eqn:Ha; [|reflexivity].
  assert (f' <> f).
  { intros ->. apply (Hno l v); [left; reflexivity | exact Ha]. }
  destruct f, f'; try reflexivity; congruence.
Qed.

Lemma IndexByte_app_None a b c :
  GoBytes.IndexByte a c = None ->
  GoBytes.IndexByte (a ++ b) c =
  match GoBytes.IndexByte b c with
  | Some i => Some (length a + i)%nat
  | None => None
  end.
Proof.
  induction a as [|x a IH]; simpl; intros Ha.
  - destruct (GoBytes.IndexByte b c); reflexivity.
  - destruct (Byte.eqb x c); [discriminate|].
    destruct (GoBytes.IndexByte a c) eqn:Hi; [discriminate|].
    rewrite IH by reflexivity.
    destruct (GoBytes.IndexByte b c); reflexivity.
Qed.


Lemma IndexByte_first a c b :
  GoBytes.IndexByte a c = None ->
  GoBytes.IndexByte (a ++ c :: b) c = Some (length a).
Proof.
  intros Ha. rewrite IndexByte_app_None by exact Ha. simpl.
  assert (Byte.eqb c c = true) as -> by (apply Byte.byte_dec_lb; reflexivity).
  f_equal. lia.
Qed.


Lemma readLinesFrom_partition s : forall cur,
  GoBytes.IndexByte cur GoBytes.nl = None ->
  exists rest,
    cur ++ s = concat (GoBytes.readLinesFrom cur s) ++ rest /\
    GoBytes.IndexByte rest GoBytes.nl = None /\
    forallb isLine (GoBytes.readLinesFrom cur s) = true.
Proof.
  induction s as [|b s IH]; intros cur Hcur; simpl.
  - exists cur. rewrite app_nil_r. auto.
  - destruct (Byte.eqb b GoBytes.nl) eqn:Eb.
    + apply Byte.byte_dec_bl in Eb. subst b.
      destruct (IH [] eq_refl) as (rest & Hs & Hr & Hl).
      exists rest. simpl in Hs |- *. split; [|split; [exact Hr|]].
      * rewrite <- !app_assoc. simpl. do 2 f_equal. exact Hs.
      * rewrite Hl, andb_true_r. unfold isLine.
        rewrite (IndexByte_first cur GoBytes.nl [] Hcur).
        rewrite length_app.
        replace (length cur + length [GoBytes.nl])%nat with (S (length cur))
          by (simpl; lia).
        apply Nat.eqb_refl.
    + assert (Hcur' : GoBytes.IndexByte (cur ++ [b]) GoBytes.nl = None).
      { rewrite IndexByte_app_None by exact Hcur. simpl. rewrite Eb. reflexivity. }
      destruct (IH (cur ++ [b]) Hcur') as (rest & Hs & Hr & Hl).
      exists rest. rewrite <- app_assoc in Hs. simpl in Hs. auto.
Qed.


(** C5 as stated fails: the same two lines in the other order give
    another width; and of two lines of which only the first ends with a
    line feed, only the first is read, so that exchanging them changes
    the result although they assign different fields. *)
Lemma metadata_order_counterexample :
  (Permutation [B "width=1
"; B "width=2
"] [B "width=2
"; B "width=1
"] /\
   parseInfo (B "width=1
width=2
") <> parseInfo (B "width=2
width=1
")) /\
  parseInfo (B "width=4
cols=3") <> parseInfo (B "cols=3
width=4").
Proof.
  split; [split; [apply perm_swap|]|]; vm_compute; discriminate.
Qed.

(** C5, amended.  The text is read as its lines, each ending with a line
    feed; the bytes after the last line feed are not a line and are
    never looked at.  Every text is the lines [ls] the reader delivers
    followed by a rest [tail] without line feed, and its descriptor is
    that of the lines alone.  Of such a text: a line
    without [=], with a value that [ParseInt] rejects or with a name
    that is not one of the six leaves the descriptor as it is, and
    taking it out of the text does not change the result; a field that
    no line assigns is zero; and the result is the same for every order
    of the lines, and every rest, as long as no two lines give different
    values to the same field. *)
Theorem metadata_lines :
  (forall stdout, exists ls tail,
      stdout = concat ls ++ tail /\
      forallb isLine ls = true /\
      GoBytes.IndexByte tail GoBytes.nl = None /\
      GoBytes.readLines stdout = ls /\
      parseInfo stdout = parseInfo (concat ls)) /\
  (forall info line, Skipped line -> processLine info line = info) /\
  (forall pre line post tail,
      forallb isLine (pre ++ line :: post) = true ->
      GoBytes.IndexByte tail GoBytes.nl = None ->
      Skipped line ->
      parseInfo (concat (pre ++ line :: post) ++ tail) =
      parseInfo (concat (pre ++ post) ++ tail)) /\
  (forall ls tail f,
      forallb isLine ls = true ->
      GoBytes.IndexByte tail GoBytes.nl = None ->
      (forall l v, In l ls -> assigns l <> Some (f, v)) ->
      getField f (parseInfo (concat ls ++ tail)) = 0) /\
  (forall ls ls' tail tail',
      forallb isLine ls = true ->
      GoBytes.IndexByte tail GoBytes.nl = None ->
      GoBytes.IndexByte tail' GoBytes.nl = None ->
      Permutation ls ls' -> NoConflict ls ->
      parseInfo (concat ls ++ tail) = parseInfo (concat ls' ++ tail')).
Proof.
  split; [|split; [exact processLine_skipped|]; split; [|split]].
  - intros stdout.
    destruct (readLinesFrom_partition stdout [] eq_refl) as (rest & Hs & Hr & Hl).
    exists (GoBytes.readLines stdout), rest.
    split; [exact Hs|]. split; [exact Hl|]. split; [exact Hr|].
    split; [reflexivity|]. unfold parseInfo.
    rewrite <- (app_nil_r (concat (GoBytes.readLines stdout))).
    rewrite (readLines_concat (GoBytes.readLines stdout) [] Hl eq_refl).
    reflexivity.
  - intros pre line post tail Hls Ht Hs. unfold parseInfo.
    rewrite readLines_concat by assumption.
    rewrite readLines_concat; [|clear - Hls|exact Ht].
    + rewrite !fold_left_app. simpl. rewrite processLine_skipped by exact Hs.
      reflexivity.
    + rewrite forallb_app in Hls |- *. simpl in Hls.
      apply andb_true_iff in Hls. destruct Hls as [H1 H2].
      apply andb_true_iff in H2. destruct H2 as [_ H2].
      rewrite H1, H2. reflexivity.
  - intros ls tail f Hls Ht Hno. unfold parseInfo.
    rewrite readLines_concat by assumption.
    rewrite fold_processLine_untouched by exact Hno.
    destruct f; reflexivity.
  - intros ls ls' tail tail' Hls Ht Ht' Hp Hn. unfold parseInfo.
    rewrite !readLines_concat; try assumption.
    + apply fold_processLine_perm; assumption.
    + apply forallb_forall. intros l Hin.
      rewrite forallb_forall in Hls. apply Hls.
      eapply Permutation_in; [symmetry; exact Hp | exact Hin].
Qed.

Lemma metadata_lines_witness :
  processLine info2x1 (B "cols=x
") = info2x1 /\
  parseInfo (concat ([B "width=4
"] ++ B "depth=8
" :: [B "cols=2
"]) ++ B "rows=9")
  = parseInfo (concat ([B "width=4
"] ++ [B "cols=2
"]) ++ B "rows=9") /\
  getField FRows (parseInfo (concat [B "width=4
"; B "cols=2
"] ++ B "rows=9")) = 0 /\
  parseInfo (concat [B "width=4
"; B "cols=2
"; B "width=4
"] ++ [])
  = parseInfo (concat [B "cols=2
"; B "width=4
"; B "width=4
"] ++ B "rows=9").
Proof.
  destruct metadata_lines as (_ & H1 & H2 & H3 & H4).
  split; [|split; [|split]].
  - apply H1. right. exists 4%nat. split; [reflexivity|]. left. reflexivity.
  - apply H2; [reflexivity | reflexivity |].
    right. exists 5%nat. split; [reflexivity|]. right. reflexivity.
  - apply H3; [reflexivity | reflexivity |].
    intros l v [<-|[<-|[]]]; vm_compute; discriminate.
  - apply H4; [reflexivity | reflexivity | reflexivity | apply perm_swap |].
    intros l1 l2 f v1 v2 Hl1 Hl2 A1 A2. simpl in Hl1, Hl2.
    destruct Hl1 as [<-|[<-|[<-|[]]]]; destruct Hl2 as [<-|[<-|[<-|[]]]];
      vm_compute in A1, A2; congruence.
Defined.

Example unterminated_last_line :
  parseInfo (B "width=4
cols=3") = mkHeifInfo 4 0 0 0 0 0.
Proof. vm_compute. reflexivity. Qed.

Example value_out_of_range :
  parseInfo (B "width=2147483648
height=-2147483648
rows= +7
cols=1_0
") = mkHeifInfo 0 (-2147483648) 0 0 7 0.
Proof. vm_compute. reflexivity. Qed.

(** ** Sample runs *)

Example parse_sample :
  parseInfo (B "width=4032
height=3024
rotation= 90
junk
tiles=48
depth=8
rows=6
cols=x
cols=+8
") = mkHeifInfo 4032 3024 90 48 6 8.
Proof. vm_compute. reflexivity. Qed.

Example sample_two_by_one :
  main (sampleWorld "width=4
height=2
rotation=0
tiles=2
rows=1
cols=2
" twoByOne "out.png" 1 [0; 0; 0; 0; 0]%nat)
  = Returned (mkFinal []
       (Some (rawBytes (mkRGBA [red; red; blue; blue; red; red; blue; blue] 4
                               (mkRectangle (mkPoint 0 0) (mkPoint 4 2)))))
       ["t0"%string; "t1"%string]).
Proof. vm_compute. reflexivity. Qed.

(** * Further properties of the code *)

(** ** The metadata resolver, line by line *)

Lemma Equal_eq a : forall b, GoBytes.Equal a b = true <-> a = b.
Proof.
  induction a as [|x a IH]; intros [|y b]; simpl; split; try congruence.
  - intros H. apply andb_true_iff in H. destruct H as [Hx Hab].
    apply Byte.byte_dec_bl in Hx. apply IH in Hab. congruence.
  - intros [= -> ->]. apply andb_true_iff. split.
    + apply Byte.byte_dec_lb. reflexivity.
    + apply IH. reflexivity.
Qed.

Lemma IndexByte_Some s c : forall i,
  GoBytes.IndexByte s c = Some i ->
  s = take i s ++ c :: drop (S i) s /\ GoBytes.IndexByte (take i s) c = None.
Proof.
  induction s as [|x s IH]; simpl; intros i Hi; [discriminate|].
  destruct (Byte.eqb x c) eqn:Ex.
  - injection Hi as <-. apply Byte.byte_dec_bl in Ex. subst x. simpl. auto.
  - destruct (GoBytes.IndexByte s c) as [j|] eqn:Hj; [|discriminate].
    injection Hi as <-. destruct (IH j eq_refl) as [H1 H2]. simpl.
    rewrite Ex, H2. split; [|reflexivity]. f_equal. exact H1.
Qed.

(** The names are matched byte for byte: no trimming, no case folding,
    no prefixes. *)
Lemma fieldOfName_exact name f :
  fieldOfName name = Some f <-> name = B (fieldName f).
Proof.
  split.
  - unfold fieldOfName.
    repeat (match goal with
            | |- context [GoBytes.Equal name ?s] =>
                let E := fresh "E" in
                destruct (GoBytes.Equal name s) eqn:E;
                [apply Equal_eq in E; intros [= <-]; exact E|]
            end).
    discriminate.
  - intros ->. destruct f; reflexivity.
Qed.

(** A line assigns [v] to field [f] exactly when it is the field's name,
    the first [=] of the line, and a rest that [ParseInt] accepts as [v]
    once its white space is trimmed.  So a second [=], a space before the
    [=] or a name in capitals make the line one that is skipped. *)
Theorem assigns_iff line f v :
  assigns line = Some (f, v) <->
  exists rest,
    line = B (fieldName f) ++ GoBytes.eqsign :: rest /\
    Strconv.ParseInt32 (GoBytes.TrimSpace rest) = Some v.
Proof.
  unfold assigns, splitInt. split.
  - destruct (GoBytes.IndexByte line GoBytes.eqsign) as [pos|] eqn:Hi;
      [|discriminate].
    destruct (Strconv.ParseInt32 _) as [val|] eqn:Hp; [|discriminate].
    destruct (fieldOfName (take pos line)) as [f'|] eqn:Hn; [|discriminate].
    intros [= <- <-]. apply fieldOfName_exact in Hn.
    destruct (IndexByte_Some _ _ _ Hi) as [Hl _].
    exists (drop (S pos) line). rewrite <- Hn. auto.
  - intros (rest & -> & Hp).
    assert (Hn : GoBytes.IndexByte (B (fieldName f)) GoBytes.eqsign = None)
      by (destruct f; reflexivity).
    rewrite (IndexByte_first _ _ rest Hn).
    replace (drop (S (length (B (fieldName f))))
                  (B (fieldName f) ++ GoBytes.eqsign :: rest)) with rest.
    2:{ clear. induction (B (fieldName f)) as [|x a IH]; [reflexivity|].
        simpl. exact IH. }
    rewrite Hp. rewrite take_app_length.
    assert (fieldOfName (B (fieldName f)) = Some f) as ->
      by (apply fieldOfName_exact; reflexivity).
    reflexivity.
Qed.

Lemma assigns_iff_witness :
  assigns (B "rows= +6
") = Some (FRows, 6) /\
  assigns (B "rows =6
") = None /\
  assigns (B "Rows=6
") = None /\
  assigns (B "rows=6=7
") = None.
Proof.
  split; [|split; [|split]].
  - apply (proj2 (assigns_iff (B "rows= +6
") FRows 6)). exists (B " +6
"). split; reflexivity.
  - destruct (assigns (B "rows =6
")) as [[f v]|] eqn:Ha; [|reflexivity].
    exfalso. apply (proj1 (assigns_iff _ f v)) in Ha.
    destruct Ha as (rest & Hl & _). destruct f; discriminate Hl.
  - destruct (assigns (B "Rows=6
")) as [[f v]|] eqn:Ha; [|reflexivity].
    exfalso. apply (proj1 (assigns_iff _ f v)) in Ha.
    destruct Ha as (rest & Hl & _). destruct f; discriminate Hl.
  - destruct (assigns (B "rows=6=7
")) as [[f v]|] eqn:Ha; [|reflexivity].
    exfalso. apply (proj1 (assigns_iff _ f v)) in Ha.
    destruct Ha as (rest & Hl & Hp).
    destruct f; try discriminate Hl.
    injection Hl as <-. vm_compute in Hp. discriminate Hp.
Defined.

Lemma isDigit_val b : Strconv.isDigit b = true -> 0 <= Strconv.digitVal b <= 9.
Proof.
  unfold Strconv.isDigit, Strconv.digitVal. intros H.
  apply andb_true_iff in H. destruct H as [H1 H2].
  apply N.leb_le in H1, H2. lia.
Qed.

Lemma digitsFrom_nonneg s : forall acc v,
  0 <= acc -> Strconv.digitsFrom acc s = Some v -> 0 <= v.
Proof.
  induction s as [|b s IH]; simpl; intros acc v Hacc Hv.
  - congruence.
  - destruct (Strconv.isDigit b) eqn:Hb; [|discriminate].
    apply (IH (acc * 10 + Strconv.digitVal b)); [|exact Hv].
    pose proof (isDigit_val b Hb). lia.
Qed.

Lemma ParseInt32_range s v :
  Strconv.ParseInt32 s = Some v -> - 2 ^ 31 <= v < 2 ^ 31.
Proof.
  unfold Strconv.ParseInt32. destruct s as [|b rest]; [discriminate|].
  assert (Hu : forall body un, Strconv.ParseUint10 body = Some un -> 0 <= un).
  { intros body un. unfold Strconv.ParseUint10.
    destruct body; [discriminate|]. apply digitsFrom_nonneg. lia. }
  destruct (Byte.eqb b "+") eqn:Hplus; [|destruct (Byte.eqb b "-") eqn:Hminus];
    match goal with
    | |- context [Strconv.ParseUint10 ?body] =>
        destruct (Strconv.ParseUint10 body) as [un|] eqn:Hp; [|discriminate];
        apply Hu in Hp
    end; simpl;
    repeat match goal with
           | |- context [if ?c then _ else _] => destruct c eqn:?
           end;
    try discriminate; intros [= <-];
    rewrite ?Z.leb_gt, ?Z.ltb_ge in *; lia.
Qed.

Lemma assigns_range line f v :
  assigns line = Some (f, v) -> - 2 ^ 31 <= v < 2 ^ 31.
Proof.
  unfold assigns, splitInt.
  destruct (GoBytes.IndexByte line GoBytes.eqsign) as [pos|]; [|discriminate].
  destruct (Strconv.ParseInt32 _) as [val|] eqn:Hp; [|discriminate].
  destruct (fieldOfName (take pos line)); [|discriminate].
  intros [= <- <-]. eapply ParseInt32_range, Hp.
Qed.

Lemma Field_eq_dec (f g : Field) : {f = g} + {f <> g}.
Proof. decide equality. Defined.

Lemma getField_setField f g v info :
  getField f (setField g v info) =
  if Field_eq_dec f g then v else getField f info.
Proof. destruct f, g; reflexivity. Qed.

(** When several lines assign the same field, the last of them gives the
    value. *)
Theorem last_assignment_wins pre line post tail f v :
  forallb isLine (pre ++ line :: post) = true ->
  GoBytes.IndexByte tail GoBytes.nl = None ->
  assigns line = Some (f, v) ->
  (forall l v', In l post -> assigns l <> Some (f, v')) ->
  getField f (parseInfo (concat (pre ++ line :: post) ++ tail)) = v.
Proof.
  intros Hls Ht Ha Hpost. unfold parseInfo.
  rewrite readLines_concat by assumption.
  rewrite fold_left_app. simpl.
  rewrite fold_processLine_untouched by exact Hpost.
  rewrite processLine_assigns, Ha, getField_setField.
  destruct (Field_eq_dec f f); congruence.
Qed.

Lemma last_assignment_wins_witness :
  getField FCols (parseInfo (concat ([B "cols=2
"; B "rows=1
"] ++ B "cols=8
" :: [B "tiles=8
"]) ++ B "cols=9")) = 8.
Proof.
  apply (last_assignment_wins [B "cols=2
"; B "rows=1
"] (B "cols=8
") [B "tiles=8
"] (B "cols=9") FCols 8 eq_refl eq_refl eq_refl).
  intros l v' [<-|[]]. vm_compute. discriminate.
Defined.

Lemma readLinesFrom_app_tail tail s : forall cur,
  GoBytes.IndexByte tail GoBytes.nl = None ->
  GoBytes.readLinesFrom cur (s ++ tail) = GoBytes.readLinesFrom cur s.
Proof.
  induction s as [|b s IH]; intros cur Ht; simpl.
  - apply readLinesFrom_tail, Ht.
  - destruct (Byte.eqb b GoBytes.nl); rewrite IH by exact Ht; reflexivity.
Qed.

(** Bytes after the last line feed of the tool's output are never
    looked at: a last line without its line feed is lost, whatever it
    says. *)
Theorem unterminated_tail_ignored stdout tail :
  GoBytes.IndexByte tail GoBytes.nl = None ->
  parseInfo (stdout ++ tail) = parseInfo stdout.
Proof.
  intros Ht. unfold parseInfo, GoBytes.readLines.
  rewrite readLinesFrom_app_tail by exact Ht. reflexivity.
Qed.

Lemma unterminated_tail_ignored_witness :
  parseInfo (B "width=4
height=2
" ++ B "cols=2") = mkHeifInfo 4 2 0 0 0 0.
Proof.
  rewrite (unterminated_tail_ignored (B "width=4
height=2
") (B "cols=2") eq_refl). reflexivity.
Defined.

(** The reader cuts the tool's output into its lines without losing or
    moving a byte: the lines, each ending with its only line feed, then a
    rest without line feed, are the output again. *)
Theorem readLines_partition stdout :
  exists rest,
    stdout = concat (GoBytes.readLines stdout) ++ rest /\
    GoBytes.IndexByte rest GoBytes.nl = None /\
    forallb isLine (GoBytes.readLines stdout) = true.
Proof. apply (readLinesFrom_partition stdout []). reflexivity. Qed.

(** ** The pool at every moment of a run *)

Lemma step_queue_suffix decode p w :
  exists k, queue (step decode p w) = drop k (queue p).
Proof.
  unfold step. destruct (workers p !! w) as [[|f|]|].
  - destruct (queue p) as [|f q]; [exists 0%nat | exists 1%nat]; reflexivity.
  - destruct (processItem decode f (dstImg p) (processError p)).
    exists 0%nat. reflexivity.
  - exists 0%nat. reflexivity.
  - exists 0%nat. reflexivity.
Qed.

Lemma run_queue_suffix decode sched : forall p,
  exists k, queue (runPool decode sched p) = drop k (queue p).
Proof.
  induction sched as [|w sched IH]; intros p; simpl.
  - exists 0%nat. reflexivity.
  - destruct (IH (step decode p w)) as [k Hk].
    destruct (step_queue_suffix decode p w) as [j Hj].
    exists (j + k)%nat. fold (runPool decode sched (step decode p w)).
    rewrite Hk, Hj, drop_drop. reflexivity.
Qed.

Lemma held_length ws : (length (held ws) <= length ws)%nat.
Proof.
  induction ws as [|a ws IH]; simpl; [lia|].
  rewrite length_app. destruct a; simpl; lia.
Qed.

(** At every moment of every run, whatever the schedule: the items are
    handed out in the order of the list, each item handed out is with
    exactly one worker or has had its one call of [hevc2Image], and no
    more items are in the workers' hands than there are workers. *)
Theorem pool_accounting decode nthreads q dst sched :
  let p := runPool decode sched (startPool nthreads q dst) in
  exists k,
    queue p = drop k q /\
    Permutation (calls p ++ held (workers p)) (take k q) /\
    (length (held (workers p)) <= Z.to_nat nthreads)%nat.
Proof.
  intros p.
  destruct (run_queue_suffix decode sched (startPool nthreads q dst)) as [k Hk].
  fold p in Hk. simpl in Hk. exists k. split; [exact Hk|].
  destruct (run_inv decode q dst sched _ (start_inv decode nthreads q dst))
    as (Hperm & _ & _).
  fold p in Hperm. split.
  - rewrite Hk in Hperm. rewrite app_assoc in Hperm.
    rewrite <- (take_drop k q) in Hperm at 2.
    eapply Permutation_app_inv_r. exact Hperm.
  - pose proof (held_length (workers p)) as Hh.
    assert (length (workers p) = Z.to_nat nthreads); [|lia].
    subst p. rewrite run_workers_length. simpl. apply length_replicate.
Qed.

Lemma At_processAll_last decode pre f post img st px py :
  wfRGBA (fst st) ->
  decode (QueueItem.hevcFile f) = inl img ->
  covers f img (RGBARect (fst st)) px py = true ->
  (forall g gimg,
      In g post -> decode (QueueItem.hevcFile g) = inl gimg ->
      covers g gimg (RGBARect (fst st)) px py = false) ->
  RGBAAt (fst (processAll decode (pre ++ f :: post) st)) px py
  = tilePixel f img px py.
Proof.
  intros Hwf Hd Hc Hpost. unfold processAll. rewrite fold_left_app. simpl.
  fold (processAll decode pre st).
  set (st0 := processAll decode pre st).
  set (st1 := processItem decode f (fst st0) (snd st0)).
  fold (processAll decode post st1).
  destruct (processAll_keeps decode pre st Hwf) as [Hwf0 Hr0]. fold st0 in Hwf0, Hr0.
  destruct (processItem_keeps decode f (fst st0) (snd st0) Hwf0) as [Hwf1 Hr1].
  fold st1 in Hwf1, Hr1.
  rewrite At_processAll_out; [|exact Hwf1|].
  - unfold st1. rewrite At_processItem by exact Hwf0. rewrite Hd, Hr0, Hc.
    reflexivity.
  - intros g gimg Hin Hg. rewrite Hr1, Hr0. apply (Hpost g gimg Hin Hg).
Qed.

(** A pool of one worker, the default: whatever the schedule, the calls
    made are a front part of the list in its order.  When [wg.Wait]
    returns, every item has been called, in the order of the list, and
    the canvas and the error slot are those of the loop body run over the
    list from first to last: the canvas holds the draws of all the tiles
    that decoded, one after the other in list order, so that a pixel
    covered by several tiles shows the last of them in the list; the
    error slot holds the error of the last item of the list that failed,
    and nothing when none failed. *)
Theorem single_worker_is_sequential decode q dst sched :
  let p := runPool decode sched (startPool 1 q dst) in
  calls p ++ held (workers p) ++ queue p = q /\
  (allDone p = true ->
   calls p = q /\
   (dstImg p, processError p) = processAll decode q (dst, None) /\
   dstImg p = fold_left (drawDecoded decode) q dst /\
   (forall pre f post img px py,
       wfRGBA dst -> q = pre ++ f :: post ->
       decode (QueueItem.hevcFile f) = inl img ->
       covers f img (RGBARect dst) px py = true ->
       (forall g gimg,
           In g post -> decode (QueueItem.hevcFile g) = inl gimg ->
           covers g gimg (RGBARect dst) px py = false) ->
       RGBAAt (dstImg p) px py = tilePixel f img px py) /\
   (forall pre f post e,
       q = pre ++ f :: post ->
       decode (QueueItem.hevcFile f) = inr e ->
       (forall g, In g post ->
                  exists img, decode (QueueItem.hevcFile g) = inl img) ->
       processError p = Some e) /\
   ((forall g, In g q -> exists img, decode (QueueItem.hevcFile g) = inl img) ->
    processError p = None)).
Proof.
  intros p.
  assert (Hinv : forall sched p0,
             length (workers p0) = 1%nat ->
             calls (runPool decode sched p0)
             ++ held (workers (runPool decode sched p0))
             ++ queue (runPool decode sched p0)
             = calls p0 ++ held (workers p0) ++ queue p0).
  { clear. induction sched as [|w sched IH]; intros p0 Hlen; [reflexivity|].
    simpl. fold (runPool decode sched (step decode p0 w)).
    rewrite IH by (rewrite step_workers_length; exact Hlen).
    destruct p0 as [qu ws d pe cs]. simpl in Hlen.
    destruct ws as [|a [|b ws]]; try discriminate.
    unfold step. simpl.
    destruct w as [|w]; simpl; [|reflexivity].
    destruct a as [|f|]; simpl.
    - destruct qu as [|f q0]; reflexivity.
    - destruct (processItem decode f d pe). simpl.
      rewrite <- app_assoc. reflexivity.
    - reflexivity. }
  assert (Hq : calls p ++ held (workers p) ++ queue p = q).
  { unfold p. rewrite Hinv by reflexivity. reflexivity. }
  split; [exact Hq|]. intros Hdone.
  destruct (pool_done decode 1 q dst sched ltac:(lia) Hdone) as [Hperm Hst].
  fold p in Hperm, Hst.
  assert (Hc : calls p = q).
  { pose proof (Permutation_length Hperm) as Hl.
    assert (Hl2 : length (calls p ++ held (workers p) ++ queue p) = length q)
      by (rewrite Hq; reflexivity).
    rewrite !length_app in Hl2.
    assert (Hnil : held (workers p) ++ queue p = []).
    { apply length_zero_iff_nil. rewrite length_app. lia. }
    rewrite Hnil, app_nil_r in Hq. exact Hq. }
  rewrite Hc in Hst.
  assert (Hd : dstImg p = fst (processAll decode q (dst, None)))
    by (rewrite <- Hst; reflexivity).
  assert (He : processError p = snd (processAll decode q (dst, None)))
    by (rewrite <- Hst; reflexivity).
  split; [exact Hc|]. split; [exact Hst|]. split; [|split; [|split]].
  - rewrite Hd. apply processAll_canvas.
  - intros pre f post img px py Hwf -> Hf Hcov Hpost. rewrite Hd.
    apply (At_processAll_last decode pre f post img (dst, None) px py Hwf Hf
             Hcov Hpost).
  - intros pre f post e -> Hf Hpost. rewrite He.
    apply (processAll_last_error decode pre f post e (dst, None) Hf Hpost).
  - intros Hok. rewrite He.
    apply (processAll_no_error decode q (dst, None) Hok).
Qed.

Lemma single_worker_is_sequential_witness :
  RGBAAt (dstImg (runPool (sampleDecode clashTiles) [0; 0; 0; 0; 0]%nat
                    (startPool 1 clashQueue clashCanvas))) 1 0 = blue /\
  processError (runPool (sampleDecode twoFailTiles)
                  [0; 0; 0; 0; 0; 0; 0; 0; 0]%nat
                  (startPool 1 twoFailQueue (NewRGBA (Rect 0 0 4 1))))
  = Some (PngDecodeFail "t2").
Proof.
  split.
  - pose proof (proj2 (single_worker_is_sequential (sampleDecode clashTiles)
                         clashQueue clashCanvas [0; 0; 0; 0; 0]%nat) eq_refl)
      as (_ & _ & _ & H & _).
    apply (H [QueueItem.mk "t0" 0 0] (QueueItem.mk "t1" 1 0) []
             (solid 1 1 blue) 1 0
             (wf_NewRGBA (Rect 0 0 2 1) ltac:(vm_compute; discriminate)
                         ltac:(vm_compute; discriminate))
             eq_refl eq_refl eq_refl).
    intros g gimg [].
  - pose proof (proj2 (single_worker_is_sequential (sampleDecode twoFailTiles)
                         twoFailQueue (NewRGBA (Rect 0 0 4 1))
                         [0; 0; 0; 0; 0; 0; 0; 0; 0]%nat) eq_refl)
      as (_ & _ & _ & _ & H & _).
    apply (H [QueueItem.mk "t0" 0 0; QueueItem.mk "t1" 1 0]
             (QueueItem.mk "t2" 2 0) [QueueItem.mk "t3" 3 0]
             (PngDecodeFail "t2") eq_refl eq_refl).
    intros g [<-|[]]. exists (solid 1 1 green). reflexivity.
Defined.

(** ** The canvas during a run *)

Lemma run_canvas decode nthreads q dst sched :
  wfRGBA dst ->
  let p := runPool decode sched (startPool nthreads q dst) in
  dstImg p = fst (processAll decode (calls p) (dst, None)) /\
  wfRGBA (dstImg p) /\ RGBARect (dstImg p) = RGBARect dst /\
  (forall f, In f (calls p) -> In f q).
Proof.
  intros Hwf p.
  destruct (run_inv decode q dst sched _ (start_inv decode nthreads q dst))
    as (Hperm & Hst & _).
  fold p in Hperm, Hst.
  assert (E : dstImg p = fst (processAll decode (calls p) (dst, None)))
    by (rewrite <- Hst; reflexivity).
  destruct (processAll_keeps decode (calls p) (dst, None) Hwf) as [W R].
  split; [exact E|]. rewrite E. split; [exact W|]. split; [exact R|].
  intros f Hin. eapply Permutation_in; [exact Hperm|].
  apply in_or_app. left. exact Hin.
Qed.

Lemma Rect_origin_size W H :
  Dx (Rect 0 0 W H) = Z.abs W /\ Dy (Rect 0 0 W H) = Z.abs H.
Proof.
  unfold Rect, Dx, Dy.
  destruct (W <? 0) eqn:EW; destruct (H <? 0) eqn:EH; simpl;
    rewrite ?Z.ltb_lt, ?Z.ltb_ge in *; lia.
Qed.

Lemma At_NewRGBA r x y : RGBAAt (NewRGBA r) x y = transparent.
Proof.
  unfold RGBAAt, NewRGBA. simpl.
  destruct (PtIn x y r); [|reflexivity].
  destruct (replicate _ transparent !! _) as [c|] eqn:Hc; [|reflexivity].
  apply lookup_replicate in Hc. destruct Hc as [-> _]. reflexivity.
Qed.

(** The canvas keeps the rectangle and the size that [width] and
    [height] of the descriptor gave it, at every moment of every run: no
    tile, whatever its size and its place in the grid, makes it grow or
    move, and neither the grid nor the tiles have a say in its size.  A
    negative [width] or [height] gives the rectangle from that value to
    0. *)
Theorem canvas_size_fixed decode nthreads q W H sched :
  let p := runPool decode sched
             (startPool nthreads q (NewRGBA (Rect 0 0 W H))) in
  RGBARect (dstImg p) = Rect 0 0 W H /\
  Stride (dstImg p) = Z.abs W /\
  length (Pix (dstImg p)) = Z.to_nat (Z.abs W * Z.abs H).
Proof.
  intros p.
  assert (Hwf : wfRGBA (NewRGBA (Rect 0 0 W H)))
    by (apply wf_NewRGBA; apply Rect_bounds).
  destruct (run_canvas decode nthreads q _ sched Hwf) as (_ & Hw & Hr & _).
  fold p in Hw, Hr. simpl in Hr.
  destruct Hw as (Hs & _ & _ & Hl). rewrite Hr in Hs, Hl.
  destruct (Rect_origin_size W H) as [Ex Ey]. rewrite Ex in Hs, Hl.
  rewrite Ey in Hl. auto.
Qed.

(** A pixel of the canvas that no decoded tile of the list covers is
    transparent black at every moment of every run. *)
Theorem uncovered_pixel_stays_transparent decode nthreads q W H sched px py :
  (forall f img,
      In f q -> decode (QueueItem.hevcFile f) = inl img ->
      covers f img (Rect 0 0 W H) px py = false) ->
  RGBAAt (dstImg (runPool decode sched
                    (startPool nthreads q (NewRGBA (Rect 0 0 W H))))) px py
  = transparent.
Proof.
  intros Hno.
  assert (Hwf : wfRGBA (NewRGBA (Rect 0 0 W H)))
    by (apply wf_NewRGBA; apply Rect_bounds).
  destruct (run_canvas decode nthreads q _ sched Hwf) as (E & _ & _ & Hin).
  rewrite E. rewrite At_processAll_out.
  - apply At_NewRGBA.
  - exact Hwf.
  - intros f img Hf Hd. apply Hno; auto.
Qed.

Lemma uncovered_pixel_stays_transparent_witness :
  RGBAAt (dstImg (runPool (sampleDecode twoByOne) [0; 0; 0; 0; 0]%nat
                    (startPool 1 (specJobs 2 files2x1)
                       (NewRGBA (Rect 0 0 5 3))))) 4 1
  = transparent.
Proof.
  apply (uncovered_pixel_stays_transparent (sampleDecode twoByOne) 1
           (specJobs 2 files2x1) 5 3 [0; 0; 0; 0; 0]%nat 4 1).
  intros f img [<-|[<-|[]]] [= <-]; reflexivity.
Defined.

Lemma no_worker_no_work decode nthreads q dst sched :
  nthreads <= 0 ->
  let p := runPool decode sched (startPool nthreads q dst) in
  allDone p = true /\ calls p = [] /\ queue p = q /\
  dstImg p = dst /\ processError p = None.
Proof.
  intros Hn p.
  assert (Hidle : forall s p0, workers p0 = [] -> runPool decode s p0 = p0).
  { induction s as [|w s IH]; intros p0 Hw; [reflexivity|]. simpl.
    assert (step decode p0 w = p0) as ->; [|apply IH, Hw].
    unfold step. rewrite Hw. reflexivity. }
  assert (Hp : p = startPool nthreads q dst).
  { unfold p. apply Hidle. unfold startPool. simpl.
    replace (Z.to_nat nthreads) with 0%nat by lia. reflexivity. }
  rewrite Hp. unfold startPool.
  replace (Z.to_nat nthreads) with 0%nat by lia. repeat split.
Qed.

(** ** A grid in which some tiles fail *)

(** Columns [cols >= 1], every tile that decodes is [w] by [h] pixels,
    a pool of at least one worker: when [wg.Wait] returns, the block of
    the file at index [k] shows that tile where it decoded and is left
    transparent where the decoder failed; a tile that fails does not
    disturb any other block. *)
Theorem failed_tile_leaves_hole decode info files q w h nthreads sched :
  1 <= Cols info -> 0 < w -> 0 < h ->
  (forall f img, In f files -> decode f = inl img ->
                 Bounds img = mkRectangle (mkPoint 0 0) (mkPoint w h)) ->
  Z.of_nat (length files) <= GoInt.maxInt ->
  Cols info * w <= GoInt.maxInt ->
  Z.of_nat (length files) * h <= GoInt.maxInt ->
  buildQueue info files = Some q ->
  1 <= nthreads ->
  let p := runPool decode sched
             (startPool nthreads q
                (NewRGBA (Rect 0 0 (Width info) (Height info)))) in
  allDone p = true ->
  forall k f px py,
    files !! k = Some f -> 0 <= px < w -> 0 <= py < h ->
    PtIn (Z.of_nat k mod Cols info * w + px) (Z.of_nat k / Cols info * h + py)
         (Rect 0 0 (Width info) (Height info)) = true ->
    RGBAAt (dstImg p) (Z.of_nat k mod Cols info * w + px)
                      (Z.of_nat k / Cols info * h + py)
    = match decode f with
      | inl img => At img px py
      | inr _ => transparent
      end.
Proof.
  intros HC Hw Hh Hsame Hlen HfitX HfitN Hq Hn p Hdone k f px py Hk Hpx Hpy Hin.
  set (C := Cols info) in *.
  set (cb := Rect 0 0 (Width info) (Height info)) in *.
  assert (HfitY : forall i, (i < length files)%nat ->
                            Z.of_nat i / C * h + h <= GoInt.maxInt).
  { intros i Hi.
    assert (0 <= Z.of_nat i / C <= Z.of_nat i).
    { split; [apply Z.div_pos; lia|]. apply Z.div_le_upper_bound; nia. }
    unfold GoInt.maxInt in *. nia. }
  pose proof (grid_lookup C files q HC Hq Hlen) as Hlook.
  pose proof (grid_tileRect C w h files q HC Hw Hh Hq Hlen HfitX HfitY) as Hrect.
  pose proof (grid_covers C w h files q HC Hw Hh Hq Hlen HfitX HfitY) as Hcov.
  assert (Hwf : wfRGBA (NewRGBA cb)) by (apply wf_NewRGBA; apply Rect_bounds).
  destruct (pool_done decode nthreads q (NewRGBA cb) sched Hn Hdone)
    as [Hperm Hst].
  fold p in Hperm, Hst.
  assert (E : dstImg p = fst (processAll decode (calls p) (NewRGBA cb, None)))
    by (rewrite <- Hst; reflexivity).
  set (item := QueueItem.mk f (Z.of_nat k mod C) (Z.of_nat k / C)).
  assert (Hitem : q !! k = Some item) by (apply Hlook; eauto).
  (* an item whose tile covers the pixel is the item at index [k] *)
  assert (Honly : forall f' img',
             In f' q -> decode (QueueItem.hevcFile f') = inl img' ->
             covers f' img' cb (Z.of_nat k mod C * w + px)
                               (Z.of_nat k / C * h + py) = true ->
             f' = item).
  { intros f' img' Hin' Hd' Hc'.
    apply list_elem_of_In, list_elem_of_lookup in Hin'.
    destruct Hin' as [k' Hk'].
    pose proof Hk' as Hf'. apply Hlook in Hf'. destruct Hf' as (g & Hg & ->).
    simpl in Hd'.
    assert (Hb' : Bounds img' = mkRectangle (mkPoint 0 0) (mkPoint w h)).
    { apply (Hsame g); [|exact Hd'].
      apply list_elem_of_In, list_elem_of_lookup. eauto. }
    apply (Hcov k' _ img' cb _ _ Hk' Hb') in Hc'.
    destruct Hc' as [[Hx Hy] _].
    assert (Z.of_nat k mod C = Z.of_nat k' mod C) by nia.
    assert (Z.of_nat k / C = Z.of_nat k' / C) by nia.
    assert (k' = k).
    { pose proof (Z.div_mod (Z.of_nat k) C ltac:(lia)).
      pose proof (Z.div_mod (Z.of_nat k') C ltac:(lia)). nia. }
    subst k'. rewrite Hitem in Hk'. injection Hk' as <-. reflexivity. }
  rewrite E.
  destruct (decode f) as [img|e] eqn:Hd.
  - assert (Hb : Bounds img = mkRectangle (mkPoint 0 0) (mkPoint w h)).
    { apply (Hsame f); [|exact Hd].
      apply list_elem_of_In, list_elem_of_lookup. eauto. }
    assert (Hc : covers item img cb (Z.of_nat k mod C * w + px)
                                    (Z.of_nat k / C * h + py) = true).
    { apply (Hcov k item img cb _ _ Hitem Hb). split; [lia | exact Hin]. }
    rewrite (At_processAll_in decode (calls p) _ item img); auto.
    + unfold tilePixel. rewrite (Hrect k item img Hitem Hb). simpl.
      f_equal; lia.
    + eapply Permutation_in; [symmetry; exact Hperm|].
      apply list_elem_of_In, list_elem_of_lookup. eauto.
    + intros f' img' Hin' Hd' Hc'.
      assert (f' = item).
      { apply (Honly f' img'); auto.
        eapply Permutation_in; [exact Hperm | exact Hin']. }
      subst f'. unfold item in Hd'. simpl in Hd'. congruence.
  - rewrite At_processAll_out; [apply At_NewRGBA | exact Hwf |].
    intros f' img' Hin' Hd'.
    destruct (covers f' img' (RGBARect (fst (NewRGBA cb, @None Error)))
                (Z.of_nat k mod C * w + px) (Z.of_nat k / C * h + py))
      eqn:Hc'; [|reflexivity].
    exfalso.
    assert (f' = item).
    { apply (Honly f' img'); auto.
      eapply Permutation_in; [exact Hperm | exact Hin']. }
    subst f'. unfold item in Hd'. simpl in Hd'. congruence.
Qed.

Lemma failed_tile_leaves_hole_witness :
  RGBAAt (dstImg (runPool (sampleDecode brokenTiles)
                    [0; 1; 1; 0; 0; 1; 0; 0; 1]%nat
                    (startPool 2 brokenQueue (NewRGBA (Rect 0 0 3 1))))) 1 0
  = transparent /\
  RGBAAt (dstImg (runPool (sampleDecode brokenTiles)
                    [0; 1; 1; 0; 0; 1; 0; 0; 1]%nat
                    (startPool 2 brokenQueue (NewRGBA (Rect 0 0 3 1))))) 2 0
  = green.
Proof.
  assert (Hs : forall f img, In f (map fst brokenTiles) ->
                 sampleDecode brokenTiles f = inl img ->
                 Bounds img = mkRectangle (mkPoint 0 0) (mkPoint 1 1)).
  { intros f img [<-|[<-|[<-|[]]]] [= <-]; reflexivity. }
  pose proof (failed_tile_leaves_hole (sampleDecode brokenTiles)
                (mkHeifInfo 3 1 0 3 1 3) (map fst brokenTiles) brokenQueue
                1 1 2 [0; 1; 1; 0; 0; 1; 0; 0; 1]%nat
                ltac:(simpl; lia) ltac:(lia) ltac:(lia) Hs
                ltac:(unfold GoInt.maxInt; simpl; lia)
                ltac:(unfold GoInt.maxInt; simpl; lia)
                ltac:(unfold GoInt.maxInt; simpl; lia)
                eq_refl ltac:(lia) eq_refl) as H.
  split.
  - exact (H 1%nat "t1"%string 0 0 eq_refl ltac:(lia) ltac:(lia) eq_refl).
  - exact (H 2%nat "t2"%string 0 0 eq_refl ltac:(lia) ltac:(lia) eq_refl).
Defined.

(** ** [main] from the flags to the destination file *)

Lemma flags_ok w :
  0 <= pngCompression (argv w) <= 3 -> 0 <= jpegQuality (argv w) <= 100 ->
  (pngCompression (argv w) <? 0) || (3 <? pngCompression (argv w))
  || (jpegQuality (argv w) <? 0) || (100 <? jpegQuality (argv w)) = false.
Proof. intros. rewrite !orb_false_iff, !Z.ltb_ge. lia. Qed.

Lemma enqueue_length cols files : forall i q,
  enqueue cols i files = Some q -> length q = length files.
Proof.
  induction files as [|f files IH]; intros i q; simpl.
  - intros [= <-]. reflexivity.
  - destruct (GoInt.rem i cols); [|discriminate].
    destruct (GoInt.quo i cols); [|discriminate].
    destruct (enqueue cols (i + 1) files) as [q'|] eqn:Hq; [|discriminate].
    intros [= <-]. simpl. f_equal. eapply IH, Hq.
Qed.

(** [main] prints the usage text exactly when [-version] is not given
    and [-h] is, or a PNG level is outside 0..3, or a JPEG quality is
    outside 0..100, or fewer than two file names are given; and the
    version exactly when [-version] is given, whatever else is on the
    command line.  In both cases no tool has been run and no file has
    been touched. *)
Theorem usage_and_version w :
  (main w = PrintedVersion <-> version (argv w) = true) /\
  (main w = PrintedUsage <->
   version (argv w) = false /\
   (help (argv w) = true \/
    ~ (0 <= pngCompression (argv w) <= 3) \/
    ~ (0 <= jpegQuality (argv w) <= 100) \/
    (length (args w) < 2)%nat)).
Proof.
  unfold main, heif2hevc. cbv zeta.
  destruct (version (argv w)) eqn:Hv.
  { split; [split; auto | split; [discriminate | intros [? _]; discriminate]]. }
  destruct (help (argv w)) eqn:Hh.
  { split; [split; discriminate | split; auto]. }
  destruct ((pngCompression (argv w) <? 0) || (3 <? pngCompression (argv w))
            || (jpegQuality (argv w) <? 0) || (100 <? jpegQuality (argv w)))
    eqn:Hf.
  { split; split; try discriminate; [|auto]. intros _. split; [reflexivity|].
    right. rewrite !orb_true_iff, !Z.ltb_lt in Hf. lia. }
  rewrite !orb_false_iff, !Z.ltb_ge in Hf.
  destruct (args w) as [|srcFile [|dstFile rest]] eqn:Ha.
  { split; split; try discriminate; [|auto]. intros _. split; [reflexivity|].
    simpl. right. right. right. lia. }
  { split; split; try discriminate; [|auto]. intros _. split; [reflexivity|].
    simpl. right. right. right. lia. }
  destruct (heifGetInfo (runInfo w srcFile));
    [|split; split; try discriminate;
      intros (_ & [H|[H|[H|H]]]); [discriminate | lia | lia | simpl in H; lia]].
  destruct (runExtract w srcFile dstFile);
    [|split; split; try discriminate;
      intros (_ & [H|[H|[H|H]]]); [discriminate | lia | lia | simpl in H; lia]].
  destruct (buildQueue _ _);
    [|split; split; try discriminate;
      intros (_ & [H|[H|[H|H]]]); [discriminate | lia | lia | simpl in H; lia]].
  destruct (allDone _);
    [|split; split; try discriminate;
      intros (_ & [H|[H|[H|H]]]); [discriminate | lia | lia | simpl in H; lia]].
  destruct (encodeStep _ _ _ _).
  split; split; try discriminate;
    intros (_ & [H|[H|[H|H]]]); [discriminate | lia | lia | simpl in H; lia].
Qed.

(** A failed tool ends the run with a panic.  When [heif2hevc -info]
    fails, the extraction is not started and nothing is removed; when
    the extraction fails, the tile files it has left are removed.  In
    both cases no tile is decoded and the destination is not created. *)
Theorem tool_failure_is_fatal w srcFile dstFile rest :
  version (argv w) = false -> help (argv w) = false ->
  0 <= pngCompression (argv w) <= 3 -> 0 <= jpegQuality (argv w) <= 100 ->
  args w = srcFile :: dstFile :: rest ->
  (forall err, runInfo w srcFile = RunFailed err ->
               main w = Panicked (PanicError ExecInfoFail) []) /\
  (forall out, runInfo w srcFile = RunOK out ->
               runExtract w srcFile dstFile = false ->
               main w = Panicked (PanicError ExecExtractFail)
                                 (globTmp w dstFile)).
Proof.
  intros Hv Hh Hp Hj Ha. pose proof (flags_ok w Hp Hj) as Hf.
  split.
  - intros err Hi. unfold main, heifGetInfo. cbv zeta.
    rewrite Hv, Hh, Hf, Ha, Hi. reflexivity.
  - intros out Hi He. unfold main, heifGetInfo, heif2hevc. cbv zeta.
    rewrite Hv, Hh, Hf, Ha, Hi, He. reflexivity.
Qed.

Lemma tool_failure_is_fatal_witness :
  main infoFailWorld = Panicked (PanicError ExecInfoFail) [] /\
  main extractFailWorld
  = Panicked (PanicError ExecExtractFail) ["a.png.7.tmp0"%string].
Proof.
  split.
  - exact (proj1 (tool_failure_is_fatal infoFailWorld
                    "a.heic"%string "a.png"%string []
                    eq_refl eq_refl ltac:(simpl; lia) ltac:(simpl; lia) eq_refl)
             (B "no such file") eq_refl).
  - exact (proj2 (tool_failure_is_fatal extractFailWorld
                    "a.heic"%string "a.png"%string []
                    eq_refl eq_refl ltac:(simpl; lia) ltac:(simpl; lia) eq_refl)
             (B "") eq_refl eq_refl).
Defined.

(** Once the info tool has succeeded, every way in which [main] ends
    (the panic of a failed extraction, the panic of the division by
    zero, the normal return with or without messages) removes exactly
    the files that the glob for the temporary name found. *)
Theorem temp_files_always_removed w srcFile dstFile rest out :
  version (argv w) = false -> help (argv w) = false ->
  0 <= pngCompression (argv w) <= 3 -> 0 <= jpegQuality (argv w) <= 100 ->
  args w = srcFile :: dstFile :: rest ->
  runInfo w srcFile = RunOK out ->
  main w = Waiting \/
  (exists v, main w = Panicked v (globTmp w dstFile)) \/
  (exists fin, main w = Returned fin /\ removed fin = globTmp w dstFile).
Proof.
  intros Hv Hh Hp Hj Ha Hi. pose proof (flags_ok w Hp Hj) as Hf.
  unfold main, heifGetInfo, heif2hevc. cbv zeta.
  rewrite Hv, Hh, Hf, Ha, Hi.
  destruct (runExtract w srcFile dstFile); [|right; left; eauto].
  destruct (buildQueue _ _); [|right; left; eauto].
  destruct (allDone _); [|left; reflexivity].
  destruct (encodeStep _ _ _ _). right. right. eexists. split; reflexivity.
Qed.

Lemma temp_files_always_removed_witness :
  main (sampleWorld "width=4
height=2
tiles=2
" twoByOne "out.png" 1 [0; 0; 0; 0; 0]%nat) = Waiting \/
  (exists v, main (sampleWorld "width=4
height=2
tiles=2
" twoByOne "out.png" 1 [0; 0; 0; 0; 0]%nat)
             = Panicked v ["t0"%string; "t1"%string]) \/
  (exists fin, main (sampleWorld "width=4
height=2
tiles=2
" twoByOne "out.png" 1 [0; 0; 0; 0; 0]%nat) = Returned fin /\
               removed fin = ["t0"%string; "t1"%string]).
Proof.
  exact (temp_files_always_removed
           (sampleWorld "width=4
height=2
tiles=2
" twoByOne "out.png" 1 [0; 0; 0; 0; 0]%nat)
           "src.heic"%string "out.png"%string [] (B "width=4
height=2
tiles=2
") eq_refl eq_refl ltac:(simpl; lia) ltac:(simpl; lia) eq_refl eq_refl).
Defined.

(** Whatever the world, the goroutines can be run in an order under
    which [main] comes to its end: with a panic, the usage or version
    text, or the normal return. *)
Theorem main_ends_under_some_schedule w :
  exists sched, main (withSchedule sched w) <> Waiting.
Proof.
  destruct (args w) as [|srcFile [|dstFile rest]] eqn:Ha.
  - exists []. unfold main, withSchedule. cbv zeta. simpl. rewrite Ha.
    destruct (version (argv w)); [discriminate|].
    destruct (help (argv w)); [discriminate|].
    destruct (_ || _); discriminate.
  - exists []. unfold main, withSchedule. cbv zeta. simpl. rewrite Ha.
    destruct (version (argv w)); [discriminate|].
    destruct (help (argv w)); [discriminate|].
    destruct (_ || _); discriminate.
  - exists (oneByOne (Z.to_nat (threads (argv w)))
                     (length (globTmp w dstFile))).
    unfold main, withSchedule, heif2hevc. cbv zeta. simpl. rewrite Ha.
    destruct (version (argv w)); [discriminate|].
    destruct (help (argv w)); [discriminate|].
    destruct (_ || _); [discriminate|].
    destruct (heifGetInfo (runInfo w srcFile)) as [info|]; [|discriminate].
    destruct (runExtract w srcFile dstFile); [|discriminate].
    destruct (buildQueue (fixup info) (globTmp w dstFile)) as [q|] eqn:Hq;
      [|discriminate].
    unfold buildQueue in Hq. apply enqueue_length in Hq. rewrite <- Hq.
    rewrite pool_terminates.
    destruct (encodeStep _ _ _ _). discriminate.
Qed.

(** With [-threads 0] (or less), and a canvas whose buffer length
    [4 * Dx * Dy] fits an [int]: no worker is started, [wg.Wait]
    returns at once, [hevc2Image] is not called for any tile and no
    decode message is printed.  [main] returns; what it has printed and
    what the destination holds are those of the encoding step run on the
    canvas as [image.NewRGBA] made it, every pixel transparent, rotated
    if the descriptor says so.  For a destination that can be created:
    with a PNG extension the file holds what the PNG encoder wrote for
    that canvas and the only message possible is the one of a failed
    encoding; with an extension that is not supported the file is left
    empty and the message about the extension is printed. *)
Theorem no_worker_blank_output w srcFile dstFile rest out q :
  version (argv w) = false -> help (argv w) = false ->
  0 <= pngCompression (argv w) <= 3 -> 0 <= jpegQuality (argv w) <= 100 ->
  args w = srcFile :: dstFile :: rest ->
  runInfo w srcFile = RunOK out ->
  runExtract w srcFile dstFile = true ->
  buildQueue (fixup (parseInfo out)) (globTmp w dstFile) = Some q ->
  threads (argv w) <= 0 ->
  let info := fixup (parseInfo out) in
  let r := Rect 0 0 (Width info) (Height info) in
  4 * Dx r * Dy r <= GoInt.maxInt ->
  let blank := NewRGBA r in
  let p := runPool (hevc2Image (ffmpeg w) (pngDecode w)) (schedule w)
             (startPool (threads (argv w)) q blank) in
  let img := postprocess (Rotate w) info blank in
  let lvl := GoInt.neg (pngCompression (argv w)) in
  let enc := encodeStep w lvl dstFile img in
  (allDone p = true /\ calls p = [] /\ dstImg p = blank) /\
  (forall px py, RGBAAt blank px py = transparent) /\
  main w = Returned (mkFinal (fst enc) (snd enc) (globTmp w dstFile)) /\
  (osCreate w dstFile = true -> formatOf dstFile = FormatPNG ->
   main w = Returned
              (mkFinal (if snd (pngEncode w lvl img) then []
                        else [MsgCannotWrite])
                       (Some (fst (pngEncode w lvl img)))
                       (globTmp w dstFile))) /\
  (osCreate w dstFile = true -> formatOf dstFile = FormatUnsupported ->
   main w = Returned (mkFinal [MsgUnsupportedExt] (Some [])
                              (globTmp w dstFile))).
Proof.
  intros Hv Hh Hp Hj Ha Hi He Hq Ht info r Hfit blank p img lvl enc.
  destruct (no_worker_no_work (hevc2Image (ffmpeg w) (pngDecode w))
              (threads (argv w)) q blank (schedule w) Ht)
    as (Hdone & Hcalls & _ & Hdst & _).
  fold p in Hdone, Hcalls, Hdst.
  assert (Hmain : main w
                  = Returned (mkFinal (fst enc) (snd enc) (globTmp w dstFile))).
  { rewrite (main_returns w srcFile dstFile rest out q
               Hv Hh Hp Hj Ha Hi He Hq Hdone).
    fold info. fold r. fold blank. fold p. rewrite Hcalls, Hdst. reflexivity. }
  split; [auto|]. split; [intros px py; apply At_NewRGBA|].
  split; [exact Hmain|]. split.
  - intros Hc Hf. rewrite Hmain. unfold enc, encodeStep. rewrite Hc, Hf.
    destruct (pngEncode w lvl img) as [o ok]. reflexivity.
  - intros Hc Hf. rewrite Hmain. unfold enc, encodeStep. rewrite Hc, Hf.
    reflexivity.
Qed.

Lemma no_worker_blank_output_witness :
  main (sampleWorld "width=2
height=1
tiles=2
rows=1
cols=2
" twoByOne "out.png" 0 [0; 0; 0; 0; 0]%nat)
  = Returned (mkFinal []
       (Some (rawBytes (mkRGBA [transparent; transparent] 2
                          (mkRectangle (mkPoint 0 0) (mkPoint 2 1)))))
       ["t0"%string; "t1"%string]) /\
  main (sampleWorld "width=2
height=1
tiles=2
rows=1
cols=2
" twoByOne "out.bmp" (-1) [0; 0; 0; 0; 0]%nat)
  = Returned (mkFinal [MsgUnsupportedExt] (Some [])
                      ["t0"%string; "t1"%string]).
Proof.
  split.
  - exact (proj1 (proj2 (proj2 (proj2 (no_worker_blank_output
           (sampleWorld "width=2
height=1
tiles=2
rows=1
cols=2
" twoByOne "out.png" 0 [0; 0; 0; 0; 0]%nat)
           "src.heic"%string "out.png"%string [] (B "width=2
height=1
tiles=2
rows=1
cols=2
") (specJobs 2 files2x1)
           eq_refl eq_refl ltac:(simpl; lia) ltac:(simpl; lia)
           eq_refl eq_refl eq_refl eq_refl ltac:(simpl; lia)
           ltac:(vm_compute; discriminate))))) eq_refl eq_refl).
  - exact (proj2 (proj2 (proj2 (proj2 (no_worker_blank_output
           (sampleWorld "width=2
height=1
tiles=2
rows=1
cols=2
" twoByOne "out.bmp" (-1) [0; 0; 0; 0; 0]%nat)
           "src.heic"%string "out.bmp"%string [] (B "width=2
height=1
tiles=2
rows=1
cols=2
") (specJobs 2 files2x1)
           eq_refl eq_refl ltac:(simpl; lia) ltac:(simpl; lia)
           eq_refl eq_refl eq_refl eq_refl ltac:(simpl; lia)
           ltac:(vm_compute; discriminate))))) eq_refl eq_refl).
Defined.

Lemma decodeMsgs_perm decode cs cs' :
  Permutation cs cs' ->
  Permutation (decodeMsgs decode cs) (decodeMsgs decode cs').
Proof. intros H. unfold decodeMsgs. apply Permutation_flat_map, H. Qed.

Lemma decodeMsgs_nil decode cs :
  (forall f, In f cs -> exists img, decode (QueueItem.hevcFile f) = inl img) ->
  decodeMsgs decode cs = [].
Proof.
  induction cs as [|f cs IH]; intros Hok; [reflexivity|].
  unfold decodeMsgs in *. simpl.
  destruct (Hok f) as [img ->]; [left; reflexivity|]. simpl.
  apply IH. intros g Hg. apply Hok. right. exact Hg.
Qed.

(** A run with at least one worker that comes to its end has printed
    one [ffmpeg fail] line for each tile file on which the decoder
    failed, in some order, before the messages of the encoding step. *)
Theorem one_message_per_failed_tile w srcFile dstFile rest out q :
  version (argv w) = false -> help (argv w) = false ->
  0 <= pngCompression (argv w) <= 3 -> 0 <= jpegQuality (argv w) <= 100 ->
  args w = srcFile :: dstFile :: rest ->
  runInfo w srcFile = RunOK out ->
  runExtract w srcFile dstFile = true ->
  buildQueue (fixup (parseInfo out)) (globTmp w dstFile) = Some q ->
  1 <= threads (argv w) ->
  main w <> Waiting ->
  exists fin msgs encMsgs,
    main w = Returned fin /\
    stderr fin = msgs ++ encMsgs /\
    Permutation msgs (decodeMsgs (hevc2Image (ffmpeg w) (pngDecode w)) q) /\
    (encMsgs = [] \/ encMsgs = [MsgCannotCreate] \/
     encMsgs = [MsgCannotWrite] \/ encMsgs = [MsgUnsupportedExt]).
Proof.
  intros Hv Hh Hp Hj Ha Hi He Hq Ht Hend.
  set (info := fixup (parseInfo out)).
  set (decode := hevc2Image (ffmpeg w) (pngDecode w)).
  set (p := runPool decode (schedule w)
              (startPool (threads (argv w)) q
                 (NewRGBA (Rect 0 0 (Width info) (Height info))))).
  assert (Hdone : allDone p = true).
  { destruct (allDone p) eqn:Hd; [reflexivity|]. exfalso. apply Hend.
    pose proof (flags_ok w Hp Hj) as Hf.
    unfold main, heifGetInfo, heif2hevc. cbv zeta.
    rewrite Hv, Hh, Hf, Ha, Hi, He, Hq.
    fold info. fold decode. fold p. rewrite Hd. reflexivity. }
  rewrite (main_returns w srcFile dstFile rest out q Hv Hh Hp Hj Ha Hi He Hq Hdone).
  fold info. fold decode. fold p.
  eexists. exists (decodeMsgs decode (calls p)). eexists.
  split; [reflexivity|]. split; [reflexivity|]. split.
  - apply decodeMsgs_perm.
    apply (pool_done decode (threads (argv w)) q _ (schedule w) Ht Hdone).
  - unfold encodeStep. destruct (osCreate w dstFile); [|auto].
    destruct (formatOf dstFile).
    + destruct (pngEncode w _ _) as [o []]; simpl; auto.
    + destruct (jpegEncode w _ _) as [o []]; simpl; auto.
    + simpl. auto.
Qed.

Lemma one_message_per_failed_tile_witness :
  exists fin msgs encMsgs,
    main (sampleWorld "width=3
height=1
tiles=3
rows=1
cols=3
" brokenTiles "out.jpg" 2 [0; 1; 1; 0; 0; 1; 0; 0; 1]%nat) = Returned fin /\
    stderr fin = msgs ++ encMsgs /\
    Permutation msgs [MsgFfmpegFail "t1"] /\
    (encMsgs = [] \/ encMsgs = [MsgCannotCreate] \/
     encMsgs = [MsgCannotWrite] \/ encMsgs = [MsgUnsupportedExt]).
Proof.
  exact (one_message_per_failed_tile
           (sampleWorld "width=3
height=1
tiles=3
rows=1
cols=3
" brokenTiles "out.jpg" 2 [0; 1; 1; 0; 0; 1; 0; 0; 1]%nat)
           "src.heic"%string "out.jpg"%string [] (B "width=3
height=1
tiles=3
rows=1
cols=3
") brokenQueue
           eq_refl eq_refl ltac:(simpl; lia) ltac:(simpl; lia)
           eq_refl eq_refl eq_refl eq_refl ltac:(simpl; lia)
           ltac:(vm_compute; discriminate)).
Defined.

(** Tiles of one size, [cols >= 1], at least one worker: the run that
    comes to its end prints no decode message, its standard error is
    what the encoding step prints (nothing, or the one message of a
    destination that cannot be created, of a failed encoding or of an
    unsupported extension), and the destination is left as the encoding
    step leaves it for the canvas on which the tiles have been drawn one
    after the other in the order of the list, rotated as the descriptor
    says.  The number of workers and the order in which they ran do not
    show in the result. *)
Theorem output_is_sequential_assembly w srcFile dstFile rest out q tw th :
  version (argv w) = false -> help (argv w) = false ->
  0 <= pngCompression (argv w) <= 3 -> 0 <= jpegQuality (argv w) <= 100 ->
  args w = srcFile :: dstFile :: rest ->
  runInfo w srcFile = RunOK out ->
  runExtract w srcFile dstFile = true ->
  buildQueue (fixup (parseInfo out)) (globTmp w dstFile) = Some q ->
  1 <= Cols (fixup (parseInfo out)) -> 0 < tw -> 0 < th ->
  UniformTiles (hevc2Image (ffmpeg w) (pngDecode w)) (globTmp w dstFile) tw th ->
  Z.of_nat (length (globTmp w dstFile)) <= GoInt.maxInt ->
  Cols (fixup (parseInfo out)) * tw <= GoInt.maxInt ->
  Z.of_nat (length (globTmp w dstFile)) * th <= GoInt.maxInt ->
  1 <= threads (argv w) ->
  main w <> Waiting ->
  let info := fixup (parseInfo out) in
  let decode := hevc2Image (ffmpeg w) (pngDecode w) in
  let canvas :=
    fst (processAll decode q
           (NewRGBA (Rect 0 0 (Width info) (Height info)), None)) in
  let enc := encodeStep w (GoInt.neg (pngCompression (argv w))) dstFile
               (postprocess (Rotate w) info canvas) in
  main w = Returned (mkFinal (fst enc) (snd enc) (globTmp w dstFile)) /\
  canvas = fold_left (drawDecoded decode) q
             (NewRGBA (Rect 0 0 (Width info) (Height info))) /\
  (fst enc = [] \/ fst enc = [MsgCannotCreate] \/
   fst enc = [MsgCannotWrite] \/ fst enc = [MsgUnsupportedExt]).
Proof.
  intros Hv Hh Hp Hj Ha Hi He Hq HC Hw Hth Huni Hlen HfitX HfitN Ht Hend
         info decode canvas enc.
  split; [|split; [apply processAll_canvas|]];
    [|unfold enc, encodeStep; destruct (osCreate w dstFile); [|auto];
      destruct (formatOf dstFile);
      [destruct (pngEncode w _ _) as [o []]; simpl; auto
      |destruct (jpegEncode w _ _) as [o []]; simpl; auto
      |simpl; auto]].
  change (1 <= Cols info) in HC. change (Cols info * tw <= GoInt.maxInt) in HfitX.
  change (UniformTiles decode (globTmp w dstFile) tw th) in Huni.
  set (blank := NewRGBA (Rect 0 0 (Width info) (Height info))).
  set (p := runPool decode (schedule w) (startPool (threads (argv w)) q blank)).
  assert (Hdone : allDone p = true).
  { destruct (allDone p) eqn:Hd; [reflexivity|]. exfalso. apply Hend.
    pose proof (flags_ok w Hp Hj) as Hf.
    unfold main, heifGetInfo, heif2hevc. cbv zeta.
    rewrite Hv, Hh, Hf, Ha, Hi, He, Hq.
    fold info. fold decode. fold blank. fold p. rewrite Hd. reflexivity. }
  rewrite (main_returns w srcFile dstFile rest out q Hv Hh Hp Hj Ha Hi He Hq Hdone).
  fold info. fold decode. fold blank. fold p.
  assert (Hwf : wfRGBA blank) by (apply wf_NewRGBA; apply Rect_bounds).
  destruct (pool_done decode (threads (argv w)) q blank (schedule w) Ht Hdone)
    as [Hperm Hst].
  fold p in Hperm, Hst.
  assert (HfitY : forall k, (k < length (globTmp w dstFile))%nat ->
                            Z.of_nat k / Cols info * th + th <= GoInt.maxInt).
  { intros k Hk.
    assert (0 <= Z.of_nat k / Cols info <= Z.of_nat k).
    { split; [apply Z.div_pos; lia|]. apply Z.div_le_upper_bound; nia. }
    unfold GoInt.maxInt in *. nia. }
  assert (Hmsgs : decodeMsgs decode (calls p) = []).
  { apply decodeMsgs_nil. intros f Hf.
    assert (Hfq : In f q) by (eapply Permutation_in; eassumption).
    apply list_elem_of_In, list_elem_of_lookup in Hfq. destruct Hfq as [k Hk].
    destruct (grid_decodes decode (Cols info) tw th (globTmp w dstFile) q
                HC Hq Huni Hlen k f Hk) as (img & Hd & _).
    eauto. }
  assert (Hcanvas : dstImg p = canvas).
  { replace (dstImg p) with (fst (processAll decode (calls p) (blank, None)))
      by (rewrite <- Hst; reflexivity).
    apply processAll_order; [exact Hwf | exact Hperm |].
    eapply DisjointTiles_perm; [symmetry; exact Hperm|].
    apply (grid_disjoint decode (Cols info) tw th (globTmp w dstFile) q
             HC Hw Hth Hq Huni Hlen HfitX HfitY). }
  rewrite Hmsgs, Hcanvas. reflexivity.
Qed.

Lemma output_is_sequential_assembly_witness :
  main (sampleWorld "width=6
height=6
tiles=9
rows=3
cols=3
" threeByThree "out.png" 4 (crossed 4))
  = Returned
      (mkFinal []
         (Some (rawBytes
                  (fst (processAll (sampleDecode threeByThree)
                          (specJobs 3 (map fst threeByThree))
                          (NewRGBA (Rect 0 0 6 6), None)))))
         (map fst threeByThree)).
Proof.
  assert (Hu : UniformTiles (sampleDecode threeByThree)
                 (map fst threeByThree) 2 2).
  { intros f Hf. simpl in Hf.
    repeat (destruct Hf as [<-|Hf]; [eexists; split; reflexivity|]).
    destruct Hf. }
  etransitivity; [|vm_compute; reflexivity].
  refine (proj1 (output_is_sequential_assembly
           (sampleWorld "width=6
height=6
tiles=9
rows=3
cols=3
" threeByThree "out.png" 4 (crossed 4))
           "src.heic"%string "out.png"%string [] (B "width=6
height=6
tiles=9
rows=3
cols=3
") (specJobs 3 (map fst threeByThree)) 2 2
           eq_refl eq_refl ltac:(simpl; lia) ltac:(simpl; lia)
           eq_refl eq_refl eq_refl eq_refl
           ltac:(vm_compute; discriminate) ltac:(lia) ltac:(lia) Hu
           ltac:(vm_compute; discriminate) ltac:(vm_compute; discriminate)
           ltac:(vm_compute; discriminate) ltac:(simpl; lia)
           ltac:(vm_compute; discriminate))).
Defined.

(** What the encoders are given.  For a [.png] destination that can be
    created, the PNG encoder gets the level [-c] for the flag value [c]
    in 0..3 (0, -1, -2, -3: default, none, fastest, best) and its bytes
    are the file; for [.jpg] and [.jpeg] the JPEG encoder gets the
    quality flag as it is.  When the encoder fails, what it wrote stays
    in the file, one message is printed and [main] still returns. *)
Theorem encoder_parameters w srcFile dstFile rest out q :
  version (argv w) = false -> help (argv w) = false ->
  0 <= pngCompression (argv w) <= 3 -> 0 <= jpegQuality (argv w) <= 100 ->
  args w = srcFile :: dstFile :: rest ->
  runInfo w srcFile = RunOK out ->
  runExtract w srcFile dstFile = true ->
  buildQueue (fixup (parseInfo out)) (globTmp w dstFile) = Some q ->
  osCreate w dstFile = true ->
  let info := fixup (parseInfo out) in
  let decode := hevc2Image (ffmpeg w) (pngDecode w) in
  let p := runPool decode (schedule w)
             (startPool (threads (argv w)) q
                (NewRGBA (Rect 0 0 (Width info) (Height info)))) in
  let img := postprocess (Rotate w) info (dstImg p) in
  allDone p = true ->
  (formatOf dstFile = FormatPNG ->
   let '(bytes, ok) := pngEncode w (- pngCompression (argv w)) img in
   main w = Returned
              (mkFinal (decodeMsgs decode (calls p)
                        ++ (if ok then [] else [MsgCannotWrite]))
                       (Some bytes) (globTmp w dstFile))) /\
  (formatOf dstFile = FormatJPEG ->
   let '(bytes, ok) := jpegEncode w (jpegQuality (argv w)) img in
   main w = Returned
              (mkFinal (decodeMsgs decode (calls p)
                        ++ (if ok then [] else [MsgCannotWrite]))
                       (Some bytes) (globTmp w dstFile))).
Proof.
  intros Hv Hh Hp Hj Ha Hi He Hq Hc info decode p img Hdone.
  pose proof (main_returns w srcFile dstFile rest out q Hv Hh Hp Hj Ha Hi He
                Hq Hdone) as Hm.
  fold info in Hm. fold decode in Hm. fold p in Hm. fold img in Hm.
  assert (Hneg : GoInt.neg (pngCompression (argv w))
                 = - pngCompression (argv w)).
  { unfold GoInt.neg. apply wrap_id.
    unfold GoInt.minInt, GoInt.maxInt. lia. }
  rewrite Hneg in Hm. unfold encodeStep in Hm. rewrite Hc in Hm.
  split; intros Hf; rewrite Hf in Hm.
  - destruct (pngEncode w (- pngCompression (argv w)) img) as [bytes ok].
    exact Hm.
  - destruct (jpegEncode w (jpegQuality (argv w)) img) as [bytes ok].
    exact Hm.
Qed.

Lemma encoder_parameters_witness :
  main (mkWorld (mkArgv false false 3 90 1)
          ["src.heic"%string; "out.PNG"%string]
          (fun _ => RunOK (B "width=1
height=1
tiles=1
")) (fun _ _ => true) (fun _ => ["t0"%string]) (fun f => RunOK (B f))
          (fun _ => Some (solid 1 1 red)) [0; 0; 0]%nat (fun img _ => img)
          (fun _ => true)
          (fun lvl img => (if lvl =? -3 then rawBytes img else [], false))
          (fun _ img => ([], true)))
  = Returned (mkFinal [MsgCannotWrite] (Some [xff; x00; x00; xff])
                      ["t0"%string]).
Proof.
  etransitivity; [|vm_compute; reflexivity].
  exact (proj1 (encoder_parameters
    (mkWorld (mkArgv false false 3 90 1)
          ["src.heic"%string; "out.PNG"%string]
          (fun _ => RunOK (B "width=1
height=1
tiles=1
")) (fun _ _ => true) (fun _ => ["t0"%string]) (fun f => RunOK (B f))
          (fun _ => Some (solid 1 1 red)) [0; 0; 0]%nat (fun img _ => img)
          (fun _ => true)
          (fun lvl img => (if lvl =? -3 then rawBytes img else [], false))
          (fun _ img => ([], true)))
    "src.heic"%string "out.PNG"%string [] (B "width=1
height=1
tiles=1
") [QueueItem.mk "t0" 0 0]
    eq_refl eq_refl ltac:(simpl; lia) ltac:(simpl; lia)
    eq_refl eq_refl eq_refl eq_refl eq_refl eq_refl) eq_refl).
Defined.

(** ** Destinations without a usable extension *)

(** A destination whose last path element has no dot has no extension,
    also when a directory on the way has one: it is not encoded (and,
    when it can be created, is left empty). *)
Theorem no_extension_unsupported dir name :
  noSep name = true ->
  formatOf name = FormatUnsupported /\
  formatOf (dir ++ "/" ++ name) = FormatUnsupported.
Proof.
  intros Hn.
  assert (H1 : Filepath.Ext name = EmptyString).
  { unfold Filepath.Ext.
    pose proof (extScan_noSep name [] [] Hn) as H. rewrite app_nil_r in H.
    rewrite H. reflexivity. }
  assert (H2 : Filepath.Ext (dir ++ "/" ++ name) = EmptyString).
  { unfold Filepath.Ext. rewrite list_ascii_app. simpl.
    rewrite rev_app_distr. simpl. rewrite <- app_assoc.
    rewrite extScan_noSep by exact Hn. reflexivity. }
  unfold formatOf. rewrite H1, H2. split; reflexivity.
Qed.

Lemma no_extension_unsupported_witness :
  formatOf "out" = FormatUnsupported /\
  formatOf "shots.png/out" = FormatUnsupported.
Proof. exact (no_extension_unsupported "shots.png" "out" eq_refl). Defined.

(** ** Pixels under any tiles, and the rotation *)



(** An angle other than 0 is handed to the rotation primitive as it was
    parsed (no reduction modulo 360, negative angles included), once,
    after the pool has finished; the encoder gets the rotated image. *)
Theorem rotation_is_passed_through w srcFile dstFile rest out q :
  version (argv w) = false -> help (argv w) = false ->
  0 <= pngCompression (argv w) <= 3 -> 0 <= jpegQuality (argv w) <= 100 ->
  args w = srcFile :: dstFile :: rest ->
  runInfo w srcFile = RunOK out ->
  runExtract w srcFile dstFile = true ->
  buildQueue (fixup (parseInfo out)) (globTmp w dstFile) = Some q ->
  Rotation (parseInfo out) <> 0 ->
  let info := fixup (parseInfo out) in
  let decode := hevc2Image (ffmpeg w) (pngDecode w) in
  let p := runPool decode (schedule w)
             (startPool (threads (argv w)) q
                (NewRGBA (Rect 0 0 (Width info) (Height info)))) in
  let enc := encodeStep w (GoInt.neg (pngCompression (argv w))) dstFile
               (Rotate w (dstImg p) (Rotation (parseInfo out))) in
  allDone p = true ->
  main w = Returned (mkFinal (decodeMsgs decode (calls p) ++ fst enc)
                             (snd enc) (globTmp w dstFile)).
Proof.
  intros Hv Hh Hp Hj Ha Hi He Hq Hr info decode p enc Hdone.
  rewrite (main_returns w srcFile dstFile rest out q Hv Hh Hp Hj Ha Hi He Hq Hdone).
  fold info. fold decode. fold p.
  assert (Hrot : Rotation info = Rotation (parseInfo out)).
  { unfold info, fixup. destruct (Tiles (parseInfo out) =? 1); reflexivity. }
  unfold postprocess. rewrite Hrot.
  apply Z.eqb_neq in Hr. rewrite Hr. reflexivity.
Qed.

Lemma rotation_is_passed_through_witness :
  main (withRotate (fun img a => if a =? -450 then NewRGBA ZR else img)
          (sampleWorld "width=4
height=2
rotation=-450
tiles=2
rows=1
cols=2
" twoByOne "out.png" 1 [0; 0; 0; 0; 0]%nat))
  = Returned (mkFinal [] (Some []) ["t0"%string; "t1"%string]).
Proof.
  etransitivity; [|vm_compute; reflexivity].
  exact (rotation_is_passed_through
    (withRotate (fun img a => if a =? -450 then NewRGBA ZR else img)
       (sampleWorld "width=4
height=2
rotation=-450
tiles=2
rows=1
cols=2
" twoByOne "out.png" 1 [0; 0; 0; 0; 0]%nat))
    "src.heic"%string "out.png"%string [] (B "width=4
height=2
rotation=-450
tiles=2
rows=1
cols=2
") (specJobs 2 files2x1)
    eq_refl eq_refl ltac:(simpl; lia) ltac:(simpl; lia)
    eq_refl eq_refl eq_refl eq_refl ltac:(vm_compute; discriminate) eq_refl).
Defined.

(** ** White space around a value *)

Lemma asciiSpace_front a l :
  GoBytes.asciiSpace a = true -> GoBytes.spaceAtFront (a :: l) = 1%nat.
Proof.
  unfold GoBytes.asciiSpace, GoBytes.spaceAtFront. simpl. intros ->. reflexivity.
Qed.

Lemma asciiSpace_back a l :
  GoBytes.asciiSpace a = true -> GoBytes.spaceAtBack (a :: l) = 1%nat.
Proof. unfold GoBytes.spaceAtBack. intros ->. reflexivity. Qed.

Lemma visible_front b l :
  visible b = true -> GoBytes.spaceAtFront (b :: l) = O.
Proof. destruct b; intros H; try discriminate H; reflexivity. Qed.

Lemma visible_not_two b1 b0 :
  visible b0 = true -> (GoBytes.spaceAtFront [b1; b0] =? 2)%nat = false.
Proof.
  intros H. destruct b1; try reflexivity;
    destruct b0; try reflexivity; discriminate H.
Qed.

Lemma visible_not_three b2 b1 b0 :
  visible b0 = true -> (GoBytes.spaceAtFront [b2; b1; b0] =? 3)%nat = false.
Proof.
  intros H. destruct b2; try reflexivity;
    destruct b1; try reflexivity;
    destruct b0; try reflexivity; discriminate H.
Qed.

Lemma visible_back b l :
  visible b = true -> GoBytes.spaceAtBack (b :: l) = O.
Proof.
  intros H. unfold GoBytes.spaceAtBack.
  assert (GoBytes.asciiSpace b = false) as ->
    by (destruct b; try reflexivity; discriminate H).
  destruct l as [|b1 [|b2 l]].
  - reflexivity.
  - rewrite visible_not_two by exact H. reflexivity.
  - rewrite visible_not_two, visible_not_three by exact H. reflexivity.
Qed.

Lemma trimWith_spaces width sp s : forall fuel,
  (forall a l, In a sp -> width (a :: l) = 1%nat) ->
  width s = O ->
  (length sp <= fuel)%nat ->
  GoBytes.trimWith width fuel (sp ++ s) = s.
Proof.
  induction sp as [|a sp IH]; intros fuel Hsp Hs Hfuel; simpl.
  - destruct fuel; simpl; [reflexivity|]. rewrite Hs. reflexivity.
  - destruct fuel as [|fuel]; [simpl in Hfuel; lia|]. simpl.
    rewrite (Hsp a (sp ++ s)) by (left; reflexivity). simpl.
    rewrite drop_0. apply IH; [|exact Hs|simpl in Hfuel; lia].
    intros a' l Ha'. apply Hsp. right. exact Ha'.
Qed.

Lemma TrimSpace_padded sp1 core sp2 :
  forallb GoBytes.asciiSpace sp1 = true ->
  forallb GoBytes.asciiSpace sp2 = true ->
  forallb visible core = true -> core <> [] ->
  GoBytes.TrimSpace (sp1 ++ core ++ sp2) = core.
Proof.
  intros H1 H2 Hc Hne.
  rewrite forallb_forall in H1, H2, Hc.
  unfold GoBytes.TrimSpace.
  assert (HL : GoBytes.TrimLeft (sp1 ++ core ++ sp2) = core ++ sp2).
  { unfold GoBytes.TrimLeft. apply trimWith_spaces.
    - intros a l Ha. apply asciiSpace_front, H1, Ha.
    - destruct core as [|c core]; [congruence|]. simpl.
      apply visible_front, Hc. left. reflexivity.
    - rewrite length_app. lia. }
  rewrite HL. unfold GoBytes.TrimRight.
  rewrite rev_app_distr.
  rewrite trimWith_spaces.
  - apply rev_involutive.
  - intros a l Ha. apply asciiSpace_back, H2. apply in_rev. exact Ha.
  - destruct (rev core) as [|d r] eqn:Hr.
    + apply (f_equal (@rev byte)) in Hr. rewrite rev_involutive in Hr.
      simpl in Hr. congruence.
    + apply visible_back, Hc. apply in_rev. rewrite Hr. left. reflexivity.
  - rewrite length_rev, length_app. lia.
Qed.

(** White space between the [=] and the value and after the value (the
    line feed, a carriage return before it, blanks, tabs) is not part of
    the value: the line assigns what [ParseInt] makes of the value's
    visible characters, or nothing when [ParseInt] rejects them.  So a
    text with CR LF line ends is read like one with LF line ends. *)
Theorem value_padding_ignored f sp1 core sp2 :
  forallb GoBytes.asciiSpace sp1 = true ->
  forallb GoBytes.asciiSpace sp2 = true ->
  forallb visible core = true -> core <> [] ->
  assigns (B (fieldName f) ++ GoBytes.eqsign :: sp1 ++ core ++ sp2) =
  match Strconv.ParseInt32 core with
  | Some v => Some (f, v)
  | None => None
  end.
Proof.
  intros H1 H2 Hc Hne. unfold assigns, splitInt.
  assert (Hn : GoBytes.IndexByte (B (fieldName f)) GoBytes.eqsign = None)
    by (destruct f; reflexivity).
  rewrite (IndexByte_first _ _ (sp1 ++ core ++ sp2) Hn).
  replace (drop (S (length (B (fieldName f))))
                (B (fieldName f) ++ GoBytes.eqsign :: sp1 ++ core ++ sp2))
    with (sp1 ++ core ++ sp2).
  2:{ clear. induction (B (fieldName f)) as [|x a IH]; [reflexivity|].
      simpl. exact IH. }
  rewrite TrimSpace_padded by assumption.
  destruct (Strconv.ParseInt32 core) as [v|]; [|reflexivity].
  rewrite take_app_length.
  assert (fieldOfName (B (fieldName f)) = Some f) as ->
    by (apply fieldOfName_exact; reflexivity).
  reflexivity.
Qed.

Lemma value_padding_ignored_witness :
  assigns (B "width=" ++ [x20; x09] ++ B "4032" ++ [x0d; x0a])
  = Some (FWidth, 4032) /\
  assigns (B "cols=" ++ [] ++ B "0x10" ++ [x20; x0a]) = None.
Proof.
  split.
  - exact (value_padding_ignored FWidth [x20; x09] (B "4032") [x0d; x0a]
             eq_refl eq_refl eq_refl ltac:(discriminate)).
  - exact (value_padding_ignored FCols [] (B "0x10") [x20; x0a]
             eq_refl eq_refl eq_refl ltac:(discriminate)).
Defined.

(** ** Values outside the 32-bit range *)

Lemma digitByte_digit d :
  0 <= d <= 9 ->
  Strconv.isDigit (digitByte d) = true /\ Strconv.digitVal (digitByte d) = d /\
  visible (digitByte d) = true.
Proof.
  intros H.
  assert (Hd : d = 0 \/ d = 1 \/ d = 2 \/ d = 3 \/ d = 4 \/ d = 5 \/ d = 6 \/
               d = 7 \/ d = 8 \/ d = 9) by lia.
  repeat (destruct Hd as [-> | Hd]; [repeat split; reflexivity|]).
  subst d. repeat split; reflexivity.
Qed.

Lemma digitsFrom_snoc s d : forall acc,
  Strconv.isDigit d = true ->
  Strconv.digitsFrom acc (s ++ [d]) =
  match Strconv.digitsFrom acc s with
  | Some v => Some (v * 10 + Strconv.digitVal d)
  | None => None
  end.
Proof.
  induction s as [|b s IH]; intros acc Hd; simpl.
  - rewrite Hd. reflexivity.
  - destruct (Strconv.isDigit b); [apply IH, Hd | reflexivity].
Qed.

Lemma decimalDigits_small n :
  0 <= n <= 9 ->
  Strconv.digitsFrom 0 [digitByte n] = Some n /\
  forallb Strconv.isDigit [digitByte n] = true /\
  forallb visible [digitByte n] = true /\ [digitByte n] <> [].
Proof.
  intros H9. destruct (digitByte_digit n H9) as (H1 & H2 & H3).
  simpl. rewrite H1, H2, H3.
  split; [reflexivity|]. split; [reflexivity|]. split; [reflexivity|].
  discriminate.
Qed.

Lemma decimalDigits_parse k : forall n,
  0 <= n < 2 ^ Z.of_nat (S k) ->
  let ds := decimalDigits (S k) n in
  Strconv.digitsFrom 0 ds = Some n /\
  forallb Strconv.isDigit ds = true /\ forallb visible ds = true /\ ds <> [].
Proof.
  induction k as [|k IH]; intros n Hn; cbv zeta;
    change (decimalDigits (S ?k') n)
      with (if n <? 10 then [digitByte n]
            else decimalDigits k' (n / 10) ++ [digitByte (n mod 10)]);
    destruct (n <? 10) eqn:E;
    try (apply Z.ltb_lt in E; apply decimalDigits_small; lia).
  - apply Z.ltb_ge in E. change (2 ^ Z.of_nat 1) with 2 in Hn. lia.
  - apply Z.ltb_ge in E.
    assert (Hq : 0 <= n / 10 < 2 ^ Z.of_nat (S k)).
    { split; [apply Z.div_pos; lia|].
      apply Z.div_lt_upper_bound; [lia|].
      replace (Z.of_nat (S (S k))) with (Z.succ (Z.of_nat (S k))) in Hn by lia.
      rewrite Z.pow_succ_r in Hn by lia. lia. }
    destruct (IH (n / 10) Hq) as (P1 & P2 & P3 & P4).
    assert (Hm : 0 <= n mod 10 <= 9)
      by (pose proof (Z.mod_pos_bound n 10); lia).
    destruct (digitByte_digit (n mod 10) Hm) as (H1 & H2 & H3).
    rewrite digitsFrom_snoc by exact H1. rewrite P1, H2.
    rewrite !forallb_app, P2, P3. simpl. rewrite H1, H3.
    split; [|split; [reflexivity|split; [reflexivity|]]].
    + f_equal. pose proof (Z.div_mod n 10). lia.
    + intros Hnil. apply app_eq_nil in Hnil. destruct Hnil as [_ Hnil].
      discriminate.
Qed.

Lemma log2_fuel n : 0 <= n -> 0 <= n < 2 ^ Z.of_nat (S (Z.to_nat (Z.log2 n))).
Proof.
  intros Hn. split; [exact Hn|].
  replace (Z.of_nat (S (Z.to_nat (Z.log2 n)))) with (Z.succ (Z.log2 n))
    by (pose proof (Z.log2_nonneg n); lia).
  destruct (Z.eq_dec n 0) as [->|Hz]; [reflexivity|].
  apply Z.log2_spec. lia.
Qed.

Lemma digit_not_sign b :
  Strconv.isDigit b = true ->
  Byte.eqb b "+" = false /\ Byte.eqb b "-" = false.
Proof. destruct b; vm_compute; intros; split; congruence. Qed.

Lemma ParseInt32_decimal n :
  Strconv.ParseInt32 (decimal n) =
  if (- 2 ^ 31 <=? n) && (n <? 2 ^ 31) then Some n else None.
Proof.
  unfold decimal. destruct (n <? 0) eqn:En.
  - apply Z.ltb_lt in En.
    destruct (decimalDigits_parse _ (- n) (log2_fuel (- n) ltac:(lia)))
      as (P1 & _ & _ & P4).
    cbv zeta in P1, P4. unfold Strconv.ParseInt32.
    change (Byte.eqb "-" "+") with false. change (Byte.eqb "-" "-") with true.
    cbv iota beta. unfold Strconv.ParseUint10.
    destruct (decimalDigits _ (- n)) as [|b ds] eqn:Ed; [congruence|].
    rewrite P1. simpl negb. cbv iota beta. rewrite andb_false_l, andb_true_l.
    assert ((n <? 2 ^ 31) = true) as -> by (apply Z.ltb_lt; lia).
    rewrite andb_true_r.
    destruct (2 ^ 31 <? - n) eqn:E1; destruct (- 2 ^ 31 <=? n) eqn:E2;
      rewrite ?Z.ltb_lt, ?Z.ltb_ge, ?Z.leb_le, ?Z.leb_gt in *;
      try lia; [reflexivity | f_equal; lia].
  - apply Z.ltb_ge in En.
    destruct (decimalDigits_parse _ n (log2_fuel n En)) as (P1 & P2 & _ & P4).
    cbv zeta in P1, P2, P4. unfold Strconv.ParseInt32.
    destruct (decimalDigits _ n) as [|b ds] eqn:Ed; [congruence|].
    simpl in P2. apply andb_true_iff in P2. destruct P2 as [Hb _].
    destruct (digit_not_sign b Hb) as [-> ->]. cbv iota beta.
    unfold Strconv.ParseUint10. rewrite P1. simpl negb. cbv iota beta.
    rewrite andb_true_l, andb_false_l.
    assert ((- 2 ^ 31 <=? n) = true) as -> by (apply Z.leb_le; lia).
    rewrite andb_true_l.
    destruct (2 ^ 31 <=? n) eqn:E1; destruct (n <? 2 ^ 31) eqn:E2;
      rewrite ?Z.ltb_lt, ?Z.ltb_ge, ?Z.leb_le, ?Z.leb_gt in *;
      try lia; reflexivity.
Qed.

Lemma decimal_visible n : forallb visible (decimal n) = true /\ decimal n <> [].
Proof.
  unfold decimal. destruct (n <? 0) eqn:En.
  - apply Z.ltb_lt in En.
    destruct (decimalDigits_parse _ (- n) (log2_fuel (- n) ltac:(lia)))
      as (_ & _ & P3 & _).
    cbv zeta in P3. split; [|discriminate]. cbn [forallb]. rewrite P3.
    reflexivity.
  - apply Z.ltb_ge in En.
    destruct (decimalDigits_parse _ n (log2_fuel n En)) as (_ & _ & P3 & P4).
    split; assumption.
Qed.

Lemma visible_no_nl s :
  forallb visible s = true -> GoBytes.IndexByte s GoBytes.nl = None.
Proof.
  induction s as [|b s IH]; simpl; [reflexivity|].
  intros H. apply andb_true_iff in H. destruct H as [Hb Hs].
  rewrite (IH Hs).
  assert (Byte.eqb b GoBytes.nl = false) as ->; [|reflexivity].
  destruct (Byte.eqb b GoBytes.nl) eqn:E; [|reflexivity].
  apply Byte.byte_dec_bl in E. subst b. discriminate Hb.
Qed.

Lemma assigns_decimal f n :
  assigns (B (fieldName f) ++ GoBytes.eqsign :: decimal n ++ [GoBytes.nl]) =
  if (- 2 ^ 31 <=? n) && (n <? 2 ^ 31) then Some (f, n) else None.
Proof.
  destruct (decimal_visible n) as [Hv Hne].
  unfold assigns, splitInt.
  assert (Hn : GoBytes.IndexByte (B (fieldName f)) GoBytes.eqsign = None)
    by (destruct f; reflexivity).
  rewrite (IndexByte_first _ _ (decimal n ++ [GoBytes.nl]) Hn).
  replace (drop (S (length (B (fieldName f))))
                (B (fieldName f) ++ GoBytes.eqsign :: decimal n ++ [GoBytes.nl]))
    with ([] ++ decimal n ++ [GoBytes.nl]).
  2:{ clear. induction (B (fieldName f)) as [|x a IH]; [reflexivity|].
      simpl. exact IH. }
  rewrite (TrimSpace_padded [] (decimal n) [GoBytes.nl] eq_refl eq_refl Hv Hne).
  rewrite ParseInt32_decimal.
  destruct ((- 2 ^ 31 <=? n) && (n <? 2 ^ 31)); [|reflexivity].
  rewrite take_app_length.
  assert (fieldOfName (B (fieldName f)) = Some f) as ->
    by (apply fieldOfName_exact; reflexivity).
  reflexivity.
Qed.

Lemma decimal_line f n :
  isLine (B (fieldName f) ++ GoBytes.eqsign :: decimal n ++ [GoBytes.nl]) = true.
Proof.
  destruct (decimal_visible n) as [Hv _].
  assert (Hp : GoBytes.IndexByte (B (fieldName f) ++ GoBytes.eqsign :: decimal n)
                 GoBytes.nl = None).
  { apply visible_no_nl. rewrite forallb_app. simpl. rewrite Hv.
    destruct f; reflexivity. }
  unfold isLine.
  replace (B (fieldName f) ++ GoBytes.eqsign :: decimal n ++ [GoBytes.nl])
    with ((B (fieldName f) ++ GoBytes.eqsign :: decimal n) ++ GoBytes.nl :: [])
    by (rewrite <- app_assoc; reflexivity).
  rewrite (IndexByte_first _ _ [] Hp).
  apply Nat.eqb_eq. rewrite !length_app. simpl. lia.
Qed.

(** Whatever the tool prints, every field of the descriptor is a 32-bit
    integer.  A line that gives a field the decimal numeral of an
    integer [n] sets the field to [n] when [n] lies in the signed 32-bit
    range; when [n] lies outside, the line is skipped: the descriptor is
    the one of the lines before it, the value is neither clamped to the
    nearest bound nor reduced modulo [2^32]. *)
Theorem parsed_fields_fit_int32 stdout f :
  - 2 ^ 31 <= getField f (parseInfo stdout) < 2 ^ 31 /\
  (forall ls n,
      forallb isLine ls = true ->
      let line :=
        B (fieldName f) ++ GoBytes.eqsign :: decimal n ++ [GoBytes.nl] in
      (- 2 ^ 31 <= n < 2 ^ 31 ->
       parseInfo (concat (ls ++ [line])) = setField f n (parseInfo (concat ls))) /\
      (n < - 2 ^ 31 \/ 2 ^ 31 <= n ->
       parseInfo (concat (ls ++ [line])) = parseInfo (concat ls))).
Proof.
  split.
  - unfold parseInfo.
    assert (H : forall ls info,
               (forall g, - 2 ^ 31 <= getField g info < 2 ^ 31) ->
               forall g, - 2 ^ 31 <= getField g (fold_left processLine ls info)
                         < 2 ^ 31).
    { induction ls as [|l ls IH]; intros info Hinfo g; simpl; [apply Hinfo|].
      apply IH. intros g'. rewrite processLine_assigns.
      destruct (assigns l) as [[fl vl]|] eqn:Ha; [|apply Hinfo].
      rewrite getField_setField. destruct (Field_eq_dec g' fl); [|apply Hinfo].
      eapply assigns_range, Ha. }
    apply H. intros g. destruct g; simpl; lia.
  - intros ls n Hls line.
    assert (Hall : forallb isLine (ls ++ [line]) = true).
    { rewrite forallb_app, Hls. simpl. unfold line. rewrite decimal_line.
      reflexivity. }
    assert (Hp : parseInfo (concat (ls ++ [line])) =
                 processLine (parseInfo (concat ls)) line).
    { unfold parseInfo.
      rewrite <- (app_nil_r (concat (ls ++ [line]))).
      rewrite (readLines_concat _ [] Hall eq_refl).
      rewrite <- (app_nil_r (concat ls)).
      rewrite (readLines_concat _ [] Hls eq_refl).
      rewrite fold_left_app. reflexivity. }
    rewrite Hp, processLine_assigns. unfold line. rewrite assigns_decimal.
    split; intros Hr.
    + assert ((- 2 ^ 31 <=? n) && (n <? 2 ^ 31) = true) as ->; [|reflexivity].
      apply andb_true_iff. rewrite Z.leb_le, Z.ltb_lt. lia.
    + assert ((- 2 ^ 31 <=? n) && (n <? 2 ^ 31) = false) as ->; [|reflexivity].
      apply andb_false_iff. rewrite Z.leb_gt, Z.ltb_ge. lia.
Qed.

Lemma parsed_fields_fit_int32_witness :
  parseInfo (B "cols=2
cols=2147483648
") = mkHeifInfo 0 0 0 0 0 2 /\
  parseInfo (B "cols=2
cols=-2147483649
") = mkHeifInfo 0 0 0 0 0 2 /\
  parseInfo (B "cols=2
cols=-2147483648
") = mkHeifInfo 0 0 0 0 0 (- 2147483648) /\
  parseInfo (B "cols=2
cols=4294967299
") = mkHeifInfo 0 0 0 0 0 2.
Proof.
  pose (ls := [B "cols=2
"]).
  split; [|split; [|split]].
  - exact (proj2 (proj2 (parsed_fields_fit_int32 [] FCols) ls 2147483648
                    eq_refl) ltac:(lia)).
  - exact (proj2 (proj2 (parsed_fields_fit_int32 [] FCols) ls (- 2147483649)
                    eq_refl) ltac:(lia)).
  - exact (proj1 (proj2 (parsed_fields_fit_int32 [] FCols) ls (- 2147483648)
                    eq_refl) ltac:(lia)).
  - exact (proj2 (proj2 (parsed_fields_fit_int32 [] FCols) ls 4294967299
                    eq_refl) ltac:(lia)).
Defined.
